(** * FlJsonMessageCodec: a shallow embedding of
    [shell/platform/linux/fl_json_message_codec.cc] and the properties of
    its encoder and decoder.

    The C++ code is modelled function by function.  A [GByteArray] that is
    being appended to is a [list byte] threaded through the writers; the
    decoder's cursor (a [GBytes] buffer plus an offset that only ever moves
    forward) is the list of bytes that are still unread, so that the offset is
    the size of the message minus the length of that list.

    The pointer handlers of [shell/platform/linux/fl_view.cc] follow the
    codec: the view is the record of the fields they use, and a handler
    returns the view, the pointer event it sends to the engine if it sends
    one, and its return value. *)

From Stdlib Require Import ZArith List Bool Lia.
From Stdlib Require Import Strings.Byte.
From Stdlib Require String.
From Stdlib Require Import Floats.SpecFloat.
Import ListNotations.
Import String.StringSyntax.

Delimit Scope string_scope with string.

Local Open Scope Z_scope.

(** ** Bytes and the C [char] type *)

(** The unsigned value of a byte, 0..255. *)
Definition byte_val (b : byte) : Z := Z.of_N (Byte.to_N b).

(** Conversion of an integer to a byte, keeping the low eight bits. *)
Definition byte_of_Z (z : Z) : byte :=
  match Byte.of_N (Z.to_N (z mod 256)) with
  | Some b => b
  | None => x00
  end.

(** A byte string literal. *)
Definition bytes (s : String.string) : list byte := String.list_byte_of_string s.

Arguments bytes s%_string.

(** The bytes of a NUL-terminated C string: everything before the first NUL. *)
Fixpoint c_str (l : list byte) : list byte :=
  match l with
  | [] => []
  | c :: l' => if Byte.eqb c x00 then [] else c :: c_str l'
  end.

(** ** 64-bit and 32-bit integers *)

Definition G_MININT64 : Z := - 2 ^ 63.
Definition G_MAXINT64 : Z := 2 ^ 63 - 1.

(** Reduction of an integer to the [int64_t] range (two's complement). *)
Definition wrap64 (z : Z) : Z := (z + 2 ^ 63) mod 2 ^ 64 - 2 ^ 63.

(** Reduction to [guint32] / [gunichar]. *)
Definition wrap32u (z : Z) : Z := z mod 2 ^ 32.

Definition int64_range (z : Z) : Prop := G_MININT64 <= z <= G_MAXINT64.
Definition int32_range (z : Z) : Prop := - 2 ^ 31 <= z < 2 ^ 31.

(** ** IEEE 754 binary64 *)

Definition double : Type := spec_float.

Definition double_of_int64 (z : Z) : double := binary_normalize 53 1024 z 0 false.
Definition double_add : double -> double -> double := SFadd 53 1024.
Definition double_mul : double -> double -> double := SFmul 53 1024.
Definition double_div : double -> double -> double := SFdiv 53 1024.

(** [isfinite] of <math.h>. *)
Definition isfinite (d : double) : bool :=
  match d with
  | S754_zero _ | S754_finite _ _ _ => true
  | S754_infinity _ | S754_nan => false
  end.

(** ** The value model and the error codes *)

Unset Elimination Schemes.

Inductive FlValue : Type :=
| FlNull
| FlBool (b : bool)
| FlInt (i : Z)
| FlFloat (d : double)
| FlString (s : list byte)
| FlUint8List (l : list byte)
| FlInt32List (l : list Z)
| FlInt64List (l : list Z)
| FlFloatList (l : list double)
| FlList (l : list FlValue)
| FlMap (m : list (FlValue * FlValue)).

Set Elimination Schemes.

(** Error codes of the two error domains FL_MESSAGE_CODEC_ERROR and
    FL_JSON_MESSAGE_CODEC_ERROR.  The additional-data error carries the number
    of unused bytes that the source formats into its message. *)
Inductive FlError : Type :=
| FL_MESSAGE_CODEC_ERROR_FAILED
| FL_MESSAGE_CODEC_ERROR_OUT_OF_DATA
| FL_MESSAGE_CODEC_ERROR_ADDITIONAL_DATA (unused : nat)
| FL_JSON_MESSAGE_CODEC_ERROR_INVALID_NUMBER
| FL_JSON_MESSAGE_CODEC_ERROR_MISSING_COMMA
| FL_JSON_MESSAGE_CODEC_ERROR_INVALID_STRING_CHARACTER
| FL_JSON_MESSAGE_CODEC_ERROR_INVALID_STRING_ESCAPE_SEQUENCE
| FL_JSON_MESSAGE_CODEC_ERROR_INVALID_STRING_UNICODE_ESCAPE
| FL_JSON_MESSAGE_CODEC_ERROR_INVALID_OBJECT_KEY_TYPE.

(** Outcome of a reader or writer: a result, an error set through [GError],
    or a loop of the model that was not given enough iterations. *)
Inductive result (A : Type) : Type :=
| Ok (a : A)
| Err (e : FlError)
| OutOfFuel.

Arguments Ok {A} a.
Arguments Err {A} e.
Arguments OutOfFuel {A}.

Definition bind {A B : Type} (r : result A) (k : A -> result B) : result B :=
  match r with
  | Ok a => k a
  | Err e => Err e
  | OutOfFuel => OutOfFuel
  end.

Notation "'do' x <- r ; k" := (bind r (fun x => k))
  (at level 10, x pattern, r at level 100, k at level 200).

(** ** What the codec takes from its platform

    Whether plain [char] is signed is fixed by the ABI (signed on x86-64,
    unsigned on AArch64); [g_ascii_dtostr] is GLib's and [pow] is libm's. *)
Record Platform : Type := {
  char_is_signed : bool;
  g_ascii_dtostr : double -> list byte;
  pow : double -> double -> double
}.

Section Codec.

Variable P : Platform.

(** The value of a [char] object holding byte [b], as promoted to [int]. *)
Definition char_to_int (b : byte) : Z :=
  if char_is_signed P && (128 <=? byte_val b) then byte_val b - 256 else byte_val b.

(** ** Character classification and digit conversion *)

Definition is_json_whitespace (value : byte) : bool :=
  Byte.eqb value " " || Byte.eqb value x0a || Byte.eqb value x0d || Byte.eqb value x09.

Definition json_int_to_digit (value : Z) : byte := byte_of_Z (48 + value).

Definition json_int_to_xdigit (value : Z) : byte :=
  if value <? 10 then byte_of_Z (48 + value) else byte_of_Z (97 + value).

Definition json_digit_to_int (value : byte) : Z :=
  if (48 <=? char_to_int value) && (char_to_int value <=? 57)
  then char_to_int value - 48
  else -1.

Definition json_xdigit_to_int (value : byte) : Z :=
  if (48 <=? char_to_int value) && (char_to_int value <=? 57)
  then char_to_int value - 48
  else if (97 <=? char_to_int value) && (char_to_int value <=? 102)
  then char_to_int value - 97 + 10
  else if (65 <=? char_to_int value) && (char_to_int value <=? 70)
  then char_to_int value - 65 + 10
  else -1.

(** ** Writers *)

Definition write_char (buffer : list byte) (value : byte) : list byte :=
  buffer ++ [value].

Definition write_string (buffer : list byte) (value : list byte) : list byte :=
  buffer ++ c_str value.

(** First loop of [write_int]: [while (value / divisor > 9) divisor *= 10]. *)
Fixpoint write_int_divisor (fuel : nat) (value divisor : Z) {struct fuel} : Z :=
  match fuel with
  | O => divisor
  | S fuel' =>
      if 9 <? Z.quot value divisor
      then write_int_divisor fuel' value (wrap64 (divisor * 10))
      else divisor
  end.

(** Second loop of [write_int]: one digit per iteration, most significant
    first, until the divisor is 1. *)
Fixpoint write_int_digits (fuel : nat) (buffer : list byte) (value divisor : Z)
  {struct fuel} : list byte :=
  match fuel with
  | O => buffer
  | S fuel' =>
      let v := Z.quot value divisor in
      let buffer := write_char buffer (json_int_to_digit v) in
      if divisor =? 1 then buffer
      else write_int_digits fuel' buffer (wrap64 (value - v * divisor))
                            (Z.quot divisor 10)
  end.

(** An [int64_t] has at most 19 decimal digits, which bounds both loops. *)
Definition write_int (buffer : list byte) (value : Z) : list byte :=
  if value =? G_MININT64 then write_string buffer (bytes "-9223372036854775808")
  else
    let buffer := if value <? 0 then write_char buffer "-" else buffer in
    let value := if value <? 0 then wrap64 (- value) else value in
    let divisor := write_int_divisor 19 value 1 in
    write_int_digits 19 buffer value divisor.

Definition write_double (buffer : list byte) (value : double) : result (list byte) :=
  if negb (isfinite value) then Err FL_JSON_MESSAGE_CODEC_ERROR_INVALID_NUMBER
  else
    let text := g_ascii_dtostr P value in
    let buffer := write_string buffer text in
    if negb (existsb (Byte.eqb ".") (c_str text))
    then Ok (write_string buffer (bytes ".0"))
    else Ok buffer.

Definition write_unicode_escape (buffer : list byte) (c : Z) : list byte :=
  let buffer := write_string buffer [x5c; "u"%byte] in
  let buffer := write_char buffer (json_int_to_xdigit (Z.land (Z.shiftr c 24) 15)) in
  let buffer := write_char buffer (json_int_to_xdigit (Z.land (Z.shiftr c 16) 15)) in
  let buffer := write_char buffer (json_int_to_xdigit (Z.land (Z.shiftr c 8) 15)) in
  write_char buffer (json_int_to_xdigit (Z.land (Z.shiftr c 0) 15)).

(** One iteration of the string loop of [write_value]: the chain of tests on
    [string[i]]. *)
Definition write_string_char (buffer : list byte) (c : byte) : list byte :=
  if Byte.eqb c x22 then write_string buffer [x5c; x22]
  else if Byte.eqb c x5c then write_string buffer [x5c; x5c]
  else if Byte.eqb c x08 then write_string buffer [x5c; "b"%byte]
  else if Byte.eqb c x0c then write_string buffer [x5c; "f"%byte]
  else if Byte.eqb c x0a then write_string buffer [x5c; "n"%byte]
  else if Byte.eqb c x0d then write_string buffer [x5c; "r"%byte]
  else if Byte.eqb c x09 then write_string buffer [x5c; "t"%byte]
  else if char_to_int c <? 32 then write_unicode_escape buffer (wrap32u (char_to_int c))
  else write_char buffer c.

(** [for (int i = 0; string[i] != '\0'; i++)]. *)
Fixpoint write_string_chars (buffer : list byte) (string : list byte)
  {struct string} : list byte :=
  match string with
  | [] => buffer
  | c :: rest =>
      if Byte.eqb c x00 then buffer
      else write_string_chars (write_string_char buffer c) rest
  end.

(** The separator written before element [i] of a list or map. *)
Definition write_separator (buffer : list byte) (i : nat) : list byte :=
  if negb (Nat.eqb i 0) then write_char buffer "," else buffer.

(** The element loop of the three integer list cases, from index [i]. *)
Fixpoint write_int_elements (buffer : list byte) (i : nat) (values : list Z)
  {struct values} : list byte :=
  match values with
  | [] => buffer
  | v :: rest =>
      write_int_elements (write_int (write_separator buffer i) v) (S i) rest
  end.

(** The element loop of the float list case, from index [i]. *)
Fixpoint write_double_elements (buffer : list byte) (i : nat) (values : list double)
  {struct values} : result (list byte) :=
  match values with
  | [] => Ok buffer
  | v :: rest =>
      do buffer <- write_double (write_separator buffer i) v;
      write_double_elements buffer (S i) rest
  end.

(** [write_value] for a non-null [FlValue*]. *)
Fixpoint write_value (buffer : list byte) (value : FlValue) {struct value}
  : result (list byte) :=
  match value with
  | FlNull => Ok (write_string buffer (bytes "null"))
  | FlBool b =>
      if b then Ok (write_string buffer (bytes "true"))
      else Ok (write_string buffer (bytes "false"))
  | FlInt i => Ok (write_int buffer i)
  | FlFloat d => write_double buffer d
  | FlString s =>
      let buffer := write_char buffer x22 in
      let buffer := write_string_chars buffer s in
      Ok (write_char buffer x22)
  | FlUint8List l =>
      let buffer := write_char buffer "[" in
      let buffer := write_int_elements buffer 0 (map byte_val l) in
      Ok (write_char buffer "]")
  | FlInt32List l =>
      let buffer := write_char buffer "[" in
      let buffer := write_int_elements buffer 0 l in
      Ok (write_char buffer "]")
  | FlInt64List l =>
      let buffer := write_char buffer "[" in
      let buffer := write_int_elements buffer 0 l in
      Ok (write_char buffer "]")
  | FlFloatList l =>
      let buffer := write_char buffer "[" in
      do buffer <- write_double_elements buffer 0 l;
      Ok (write_char buffer "]")
  | FlList l =>
      let buffer := write_char buffer "[" in
      do buffer <-
        (fix elements (buffer : list byte) (i : nat) (l : list FlValue)
           {struct l} : result (list byte) :=
           match l with
           | [] => Ok buffer
           | child :: rest =>
               do buffer <- write_value (write_separator buffer i) child;
               elements buffer (S i) rest
           end) buffer O l;
      Ok (write_char buffer "]")
  | FlMap m =>
      let buffer := write_char buffer "{" in
      do buffer <-
        (fix entries (buffer : list byte) (i : nat) (m : list (FlValue * FlValue))
           {struct m} : result (list byte) :=
           match m with
           | [] => Ok buffer
           | (k, v) :: rest =>
               do buffer <- write_value (write_separator buffer i) k;
               let buffer := write_char buffer ":" in
               do buffer <- write_value buffer v;
               entries buffer (S i) rest
           end) buffer O m;
      Ok (write_char buffer "}")
  end.

(** [write_value] as called on a possibly null pointer. *)
Definition write_value_nullable (buffer : list byte) (value : option FlValue)
  : result (list byte) :=
  match value with
  | None => Ok (write_string buffer (bytes "null"))
  | Some v => write_value buffer v
  end.

(** FlMessageCodec:encode_message. *)
Definition fl_json_message_codec_encode_message (message : option FlValue)
  : result (list byte) :=
  write_value_nullable [] message.

(** ** The value library, as far as the decoder uses it

    [fl_value.cc] is not part of the sources at hand; the four operations the
    decoder calls are modelled from their use and from the specification. *)

(** Modelled from the spec: [fl_value_equal], the structural equality that
    [fl_value_set] uses to look a key up; values of different type are never
    equal and floats are compared with [==]. *)
Fixpoint fl_value_equal (a b : FlValue) {struct a} : bool :=
  match a, b with
  | FlNull, FlNull => true
  | FlBool x, FlBool y => Bool.eqb x y
  | FlInt x, FlInt y => x =? y
  | FlFloat x, FlFloat y => SFeqb x y
  | FlString x, FlString y => if list_eq_dec Byte.byte_eq_dec x y then true else false
  | FlUint8List x, FlUint8List y => if list_eq_dec Byte.byte_eq_dec x y then true else false
  | FlInt32List x, FlInt32List y => if list_eq_dec Z.eq_dec x y then true else false
  | FlInt64List x, FlInt64List y => if list_eq_dec Z.eq_dec x y then true else false
  | FlFloatList x, FlFloatList y =>
      (fix all2 (x y : list double) {struct x} : bool :=
         match x, y with
         | [], [] => true
         | d :: x', e :: y' => SFeqb d e && all2 x' y'
         | _, _ => false
         end) x y
  | FlList x, FlList y =>
      (fix all2 (x y : list FlValue) {struct x} : bool :=
         match x, y with
         | [], [] => true
         | v :: x', w :: y' => fl_value_equal v w && all2 x' y'
         | _, _ => false
         end) x y
  | FlMap x, FlMap y =>
      (fix all2 (x y : list (FlValue * FlValue)) {struct x} : bool :=
         match x, y with
         | [], [] => true
         | (k, v) :: x', (l, w) :: y' =>
             fl_value_equal k l && fl_value_equal v w && all2 x' y'
         | _, _ => false
         end) x y
  | _, _ => false
  end.

(** Modelled from the spec: [fl_value_set] on the entries of a map; a key
    that is already present has its value overwritten (last write wins), a new
    key is appended. *)
Fixpoint fl_value_set (m : list (FlValue * FlValue)) (key value : FlValue)
  {struct m} : list (FlValue * FlValue) :=
  match m with
  | [] => [(key, value)]
  | (k, v) :: m' =>
      if fl_value_equal k key then (key, value) :: m'
      else (k, v) :: fl_value_set m' key value
  end.

(** Modelled from the spec: [fl_value_append] on the elements of a list. *)
Definition fl_value_append (l : list FlValue) (child : FlValue) : list FlValue :=
  l ++ [child].

(** Modelled from the spec: [fl_value_new_string], which copies the
    NUL-terminated string it is given. *)
Definition fl_value_new_string (text : list byte) : FlValue := FlString (c_str text).

(** [g_string_append_unichar] of GLib: the UTF-8 encoding of a code point
    below 0x10000, which is all that four hexadecimal digits can give. *)
Definition g_string_append_unichar (text : list byte) (wc : Z) : list byte :=
  if wc <? 128 then text ++ [byte_of_Z wc]
  else if wc <? 2048 then
    text ++ [byte_of_Z (Z.lor 192 (Z.shiftr wc 6));
             byte_of_Z (Z.lor 128 (Z.land wc 63))]
  else
    text ++ [byte_of_Z (Z.lor 224 (Z.shiftr wc 12));
             byte_of_Z (Z.lor 128 (Z.land (Z.shiftr wc 6) 63));
             byte_of_Z (Z.lor 128 (Z.land wc 63))].

(** ** Cursor primitives *)

Definition cursor : Type := list byte.

(** The character at the read location, NUL at the end of the buffer. *)
Definition current_char (s : cursor) : byte :=
  match s with
  | [] => x00
  | c :: _ => c
  end.

Definition next_char (s : cursor) : cursor := tl s.

(** [while (is_json_whitespace(current_char(...))) next_char(...)]; the NUL
    that [current_char] gives at the end of the buffer is not whitespace. *)
Fixpoint read_whitespace (s : cursor) {struct s} : cursor :=
  match s with
  | [] => []
  | c :: s' => if is_json_whitespace c then read_whitespace s' else s
  end.

(** ** Scalar readers *)

Fixpoint read_word (s : cursor) (word : list byte) {struct word} : result cursor :=
  match word with
  | [] => Ok s
  | w :: word' =>
      if negb (Byte.eqb (current_char s) w) then Err FL_MESSAGE_CODEC_ERROR_FAILED
      else read_word (next_char s) word'
  end.

Definition read_json_true (s : cursor) : result (FlValue * cursor) :=
  do s <- read_word s (bytes "true"); Ok (FlBool true, s).

Definition read_json_false (s : cursor) : result (FlValue * cursor) :=
  do s <- read_word s (bytes "false"); Ok (FlBool false, s).

Definition read_json_null (s : cursor) : result (FlValue * cursor) :=
  do s <- read_word s (bytes "null"); Ok (FlNull, s).

Definition read_comma (s : cursor) : result cursor :=
  if negb (Byte.eqb (current_char s) ",") then Err FL_JSON_MESSAGE_CODEC_ERROR_MISSING_COMMA
  else Ok (next_char s).

(** The loop of [read_json_unichar_code], with [n] iterations left. *)
Fixpoint read_json_unichar_code_loop (n : nat) (wc : Z) (s : cursor) {struct n}
  : result (Z * cursor) :=
  match n with
  | O => Ok (wc, s)
  | S n' =>
      let xdigit := json_xdigit_to_int (current_char s) in
      if xdigit <? 0 then Err FL_JSON_MESSAGE_CODEC_ERROR_INVALID_STRING_UNICODE_ESCAPE
      else read_json_unichar_code_loop n' (wrap32u (Z.shiftl wc 4 + xdigit)) (next_char s)
  end.

Definition read_json_unichar_code (s : cursor) : result (Z * cursor) :=
  read_json_unichar_code_loop 4 0 s.

Definition read_json_string_escape (s : cursor) : result (Z * cursor) :=
  let c := current_char s in
  if Byte.eqb c "u" then read_json_unichar_code (next_char s)
  else
    do value <-
      (if Byte.eqb c x22 then Ok 34
       else if Byte.eqb c x5c then Ok 92
       else if Byte.eqb c "/" then Ok 47
       else if Byte.eqb c "b" then Ok 8
       else if Byte.eqb c "f" then Ok 12
       else if Byte.eqb c "n" then Ok 10
       else if Byte.eqb c "r" then Ok 13
       else if Byte.eqb c "t" then Ok 9
       else Err FL_JSON_MESSAGE_CODEC_ERROR_INVALID_STRING_ESCAPE_SEQUENCE);
    Ok (value, next_char s).

(** The [while (TRUE)] loop of [read_json_string]; every iteration that does
    not return consumes at least one byte. *)
Fixpoint read_json_string_loop (fuel : nat) (text : list byte) (s : cursor)
  {struct fuel} : result (FlValue * cursor) :=
  match fuel with
  | O => OutOfFuel
  | S fuel' =>
      let c := current_char s in
      if Byte.eqb c x22 then Ok (fl_value_new_string text, next_char s)
      else if Byte.eqb c x5c then
        do (wc, s) <- read_json_string_escape (next_char s);
        read_json_string_loop fuel' (g_string_append_unichar text wc) s
      else if Byte.eqb c x00 then Err FL_MESSAGE_CODEC_ERROR_OUT_OF_DATA
      else if char_to_int c <? 32 then Err FL_JSON_MESSAGE_CODEC_ERROR_INVALID_STRING_CHARACTER
      else read_json_string_loop fuel' (text ++ [c]) (next_char s)
  end.

(** Called with the cursor on the opening quote; the loop runs at most once
    per byte of the buffer and once more for its end. *)
Definition read_json_string (s : cursor) : result (FlValue * cursor) :=
  read_json_string_loop (S (length s)) [] (next_char s).

(** The loop of [read_json_digits]; the divisor is tracked whether or not the
    caller asked for it. *)
Fixpoint read_json_digits_loop (value divisor : Z) (s : cursor) {struct s}
  : Z * Z * cursor :=
  match s with
  | [] => (value, divisor, s)
  | c :: s' =>
      if json_digit_to_int c <? 0 then (value, divisor, s)
      else read_json_digits_loop (wrap64 (value * 10 + json_digit_to_int c))
                                 (wrap64 (divisor * 10)) s'
  end.

Definition read_json_digits (s : cursor) : Z * Z * cursor :=
  read_json_digits_loop 0 1 s.

(** [read_json_number] is modelled block by block.  First block: the
    optional minus sign, which must be followed by a digit.  The result is
    the sign, the character [c] at the cursor and the cursor. *)
Definition read_json_number_sign (s : cursor) : result (Z * byte * cursor) :=
  let c := current_char s in
  if Byte.eqb c "-" then
    let s := next_char s in
    let c := current_char s in
    if json_digit_to_int c <? 0 then Err FL_JSON_MESSAGE_CODEC_ERROR_INVALID_NUMBER
    else Ok (-1, c, s)
  else Ok (1, c, s).

(** Second block: the integer part, a single zero or a run of digits. *)
Definition read_json_number_integer (c : byte) (s : cursor) : Z * cursor :=
  if Byte.eqb c "0" then (0, next_char s)
  else let '(v, _, s') := read_json_digits s in (v, s').

(** Third block: the fraction, if [c] is a decimal point.  The result is
    [is_floating], the fraction, its divisor and the cursor. *)
Definition read_json_number_fraction (c : byte) (s : cursor)
  : result (bool * Z * Z * cursor) :=
  if Byte.eqb c "." then
    let s := next_char s in
    if json_digit_to_int (current_char s) <? 0
    then Err FL_JSON_MESSAGE_CODEC_ERROR_INVALID_NUMBER
    else let '(f, d, s') := read_json_digits s in Ok (true, f, d, s')
  else Ok (false, 0, 1, s).

(** Fourth block: the exponent, if [c] is an exponent marker.  The result is
    [is_floating], the exponent, its sign and the cursor. *)
Definition read_json_number_exponent (c : byte) (is_floating : bool) (s : cursor)
  : result (bool * Z * Z * cursor) :=
  if Byte.eqb c "E" || Byte.eqb c "e" then
    let s := next_char s in
    let c := current_char s in
    let '(exponent_sign, s) :=
      if Byte.eqb c "-" then (-1, next_char s)
      else if Byte.eqb c "+" then (1, next_char s)
      else (1, s) in
    if json_digit_to_int (current_char s) <? 0
    then Err FL_JSON_MESSAGE_CODEC_ERROR_INVALID_NUMBER
    else let '(e, _, s') := read_json_digits s in Ok (true, e, exponent_sign, s')
  else Ok (is_floating, 0, 1, s).

(** The value that [read_json_number] returns. *)
Definition read_json_number_result (is_floating : bool)
  (sign value fraction divisor exponent_sign exponent : Z) : FlValue :=
  if is_floating then
    FlFloat
      (double_mul
         (double_mul (double_of_int64 sign)
            (double_add (double_of_int64 value)
               (double_div (double_of_int64 fraction) (double_of_int64 divisor))))
         (pow P (double_of_int64 10)
            (double_of_int64 (wrap64 (exponent_sign * exponent)))))
  else FlInt (wrap64 (sign * value)).

(** [read_json_number].  As in the source, [c] is read again after the
    integer part only: the character that the fourth block tests for an
    exponent marker is the one that the third block tested for a decimal
    point, also when a fraction has been read in between. *)
Definition read_json_number (s : cursor) : result (FlValue * cursor) :=
  do (sign, c, s) <- read_json_number_sign s;
  let '(value, s) := read_json_number_integer c s in
  let c := current_char s in
  do (is_floating, fraction, divisor, s) <- read_json_number_fraction c s;
  do (is_floating, exponent, exponent_sign, s) <-
    read_json_number_exponent c is_floating s;
  Ok (read_json_number_result is_floating sign value fraction divisor
        exponent_sign exponent, s).

(** ** Structural readers

    [read_value], [read_json_array] and [read_json_object] call one another;
    [fuel] bounds the number of calls and loop iterations.  The two loops
    carry the list or map built so far. *)
Fixpoint read_value (fuel : nat) (s : cursor) {struct fuel}
  : result (FlValue * cursor) :=
  match fuel with
  | O => OutOfFuel
  | S fuel' =>
      let s := read_whitespace s in
      let c := current_char s in
      do (value, s) <-
        (if Byte.eqb c "{" then read_json_object_loop fuel' [] (next_char s)
         else if Byte.eqb c "[" then read_json_array_loop fuel' [] (next_char s)
         else if Byte.eqb c x22 then read_json_string s
         else if Byte.eqb c "-" || (0 <=? json_digit_to_int c) then read_json_number s
         else if Byte.eqb c "t" then read_json_true s
         else if Byte.eqb c "f" then read_json_false s
         else if Byte.eqb c "n" then read_json_null s
         else if Byte.eqb c x00 then Err FL_MESSAGE_CODEC_ERROR_OUT_OF_DATA
         else Err FL_MESSAGE_CODEC_ERROR_FAILED);
      Ok (value, read_whitespace s)
  end
with read_json_array_loop (fuel : nat) (value : list FlValue) (s : cursor)
  {struct fuel} : result (FlValue * cursor) :=
  match fuel with
  | O => OutOfFuel
  | S fuel' =>
      let s := read_whitespace s in
      let c := current_char s in
      if Byte.eqb c x00 then Err FL_MESSAGE_CODEC_ERROR_OUT_OF_DATA
      else if Byte.eqb c "]" then Ok (FlList value, next_char s)
      else
        do s <-
          (if negb (Nat.eqb (length value) 0)
           then do s <- read_comma s; Ok (read_whitespace s)
           else Ok s);
        do (child, s) <- read_value fuel' s;
        read_json_array_loop fuel' (fl_value_append value child) s
  end
with read_json_object_loop (fuel : nat) (map : list (FlValue * FlValue)) (s : cursor)
  {struct fuel} : result (FlValue * cursor) :=
  match fuel with
  | O => OutOfFuel
  | S fuel' =>
      let s := read_whitespace s in
      let c := current_char s in
      if Byte.eqb c x00 then Err FL_MESSAGE_CODEC_ERROR_OUT_OF_DATA
      else if Byte.eqb c "}" then Ok (FlMap map, next_char s)
      else
        do s <-
          (if negb (Nat.eqb (length map) 0)
           then do s <- read_comma s; Ok (read_whitespace s)
           else Ok s);
        let c := current_char s in
        if negb (Byte.eqb c x22) then Err FL_JSON_MESSAGE_CODEC_ERROR_INVALID_OBJECT_KEY_TYPE
        else
          do (key, s) <- read_json_string s;
          let s := read_whitespace s in
          let c := current_char s in
          if negb (Byte.eqb c ":") then Err FL_MESSAGE_CODEC_ERROR_FAILED
          else
            let s := next_char s in
            do (value, s) <- read_value fuel' s;
            read_json_object_loop fuel' (fl_value_set map key value) s
  end.

(** [read_json_array] and [read_json_object], called with the cursor on the
    opening bracket. *)
Definition read_json_array (fuel : nat) (s : cursor) : result (FlValue * cursor) :=
  read_json_array_loop fuel [] (next_char s).

Definition read_json_object (fuel : nat) (s : cursor) : result (FlValue * cursor) :=
  read_json_object_loop fuel [] (next_char s).

(** Iterations that are enough for a message: every call and every loop
    iteration but the first of a message has a byte of its own. *)
Definition decode_fuel (message : list byte) : nat := 2 * length message + 2.

(** FlMessageCodec:decode_message.  The offset differs from the size of the
    message exactly when unread bytes are left, and their number is what the
    error reports. *)
Definition fl_json_message_codec_decode_message (message : list byte)
  : result FlValue :=
  do (value, rest) <- read_value (decode_fuel message) message;
  if negb (Nat.eqb (length rest) 0)
  then Err (FL_MESSAGE_CODEC_ERROR_ADDITIONAL_DATA (length rest))
  else Ok value.

(** [fl_json_message_codec_encode]: the encoding as a NUL-terminated string. *)
Definition fl_json_message_codec_encode (value : option FlValue) : result (list byte) :=
  do buffer <- write_value_nullable [] value;
  Ok (buffer ++ [x00]).

(** [fl_json_message_codec_decode]: the message is the text up to its NUL. *)
Definition fl_json_message_codec_decode (text : list byte) : result FlValue :=
  fl_json_message_codec_decode_message (c_str text).

End Codec.

(** ** Reference platforms

    [g_ascii_dtostr] formats with "%.17g" in the C locale; [pow] is only ever
    called by the codec with base ten and an integral exponent.  The two
    models below serve to run the codec on concrete messages. *)

(** The decimal digit character of [d mod 10]. *)
Definition digit_byte (d : Z) : byte := byte_of_Z (48 + d mod 10).

(** The [n] low decimal digits of [z], most significant first. *)
Fixpoint decimal_digits (n : nat) (z : Z) {struct n} : list byte :=
  match n with
  | O => []
  | S n' => decimal_digits n' (z / 10) ++ [digit_byte z]
  end.

(** The number of decimal digits of a positive [z], for at most [fuel]. *)
Fixpoint decimal_length (fuel : nat) (z : Z) {struct fuel} : nat :=
  match fuel with
  | O => O
  | S fuel' => if z <? 10 then 1%nat else S (decimal_length fuel' (z / 10))
  end.

Fixpoint strip_trailing_zeros (rev_digits : list byte) {struct rev_digits} : list byte :=
  match rev_digits with
  | [] => []
  | c :: rest => if Byte.eqb c "0" then strip_trailing_zeros rest else rev_digits
  end.

(** Digits without their trailing zeros. *)
Definition strip_zeros (digits : list byte) : list byte :=
  rev (strip_trailing_zeros (rev digits)).

(** Rounding of the fraction [n / d] to the nearest integer, ties to even. *)
Definition round_half_even (n d : Z) : Z :=
  let q := n / d in
  let r := n mod d in
  if (d <? 2 * r) || ((d =? 2 * r) && Z.odd q) then q + 1 else q.

(** [m * 2 ^ e] scaled by [10 ^ (16 - x)] and rounded. *)
Definition scaled17 (m e x : Z) : Z :=
  let num := if 0 <=? e then m * 2 ^ e else m in
  let den := if 0 <=? e then 1 else 2 ^ (- e) in
  if 0 <=? 16 - x then round_half_even (num * 10 ^ (16 - x)) den
  else round_half_even num (den * 10 ^ (x - 16)).

(** The decimal exponent at which [m * 2 ^ e] has seventeen rounded digits:
    the search starts below and moves up. *)
Fixpoint decimal_exponent (fuel : nat) (m e x : Z) {struct fuel} : Z :=
  match fuel with
  | O => x
  | S fuel' =>
      if 10 ^ 17 <=? scaled17 m e x then decimal_exponent fuel' m e (x + 1) else x
  end.

(** An integer part and the digits of a fraction, with the decimal point
    between them if there is a fraction. *)
Definition with_fraction (int_part frac : list byte) : list byte :=
  match frac with
  | [] => int_part
  | _ :: _ => int_part ++ ["."%byte] ++ frac
  end.

(** "%.17g" of the positive number [m * 2 ^ e]. *)
Definition format_17g (m e : Z) : list byte :=
  let x0 := (Z.log2 m + e) * 30103 / 100000 - 1 in
  let x := decimal_exponent 3 m e x0 in
  let digits := decimal_digits 17 (scaled17 m e x) in
  if (x <? -4) || (17 <=? x) then
    let ax := Z.abs x in
    with_fraction (firstn 1 digits) (strip_zeros (tl digits))
      ++ ["e"%byte] ++ [if x <? 0 then "-"%byte else "+"%byte]
      ++ decimal_digits (Nat.max 2 (decimal_length 4 ax)) ax
  else if 0 <=? x then
    with_fraction (firstn (Z.to_nat (x + 1)) digits)
      (strip_zeros (skipn (Z.to_nat (x + 1)) digits))
  else
    bytes "0." ++ repeat "0"%byte (Z.to_nat (- x - 1)) ++ strip_zeros digits.

Definition dtostr_17g (d : double) : list byte :=
  match d with
  | S754_zero s => if s then bytes "-0" else bytes "0"
  | S754_infinity s => if s then bytes "-inf" else bytes "inf"
  | S754_nan => bytes "nan"
  | S754_finite s m e =>
      (if s then ["-"%byte] else []) ++ format_17g (Zpos m) e
  end.

(** The integer a double is equal to, if any. *)
Definition double_to_Z (d : double) : option Z :=
  match d with
  | S754_zero _ => Some 0
  | S754_finite s m e =>
      let z :=
        if 0 <=? e then Some (Zpos m * 2 ^ e)
        else if Zpos m mod 2 ^ (- e) =? 0 then Some (Zpos m / 2 ^ (- e))
        else None in
      option_map (fun z => if s then - z else z) z
  | _ => None
  end.

(** Ten to the power [n], rounded to nearest: the result overflows to
    infinity from 309 on and underflows to zero below -343. *)
Definition pow10_rounded (n : Z) : double :=
  if 400 <? n then S754_infinity false
  else if n <? -400 then S754_zero false
  else if 0 <=? n then binary_normalize 53 1024 (10 ^ n) 0 false
  else
    let k := 1500 in
    binary_normalize 53 1024 (2 * (2 ^ k / 10 ^ (- n)) + 1) (- k - 1) false.

Definition pow_base10 (x y : double) : double :=
  match double_to_Z x, double_to_Z y with
  | Some 10, Some n => pow10_rounded n
  | _, _ => S754_nan
  end.

(** x86-64 Linux: plain [char] is signed. *)
Definition linux_x64 : Platform :=
  {| char_is_signed := true; g_ascii_dtostr := dtostr_17g; pow := pow_base10 |}.

(** AArch64 Linux: plain [char] is unsigned. *)
Definition linux_arm64 : Platform :=
  {| char_is_signed := false; g_ascii_dtostr := dtostr_17g; pow := pow_base10 |}.

(** ** Notions used to state the properties *)

(** A run of JSON whitespace. *)
Definition all_whitespace (w : list byte) : bool := forallb is_json_whitespace w.

(** The element loop of the list case of [write_value], from index [i]. *)
Definition write_list_elements (P : Platform)
  : list byte -> nat -> list FlValue -> result (list byte) :=
  fix elements (buffer : list byte) (i : nat) (l : list FlValue) {struct l}
    : result (list byte) :=
    match l with
    | [] => Ok buffer
    | child :: rest =>
        do buffer <- write_value P (write_separator buffer i) child;
        elements buffer (S i) rest
    end.

(** The entry loop of the map case of [write_value], from index [i]. *)
Definition write_map_entries (P : Platform)
  : list byte -> nat -> list (FlValue * FlValue) -> result (list byte) :=
  fix entries (buffer : list byte) (i : nat) (m : list (FlValue * FlValue))
    {struct m} : result (list byte) :=
    match m with
    | [] => Ok buffer
    | (k, v) :: rest =>
        do buffer <- write_value P (write_separator buffer i) k;
        let buffer := write_char buffer ":" in
        do buffer <- write_value P buffer v;
        entries buffer (S i) rest
    end.

(** A value holds a non-finite float: in a float, in a float list, or in an
    element, key or value below it. *)
Fixpoint contains_nonfinite (v : FlValue) {struct v} : bool :=
  match v with
  | FlFloat d => negb (isfinite d)
  | FlFloatList l => existsb (fun d => negb (isfinite d)) l
  | FlList l => existsb contains_nonfinite l
  | FlMap m =>
      existsb (fun kv => let '(k, x) := kv in
                         contains_nonfinite k || contains_nonfinite x) m
  | _ => false
  end.

Definition message_contains_nonfinite (message : option FlValue) : bool :=
  match message with
  | None => false
  | Some v => contains_nonfinite v
  end.

Definition in_int64_range (z : Z) : bool := (G_MININT64 <=? z) && (z <=? G_MAXINT64).
Definition in_int32_range (z : Z) : bool := (- 2 ^ 31 <=? z) && (z <? 2 ^ 31).

(** The integers of a value fit the C types that hold them. *)
Fixpoint integers_fit (v : FlValue) {struct v} : bool :=
  match v with
  | FlInt i => in_int64_range i
  | FlInt32List l => forallb in_int32_range l
  | FlInt64List l => forallb in_int64_range l
  | FlList l => forallb integers_fit l
  | FlMap m =>
      forallb (fun kv => let '(k, x) := kv in integers_fit k && integers_fit x) m
  | _ => true
  end.

Definition message_integers_fit (message : option FlValue) : bool :=
  match message with
  | None => true
  | Some v => integers_fit v
  end.

(** A byte that is not a control character. *)
Definition not_control (b : byte) : bool := 32 <=? byte_val b.

(** The text that [g_ascii_dtostr] produces for finite numbers holds no
    control character. *)
Definition dtostr_is_text (P : Platform) : Prop :=
  forall d, isfinite d = true -> forallb not_control (c_str (g_ascii_dtostr P d)) = true.

(** [r] with [buffer] put in front of what it wrote. *)
Definition prepend (buffer : list byte) (r : result (list byte)) : result (list byte) :=
  do body <- r; Ok (buffer ++ body).

(** The outcome of one run of a writer on a value or on a list of them. *)
Definition fails_iff (r : result (list byte)) (nonfinite : bool) : Prop :=
  match r with
  | Ok _ => nonfinite = false
  | Err e => nonfinite = true /\ e = FL_JSON_MESSAGE_CODEC_ERROR_INVALID_NUMBER
  | OutOfFuel => False
  end.


(** A decimal digit character. *)
Definition is_digit (c : byte) : bool := (48 <=? byte_val c) && (byte_val c <=? 57).

(** The number that a string of decimal digits denotes. *)
Definition decimal_value (digits : list byte) : Z :=
  fold_left (fun a c => a * 10 + (byte_val c - 48)) digits 0.

(** The number of decimal digits of a 64-bit integer that is not negative. *)
Definition decimal_width (z : Z) : nat := decimal_length 19 z.

(** The bytes after an integer literal do not continue it: the end of the
    buffer, or a byte that is no digit, decimal point or exponent marker. *)
Definition integer_stops (r : list byte) : bool :=
  match r with
  | [] => true
  | c :: _ =>
      negb (is_digit c || Byte.eqb c "." || Byte.eqb c "e" || Byte.eqb c "E")
  end.

(** An integer part as the reader takes it: digits, without a leading zero
    unless the zero is alone. *)
Definition is_integer_part (digits : list byte) : bool :=
  forallb is_digit digits
  && match digits with
     | [] => false
     | c :: rest => negb (Byte.eqb c "0") || match rest with [] => true | _ => false end
     end.

(** The text of an integer literal. *)
Definition integer_literal (negative : bool) (digits : list byte) : list byte :=
  (if negative then ["-"%byte] else []) ++ digits.

(** The number that an integer literal denotes. *)
Definition integer_literal_value (negative : bool) (digits : list byte) : Z :=
  (if negative then -1 else 1) * decimal_value digits.

(** A byte of a string that the encoder writes in a way the decoder reads
    back: a character from 0x20 on, one of the five control characters that
    have a short escape, or one of the control characters 0x01 to 0x07. *)
Definition string_byte_round_trips (P : Platform) (c : byte) : bool :=
  (32 <=? char_to_int P c)
  || ((1 <=? byte_val c) && (byte_val c <=? 10))
  || (byte_val c =? 12) || (byte_val c =? 13).

Definition is_string (v : FlValue) : bool :=
  match v with
  | FlString _ => true
  | _ => false
  end.

(** No two entries have keys that [fl_value_equal] holds equal. *)
Fixpoint keys_distinct (m : list (FlValue * FlValue)) {struct m} : bool :=
  match m with
  | [] => true
  | (k, _) :: rest =>
      forallb (fun kv => negb (fl_value_equal k (fst kv))) rest && keys_distinct rest
  end.

(** The values for which decoding the encoding gives the value back: null,
    booleans, integers of 64 bits, strings of bytes that round-trip, lists of
    such values, and maps of such values under distinct string keys. *)
Fixpoint round_trips (P : Platform) (v : FlValue) {struct v} : bool :=
  match v with
  | FlNull => true
  | FlBool _ => true
  | FlInt i => in_int64_range i
  | FlString s => forallb (string_byte_round_trips P) s
  | FlList l => forallb (round_trips P) l
  | FlMap m =>
      forallb (fun kv => let '(k, x) := kv in
                         is_string k && round_trips P k && round_trips P x) m
      && keys_distinct m
  | FlFloat _ | FlUint8List _ | FlInt32List _ | FlInt64List _ | FlFloatList _ => false
  end.

(** The bytes after a value inside a list or a map, or at the end of the
    message: nothing, a comma or a closing bracket. *)
Definition value_stops (r : list byte) : bool :=
  match r with
  | [] => true
  | c :: _ => Byte.eqb c "," || Byte.eqb c "]" || Byte.eqb c "}"
  end.

(** The first byte of the text of a value. *)
Definition value_starts (out : list byte) : bool :=
  match out with
  | [] => false
  | c :: _ =>
      is_digit c || Byte.eqb c "-" || Byte.eqb c x22 || Byte.eqb c "[" || Byte.eqb c "{"
      || Byte.eqb c "n" || Byte.eqb c "t" || Byte.eqb c "f"
  end.

(** What the induction on a value shows of it. *)
Definition reads_back (P : Platform) (v : FlValue) : Prop :=
  round_trips P v = true ->
  forall out rest,
    write_value P [] v = Ok out -> value_stops rest = true ->
    exists fuel, read_value P fuel (out ++ rest) = Ok (v, rest).

(** ** The numeric literals that [read_json_number] takes

    After the sign and the integer part, a literal ends, or goes on with a
    fraction, or goes on with an exponent; it never has both. *)
Inductive number_tail : Type :=
| NoTail
| FractionTail (digits : list byte)
| ExponentTail (marker : byte) (sign : list byte) (digits : list byte).

Record number_literal : Type := {
  literal_negative : bool;
  literal_integer : list byte;
  literal_tail : number_tail
}.

Definition number_tail_text (t : number_tail) : list byte :=
  match t with
  | NoTail => []
  | FractionTail digits => "."%byte :: digits
  | ExponentTail marker sign digits => marker :: sign ++ digits
  end.

Definition number_text (n : number_literal) : list byte :=
  (if literal_negative n then ["-"%byte] else [])
  ++ literal_integer n ++ number_tail_text (literal_tail n).

Definition nonempty_digits (digits : list byte) : bool :=
  match digits with
  | [] => false
  | _ :: _ => forallb is_digit digits
  end.

Definition number_tail_ok (t : number_tail) : bool :=
  match t with
  | NoTail => true
  | FractionTail digits => nonempty_digits digits
  | ExponentTail marker sign digits =>
      (Byte.eqb marker "E" || Byte.eqb marker "e")
      && match sign with
         | [] => true
         | [c] => Byte.eqb c "-" || Byte.eqb c "+"
         | _ => false
         end
      && nonempty_digits digits
  end.

Definition number_literal_ok (n : number_literal) : bool :=
  is_integer_part (literal_integer n) && number_tail_ok (literal_tail n).

(** The byte after a literal lets the reader stop where the literal ends. *)
Definition number_ends (n : number_literal) (r : list byte) : bool :=
  match literal_tail n with
  | NoTail =>
      negb (Byte.eqb (current_char r) "." || Byte.eqb (current_char r) "e"
            || Byte.eqb (current_char r) "E")
      && (negb (is_digit (current_char r))
          || match literal_integer n with
             | [c] => Byte.eqb c "0"
             | _ => false
             end)
  | _ => negb (is_digit (current_char r))
  end.

(** The digits of a run as the reader accumulates them, in 64 bits. *)
Definition digits_accumulated (digits : list byte) : Z :=
  fold_left (fun a c => wrap64 (a * 10 + (byte_val c - 48))) digits 0.

Definition divisor_accumulated (digits : list byte) : Z :=
  fold_left (fun d (_ : byte) => wrap64 (d * 10)) digits 1.

(** The value of a literal: [sign * value] for an integer, and
    [sign * (value + fraction / divisor) * pow (10, exponent_sign * exponent)]
    in floating point otherwise. *)
Definition number_value (P : Platform) (n : number_literal) : FlValue :=
  let sign := if literal_negative n then -1 else 1 in
  let value := digits_accumulated (literal_integer n) in
  match literal_tail n with
  | NoTail => read_json_number_result P false sign value 0 1 1 0
  | FractionTail digits =>
      read_json_number_result P true sign value
        (digits_accumulated digits) (divisor_accumulated digits) 1 0
  | ExponentTail _ s digits =>
      read_json_number_result P true sign value 0 1
        (match s with
         | [c] => if Byte.eqb c "-" then -1 else 1
         | _ => 1
         end)
        (digits_accumulated digits)
  end.

(** A byte that can occur in a numeric literal. *)
Definition is_number_char (c : byte) : bool :=
  is_digit c || Byte.eqb c "-" || Byte.eqb c "+" || Byte.eqb c "."
  || Byte.eqb c "e" || Byte.eqb c "E".

(** ** Tokens and the whitespace between them

    A message is laid out as tokens, each with the whitespace that precedes
    it; the bytes of the message are those of the layout in order. *)
Definition layout : Type := list (list byte * list byte).

Definition render (ts : layout) : list byte :=
  flat_map (fun wt => fst wt ++ snd wt) ts.

Definition tokens (ts : layout) : list (list byte) := map snd ts.

(** What precedes each token is whitespace. *)
Definition spaced (ts : layout) : bool :=
  forallb (fun wt => all_whitespace (fst wt)) ts.

Definition bytes_eqb (a b : list byte) : bool :=
  if list_eq_dec Byte.byte_eq_dec a b then true else false.

Definition is_punctuation (t : list byte) : bool :=
  match t with
  | [c] =>
      Byte.eqb c "[" || Byte.eqb c "]" || Byte.eqb c "{" || Byte.eqb c "}"
      || Byte.eqb c "," || Byte.eqb c ":"
  | _ => false
  end.

Definition is_word (t : list byte) : bool :=
  bytes_eqb t (bytes "true") || bytes_eqb t (bytes "false") || bytes_eqb t (bytes "null").

Definition is_number_token (t : list byte) : bool :=
  match t with
  | [] => false
  | _ :: _ => forallb is_number_char t
  end.

(** A string literal: from its opening quote the string reader reads all of
    it and nothing is left. *)
Definition is_string_token (P : Platform) (t : list byte) : bool :=
  Byte.eqb (current_char t) x22
  && match read_json_string P t with
     | Ok (_, []) => true
     | _ => false
     end.

Definition is_token (P : Platform) (t : list byte) : bool :=
  is_punctuation t || is_word t || is_number_token t || is_string_token P t.

(** The first token is a comma or a closing bracket. *)
Definition first_token_stops (ts : layout) : bool :=
  match ts with
  | (_, t) :: _ => match t with [] => false | _ :: _ => value_stops t end
  | [] => false
  end.

(** Whatever whitespace is put before the tokens of [ts] and after them, a
    reader that ends at a delimiter reads the same value. *)
Definition value_rereads (P : Platform) (ts : layout) (v : FlValue) : Prop :=
  forall ts' w' r',
    tokens ts' = tokens ts -> spaced ts' = true ->
    all_whitespace w' = true -> value_stops r' = true ->
    exists fuel, read_value P fuel (render ts' ++ w' ++ r') = Ok (v, r').

Definition array_rereads (P : Platform) (acc : list FlValue) (ts : layout)
  (v : FlValue) : Prop :=
  forall ts' r',
    tokens ts' = tokens ts -> spaced ts' = true ->
    exists fuel, read_json_array_loop P fuel acc (render ts' ++ r') = Ok (v, r').

Definition object_rereads (P : Platform) (acc : list (FlValue * FlValue))
  (ts : layout) (v : FlValue) : Prop :=
  forall ts' r',
    tokens ts' = tokens ts -> spaced ts' = true ->
    exists fuel, read_json_object_loop P fuel acc (render ts' ++ r') = Ok (v, r').

(** What stands before an element of a list or an entry of a map, given the
    elements read so far: nothing before the first, whitespace and a comma
    before the others. *)
Definition separated {A : Type} (acc : list A) (pre : list byte) : Prop :=
  (acc = [] /\ pre = [])
  \/ (acc <> [] /\ exists w, all_whitespace w = true /\ pre = w ++ [","%byte]).

(** ** Bytes of string literals and of unicode escapes *)

(** A byte that the string reader copies as it is: no quote, no backslash,
    and a character from 0x20 on. *)
Definition plain_string_byte (P : Platform) (c : byte) : bool :=
  negb (Byte.eqb c x22) && negb (Byte.eqb c x5c) && (32 <=? char_to_int P c).

(** A hexadecimal digit, in either case, and its value. *)
Definition is_xdigit (c : byte) : bool :=
  is_digit c
  || ((97 <=? byte_val c) && (byte_val c <=? 102))
  || ((65 <=? byte_val c) && (byte_val c <=? 70)).

Definition xdigit_value (c : byte) : Z :=
  if is_digit c then byte_val c - 48
  else if 97 <=? byte_val c then byte_val c - 87
  else byte_val c - 55.

(** The values that a JSON text can denote: no typed list, and maps under
    string keys. *)
Fixpoint json_shaped (v : FlValue) {struct v} : bool :=
  match v with
  | FlNull | FlBool _ | FlInt _ | FlFloat _ | FlString _ => true
  | FlUint8List _ | FlInt32List _ | FlInt64List _ | FlFloatList _ => false
  | FlList l => forallb json_shaped l
  | FlMap m =>
      forallb (fun kv => let '(k, x) := kv in is_string k && json_shaped x) m
  end.

(** * The view: pointer events ([fl_view.cc])

    The view keeps the buttons it has reported down in [button_state] and
    turns GDK button and motion events into pointer events for the engine. *)

(** [FlutterPointerPhase] of the embedder interface. *)
Inductive FlutterPointerPhase : Type :=
| kCancel | kUp | kDown | kMove | kAdd | kRemove | kHover.




Record GdkEventMotion : Type := {
  motion_time : Z;
  motion_x : double;
  motion_y : double
}.

(** The fields of [FlView] that the pointer handlers use; [engine] tells
    whether the engine pointer is set. *)
Record FlView : Type := {
  engine : bool;
  button_state : Z
}.

(** The arguments of one call of [fl_engine_send_mouse_pointer_event].  The
    phase is [None] when the variable [phase] is passed without having been
    assigned. *)
Record PointerEvent : Type := {
  phase : option FlutterPointerPhase;
  timestamp : Z;
  x : double;
  y : double;
  buttons : Z
}.

Definition kMicrosecondsPerMillisecond : Z := 1000.


(** [event->time * kMicrosecondsPerMillisecond]: [time] is a [guint32] and
    the constant an [int], so the product is taken in [unsigned int]. *)
Definition event_timestamp (time : Z) : Z := wrap32u (time * kMicrosecondsPerMillisecond).




Definition fl_view_motion_notify_event (self : FlView) (event : GdkEventMotion)
  : FlView * option PointerEvent * bool :=
  if negb (engine self) then (self, None, false)
  else
    (self,
     Some {| phase := Some (if negb (button_state self =? 0) then kMove else kHover);
             timestamp := event_timestamp (motion_time event);
             x := motion_x event;
             y := motion_y event;
             buttons := button_state self |},
     true).








(** ** Notions for the text of lists and maps *)

(** The parts with a separator between them. *)
Definition joined (sep : list byte) (parts : list (list byte)) : list byte :=
  match parts with
  | [] => []
  | p :: ps => p ++ flat_map (fun q => sep ++ q) ps
  end.


(** ** Fuel

    [r'] is [r] run with more fuel: the same outcome, unless [r] ran out. *)
Definition refines {A : Type} (r r' : result A) : Prop := r = OutOfFuel \/ r = r'.

(** ** The texts that [read_json_number] refuses

    A minus sign, a decimal point or an exponent marker with its optional
    sign, that no digit follows. *)
Definition number_stem (negative : bool) (digits : list byte) : list byte :=
  (if negative then ["-"%byte] else []) ++ digits.

(** The sign of an exponent before [r]: a minus or a plus sign, or nothing
    when [r] does not start with one. *)
Definition exponent_sign_ok (sign r : list byte) : bool :=
  match sign with
  | [] => negb (Byte.eqb (current_char r) "-" || Byte.eqb (current_char r) "+")
  | [c] => Byte.eqb c "-" || Byte.eqb c "+"
  | _ => false
  end.

Inductive broken_number : list byte -> Prop :=
| broken_sign (r : list byte) :
    is_digit (current_char r) = false ->
    broken_number ("-"%byte :: r)
| broken_fraction (negative : bool) (digits r : list byte) :
    is_integer_part digits = true ->
    is_digit (current_char r) = false ->
    broken_number (number_stem negative digits ++ "."%byte :: r)
| broken_exponent (negative : bool) (digits : list byte) (marker : byte)
    (sign r : list byte) :
    is_integer_part digits = true ->
    Byte.eqb marker "E" || Byte.eqb marker "e" = true ->
    exponent_sign_ok sign r = true ->
    is_digit (current_char r) = false ->
    broken_number (number_stem negative digits ++ marker :: sign ++ r).

(** * Properties *)

(** ** Evaluation on concrete messages *)

(** Case analysis on the signedness of [char], after which a run of the codec
    on a concrete message reduces to its result. *)
Ltac run_codec P :=
  destruct P as [[|] dtostr libm_pow]; vm_compute; reflexivity.

(** C6: the minimum 64-bit integer is written as the literal digit string
    "-9223372036854775808", and the text "9223372036854775807" is read as the
    maximum 64-bit integer. *)
Theorem int64_extremes_exact (P : Platform) :
  fl_json_message_codec_encode_message P (Some (FlInt G_MININT64))
    = Ok (bytes "-9223372036854775808")
  /\ fl_json_message_codec_decode_message P (bytes "9223372036854775807")
    = Ok (FlInt G_MAXINT64).
Proof. split; run_codec P. Qed.

(** C2 (code defect): the control byte 0x10 is written as the escape
    [\u0000], not [\u0010], and the control byte 0x1f as [\u000p], whose last
    character is not a hexadecimal digit: [write_unicode_escape] shifts by
    24, 16, 8 and 0 bits instead of 12, 8, 4 and 0, and [json_int_to_xdigit]
    adds the whole digit to 'a'. *)
Theorem control_byte_escape_is_wrong (P : Platform) :
  fl_json_message_codec_encode_message P (Some (FlString [x10]))
    = Ok ([x22; x5c] ++ bytes "u0000" ++ [x22])
  /\ fl_json_message_codec_encode_message P (Some (FlString [x1f]))
    = Ok ([x22; x5c] ++ bytes "u000p" ++ [x22]).
Proof. split; run_codec P. Qed.

(** C3 (code defect): the literal 1.5e3 is not read as the float 1500.0.
    After the fraction the reader still tests the character it read before
    it, so the exponent is never seen; the value 1.5 is returned with "e3"
    unread and the message is refused for its two unused bytes. *)
Theorem fraction_then_exponent_is_refused (P : Platform) :
  fl_json_message_codec_decode_message P (bytes "1.5e3")
    = Err (FL_MESSAGE_CODEC_ERROR_ADDITIONAL_DATA 2).
Proof. run_codec P. Qed.

(** C8 (code defect): a well-formed literal of large magnitude that has both
    a fraction and an exponent is not decoded at all, for the same reason as
    in C3; what remains unread is reported as additional data. *)
Theorem large_literal_with_fraction_is_refused (P : Platform) :
  fl_json_message_codec_decode_message P (bytes "1.0e999")
    = Err (FL_MESSAGE_CODEC_ERROR_ADDITIONAL_DATA 4).
Proof. run_codec P. Qed.

(** Without a fraction the exponent is read: "1e999" becomes an infinity,
    which the encoder then refuses. *)
Lemma huge_exponent_gives_infinity :
  fl_json_message_codec_decode_message linux_x64 (bytes "1e999")
    = Ok (FlFloat (S754_infinity false))
  /\ fl_json_message_codec_encode_message linux_x64 (Some (FlFloat (S754_infinity false)))
    = Err FL_JSON_MESSAGE_CODEC_ERROR_INVALID_NUMBER.
Proof. split; vm_compute; reflexivity. Qed.

(** The decoding tests of the repository that expect a value. *)
Example decode_tests (P : Platform) :
  fl_json_message_codec_decode_message P (bytes "null") = Ok FlNull
  /\ fl_json_message_codec_decode_message P (bytes "true") = Ok (FlBool true)
  /\ fl_json_message_codec_decode_message P (bytes "12345") = Ok (FlInt 12345)
  /\ fl_json_message_codec_decode_message P (bytes "-9223372036854775808")
     = Ok (FlInt G_MININT64)
  /\ fl_json_message_codec_decode_message P ([x22; x5c] ++ bytes "u0001" ++ [x22])
     = Ok (FlString [x01])
  /\ fl_json_message_codec_decode_message P (bytes "[]") = Ok (FlList [])
  /\ fl_json_message_codec_decode_message P (bytes "{}") = Ok (FlMap []).
Proof. repeat split; run_codec P. Qed.

(** The decoding tests of the repository that expect an error. *)
Example decode_error_tests (P : Platform) :
  fl_json_message_codec_decode_message P (bytes "--1")
    = Err FL_JSON_MESSAGE_CODEC_ERROR_INVALID_NUMBER
  /\ fl_json_message_codec_decode_message P (bytes "+1")
    = Err FL_MESSAGE_CODEC_ERROR_FAILED
  /\ fl_json_message_codec_decode_message P (bytes "0.")
    = Err FL_JSON_MESSAGE_CODEC_ERROR_INVALID_NUMBER
  /\ fl_json_message_codec_decode_message P (bytes "[0,1,2,3 4]")
    = Err FL_JSON_MESSAGE_CODEC_ERROR_MISSING_COMMA
  /\ fl_json_message_codec_decode_message P (bytes "[")
    = Err FL_MESSAGE_CODEC_ERROR_OUT_OF_DATA
  /\ fl_json_message_codec_decode_message P (bytes "]")
    = Err FL_MESSAGE_CODEC_ERROR_FAILED
  /\ fl_json_message_codec_decode_message P (bytes "[0,1,2,3,4]]")
    = Err (FL_MESSAGE_CODEC_ERROR_ADDITIONAL_DATA 1)
  /\ fl_json_message_codec_decode_message P ([x22] ++ bytes "Hello" ++ [x0a] ++ bytes "World" ++ [x22])
    = Err FL_JSON_MESSAGE_CODEC_ERROR_INVALID_STRING_CHARACTER.
Proof. repeat split; run_codec P. Qed.

(** The float tests of the repository, on the reference platform. *)
Example float_tests :
  fl_json_message_codec_encode_message linux_x64
    (Some (FlFloat (S754_finite false 7074237752028440 (-51))))
    = Ok (bytes "3.1415926535897931")
  /\ fl_json_message_codec_decode_message linux_x64 (bytes "3.1415926535897931")
    = Ok (FlFloat (S754_finite false 7074237752028440 (-51)))
  /\ fl_json_message_codec_encode_message linux_x64 (Some (FlFloat (S754_zero true)))
    = Ok (bytes "-0.0")
  /\ fl_json_message_codec_encode_message linux_x64
    (Some (FlFloatList [S754_zero false; double_of_int64 1]))
    = Ok (bytes "[0.0,1.0]").
Proof. repeat split; vm_compute; reflexivity. Qed.

(** ** Bytes *)

Lemma byte_val_range (c : byte) : 0 <= byte_val c < 256.
Proof.
  unfold byte_val. pose proof (Byte.to_N_bounded c) as H.
  lia.
Qed.

Lemma byte_of_Z_byte_val (c : byte) : byte_of_Z (byte_val c) = c.
Proof. destruct c; reflexivity. Qed.

Lemma byte_val_byte_of_Z (z : Z) : 0 <= z < 256 -> byte_val (byte_of_Z z) = z.
Proof.
  intros H. unfold byte_of_Z, byte_val.
  rewrite Z.mod_small by lia.
  destruct (Byte.of_N (Z.to_N z)) as [b|] eqn:E.
  - apply Byte.to_of_N in E. rewrite E. lia.
  - apply Byte.of_N_None_iff in E. lia.
Qed.

Lemma byte_eqb_eq (a b : byte) : Byte.eqb a b = true <-> a = b.
Proof. split; [apply Byte.byte_dec_bl | apply Byte.byte_dec_lb]. Qed.

Lemma byte_eqb_neq (a b : byte) : Byte.eqb a b = false <-> a <> b.
Proof.
  split; [apply Byte.eqb_false|].
  intros H. destruct (Byte.eqb a b) eqn:E; [|reflexivity].
  apply byte_eqb_eq in E. contradiction.
Qed.

Lemma byte_eqb_refl (a : byte) : Byte.eqb a a = true.
Proof. apply byte_eqb_eq. reflexivity. Qed.

(** ** Fuel

    A run that ends, with a value or with an error, ends in the same way
    with more fuel. *)

Lemma refines_refl {A : Type} (r : result A) : refines r r.
Proof. right. reflexivity. Qed.

Lemma refines_bind {A B : Type} (r r' : result A) (k k' : A -> result B) :
  refines r r' -> (forall a, refines (k a) (k' a)) -> refines (bind r k) (bind r' k').
Proof.
  intros [->| ->] Hk.
  - left. reflexivity.
  - destruct r' as [a| |]; simpl; auto using refines_refl.
Qed.

Lemma refines_ok {A : Type} (r r' : result A) (a : A) :
  refines r r' -> r = Ok a -> r' = Ok a.
Proof. intros [->| ->] H; congruence. Qed.

Lemma refines_done {A : Type} (r r' : result A) :
  refines r r' -> r <> OutOfFuel -> r' = r.
Proof. intros [->| ->] H; congruence. Qed.

Ltac refines_step :=
  first
    [ apply refines_refl
    | apply refines_bind; [| intros; repeat match goal with p : (_ * _)%type |- _ => destruct p end ]
    | match goal with
      | |- refines (if ?b then _ else _) (if ?b then _ else _) => destruct b
      | |- refines (let '(_, _) := ?p in _) _ => destruct p
      end ].

Lemma read_json_string_loop_mono (P : Platform) (fuel : nat) :
  forall fuel' text s, (fuel <= fuel')%nat ->
    refines (read_json_string_loop P fuel text s) (read_json_string_loop P fuel' text s).
Proof.
  induction fuel as [|fuel IH]; intros fuel' text s Hle.
  - left. reflexivity.
  - destruct fuel' as [|fuel']; [lia|]. simpl.
    repeat refines_step. all: apply IH; lia.
Qed.

Lemma read_fuel_mono (P : Platform) (fuel : nat) :
  (forall fuel' s, (fuel <= fuel')%nat ->
     refines (read_value P fuel s) (read_value P fuel' s))
  /\ (forall fuel' value s, (fuel <= fuel')%nat ->
     refines (read_json_array_loop P fuel value s) (read_json_array_loop P fuel' value s))
  /\ (forall fuel' map s, (fuel <= fuel')%nat ->
     refines (read_json_object_loop P fuel map s) (read_json_object_loop P fuel' map s)).
Proof.
  induction fuel as [|fuel (IHv & IHa & IHo)].
  - repeat split; intros; left; reflexivity.
  - repeat split.
    + intros [|fuel'] s Hle; [lia|]. simpl.
      repeat refines_step. all: try (apply IHo; lia); try (apply IHa; lia).
    + intros [|fuel'] value s Hle; [lia|]. simpl.
      repeat refines_step. all: try (apply IHv; lia); try (apply IHa; lia).
    + intros [|fuel'] map s Hle; [lia|]. simpl.
      repeat refines_step. all: try (apply IHv; lia); try (apply IHo; lia).
Qed.

Lemma read_value_mono (P : Platform) (fuel fuel' : nat) (s : cursor) :
  (fuel <= fuel')%nat -> refines (read_value P fuel s) (read_value P fuel' s).
Proof. intros; apply read_fuel_mono; assumption. Qed.

Lemma read_json_array_loop_mono (P : Platform) (fuel fuel' : nat) value (s : cursor) :
  (fuel <= fuel')%nat ->
  refines (read_json_array_loop P fuel value s) (read_json_array_loop P fuel' value s).
Proof. intros; apply read_fuel_mono; assumption. Qed.

Lemma read_json_object_loop_mono (P : Platform) (fuel fuel' : nat) map (s : cursor) :
  (fuel <= fuel')%nat ->
  refines (read_json_object_loop P fuel map s) (read_json_object_loop P fuel' map s).
Proof. intros; apply read_fuel_mono; assumption. Qed.

(** ** Cursor movement *)

Ltac break_if :=
  match goal with
  | |- context [if ?b then _ else _] => destruct b eqn:?
  | H : context [if ?b then _ else _] |- _ => destruct b eqn:?
  end.

Lemma next_char_length (s : cursor) : (length (next_char s) <= length s)%nat.
Proof. destruct s; simpl; lia. Qed.

Lemma next_char_shorter (s : cursor) :
  current_char s <> x00 -> (length (next_char s) < length s)%nat.
Proof. destruct s; simpl; [congruence | lia]. Qed.

Lemma current_char_cons (s : cursor) :
  current_char s <> x00 -> s = current_char s :: next_char s.
Proof. destruct s; simpl; congruence. Qed.

Lemma read_whitespace_length (s : cursor) :
  (length (read_whitespace s) <= length s)%nat.
Proof.
  induction s as [|c s IH]; simpl; [lia|].
  destruct (is_json_whitespace c); simpl; lia.
Qed.

Lemma read_whitespace_app (w s : list byte) :
  all_whitespace w = true -> read_whitespace (w ++ s) = read_whitespace s.
Proof.
  induction w as [|c w IH]; simpl; intros H; [reflexivity|].
  apply andb_true_iff in H as [Hc Hw]. rewrite Hc. auto.
Qed.

Lemma read_whitespace_split (s : cursor) :
  exists w, s = w ++ read_whitespace s /\ all_whitespace w = true.
Proof.
  induction s as [|c s (w & E & Hw)]; simpl.
  - exists []. split; reflexivity.
  - destruct (is_json_whitespace c) eqn:Hc.
    + exists (c :: w). simpl. rewrite Hc, Hw. split; [congruence | reflexivity].
    + exists []. split; reflexivity.
Qed.

Lemma read_whitespace_stop (s : cursor) :
  is_json_whitespace (current_char s) = false -> read_whitespace s = s.
Proof. destruct s as [|c s]; simpl; intros H; [reflexivity | rewrite H; reflexivity]. Qed.

Lemma read_whitespace_head (s : cursor) :
  is_json_whitespace (current_char (read_whitespace s)) = false.
Proof.
  induction s as [|c s IH]; simpl; [reflexivity|].
  destruct (is_json_whitespace c) eqn:Hc; simpl; assumption.
Qed.

Lemma read_whitespace_idem (s : cursor) :
  read_whitespace (read_whitespace s) = read_whitespace s.
Proof. apply read_whitespace_stop, read_whitespace_head. Qed.

(** ** Every reader moves the cursor forward *)

Lemma read_word_length (s : cursor) (word : list byte) (r : cursor) :
  read_word s word = Ok r -> (length r <= length s)%nat.
Proof.
  revert s. induction word as [|w word IH]; simpl; intros s H.
  - injection H as <-. lia.
  - break_if; [discriminate|]. apply IH in H. pose proof (next_char_length s). lia.
Qed.

Lemma read_word_shorter (s : cursor) (w : byte) (word : list byte) (r : cursor) :
  w <> x00 -> read_word s (w :: word) = Ok r -> (length r < length s)%nat.
Proof.
  simpl. intros Hw H. break_if; [discriminate|].
  apply negb_false_iff, byte_eqb_eq in Heqb.
  apply read_word_length in H.
  assert (Hc : current_char s <> x00) by congruence.
  pose proof (next_char_shorter s Hc). lia.
Qed.

Lemma read_json_unichar_code_loop_length (P : Platform) (n : nat) :
  forall wc s wc' r, read_json_unichar_code_loop P n wc s = Ok (wc', r) ->
    (length r <= length s)%nat.
Proof.
  induction n as [|n IH]; simpl; intros wc s wc' r H.
  - injection H as <- <-. lia.
  - break_if; [discriminate|]. apply IH in H. pose proof (next_char_length s). lia.
Qed.

Lemma read_json_string_escape_length (P : Platform) (s : cursor) wc r :
  read_json_string_escape P s = Ok (wc, r) -> (length r <= length s)%nat.
Proof.
  unfold read_json_string_escape, read_json_unichar_code. intros H.
  pose proof (next_char_length s).
  break_if.
  - apply read_json_unichar_code_loop_length in H. lia.
  - repeat break_if; simpl in H; try discriminate; injection H as <- <-; lia.
Qed.

Lemma read_json_unichar_code_loop_total (P : Platform) (n : nat) :
  forall wc s, read_json_unichar_code_loop P n wc s <> OutOfFuel.
Proof.
  induction n as [|n IH]; simpl; intros wc s; [discriminate|].
  break_if; [discriminate | apply IH].
Qed.

Lemma read_json_string_escape_total (P : Platform) (s : cursor) :
  read_json_string_escape P s <> OutOfFuel.
Proof.
  unfold read_json_string_escape, read_json_unichar_code.
  break_if; [apply read_json_unichar_code_loop_total|].
  repeat break_if; simpl; discriminate.
Qed.

Lemma read_json_string_loop_shorter (P : Platform) (fuel : nat) :
  forall text s v r, read_json_string_loop P fuel text s = Ok (v, r) ->
    (length r < length s)%nat.
Proof.
  induction fuel as [|fuel IH]; simpl; intros text s v r H; [discriminate|].
  break_if.
  - injection H as <- <-. apply next_char_shorter.
    apply byte_eqb_eq in Heqb. rewrite Heqb. discriminate.
  - break_if.
    + destruct (read_json_string_escape P (next_char s)) as [[wc s']| |] eqn:E;
        simpl in H; try discriminate.
      apply read_json_string_escape_length in E. apply IH in H.
      pose proof (next_char_length s). lia.
    + break_if; [discriminate|]. break_if; [discriminate|].
      apply IH in H. pose proof (next_char_length s). lia.
Qed.

Lemma read_json_string_loop_enough (P : Platform) (fuel : nat) :
  forall text s, (length s < fuel)%nat -> read_json_string_loop P fuel text s <> OutOfFuel.
Proof.
  induction fuel as [|fuel IH]; simpl; intros text s Hlen; [lia|].
  break_if; [discriminate|].
  break_if.
  - destruct (read_json_string_escape P (next_char s)) as [[wc s']| |] eqn:E;
      simpl; try discriminate.
    + apply read_json_string_escape_length in E.
      apply IH. apply byte_eqb_eq in Heqb0.
      assert (Hc : current_char s <> x00) by (rewrite Heqb0; discriminate).
      pose proof (next_char_shorter s Hc). lia.
    + exfalso. revert E. apply read_json_string_escape_total.
  - break_if; [discriminate|]. break_if; [discriminate|].
    apply IH. apply byte_eqb_neq in Heqb1.
    pose proof (next_char_shorter s Heqb1). lia.
Qed.

Lemma read_json_string_shorter (P : Platform) (s : cursor) v r :
  read_json_string P s = Ok (v, r) -> (length r < length s)%nat.
Proof.
  unfold read_json_string. intros H. apply read_json_string_loop_shorter in H.
  pose proof (next_char_length s). lia.
Qed.

Lemma read_json_string_total (P : Platform) (s : cursor) :
  read_json_string P s <> OutOfFuel.
Proof.
  unfold read_json_string. apply read_json_string_loop_enough.
  pose proof (next_char_length s). lia.
Qed.

Lemma json_digit_to_int_nul (P : Platform) : json_digit_to_int P x00 = -1.
Proof. destruct P as [[|] ? ?]; reflexivity. Qed.

Lemma read_json_digits_loop_length (P : Platform) (s : cursor) :
  forall value divisor,
    (length (snd (read_json_digits_loop P value divisor s)) <= length s)%nat.
Proof.
  induction s as [|c s IH]; simpl; intros value divisor; [lia|].
  break_if; simpl; [lia|]. specialize (IH (wrap64 (value * 10 + json_digit_to_int P c))
                                         (wrap64 (divisor * 10))). lia.
Qed.

Lemma read_json_digits_length (P : Platform) (s : cursor) v d r :
  read_json_digits P s = (v, d, r) -> (length r <= length s)%nat.
Proof.
  unfold read_json_digits. intros H.
  pose proof (read_json_digits_loop_length P s 0 1) as L. rewrite H in L. exact L.
Qed.

Lemma read_json_digits_shorter (P : Platform) (s : cursor) v d r :
  (json_digit_to_int P (current_char s) <? 0) = false ->
  read_json_digits P s = (v, d, r) -> (length r < length s)%nat.
Proof.
  unfold read_json_digits. destruct s as [|c s]; simpl.
  - rewrite json_digit_to_int_nul. discriminate.
  - intros -> H.
    pose proof (read_json_digits_loop_length P s (wrap64 (0 * 10 + json_digit_to_int P c))
                  (wrap64 (1 * 10))) as L.
    simpl in L, H. rewrite H in L. simpl in L. lia.
Qed.

Lemma read_json_number_sign_length (P : Platform) (s : cursor) sign c r :
  read_json_number_sign P s = Ok (sign, c, r) ->
  c = current_char r /\ (length r <= length s)%nat
  /\ (Byte.eqb (current_char s) "-" = false -> r = s).
Proof.
  unfold read_json_number_sign. intros H. pose proof (next_char_length s).
  repeat break_if; try discriminate; injection H as <- <- <-; repeat split;
    try lia; congruence.
Qed.

Lemma read_json_number_integer_length (P : Platform) (c : byte) (s : cursor) v r :
  read_json_number_integer P c s = (v, r) -> (length r <= length s)%nat.
Proof.
  unfold read_json_number_integer. intros H. pose proof (next_char_length s).
  break_if.
  - injection H as <- <-. lia.
  - destruct (read_json_digits P s) as [[? ?] ?] eqn:E. injection H as <- <-.
    eapply read_json_digits_length; eassumption.
Qed.

Lemma read_json_number_fraction_length (P : Platform) (c : byte) (s : cursor) b f d r :
  read_json_number_fraction P c s = Ok (b, f, d, r) -> (length r <= length s)%nat.
Proof.
  unfold read_json_number_fraction. intros H. pose proof (next_char_length s).
  repeat break_if; try discriminate.
  - destruct (read_json_digits P (next_char s)) as [[? ?] ?] eqn:E.
    injection H as <- <- <- <-. apply read_json_digits_length in E. lia.
  - injection H as <- <- <- <-. lia.
Qed.

Lemma read_json_number_exponent_length (P : Platform) (c : byte) fl (s : cursor) b e g r :
  read_json_number_exponent P c fl s = Ok (b, e, g, r) -> (length r <= length s)%nat.
Proof.
  unfold read_json_number_exponent. intros H.
  pose proof (next_char_length s). pose proof (next_char_length (next_char s)).
  destruct (Byte.eqb c "E" || Byte.eqb c "e"); [| injection H as <- <- <- <-; lia].
  match type of H with
  | context [let '(_, _) := ?p in _] => destruct p as [es s'] eqn:Ep
  end.
  assert (length s' <= length (next_char s))%nat.
  { repeat break_if; injection Ep as <- <-; lia. }
  break_if; [discriminate|].
  destruct (read_json_digits P s') as [[? ?] ?] eqn:E.
  injection H as <- <- <- <-. apply read_json_digits_length in E. lia.
Qed.

(** The number reader has no loop of its own that could run out. *)
Lemma read_json_number_total (P : Platform) (s : cursor) :
  read_json_number P s <> OutOfFuel.
Proof.
  unfold read_json_number, read_json_number_sign, read_json_number_integer,
    read_json_number_fraction, read_json_number_exponent.
  repeat first
    [ break_if
    | match goal with
      | |- context [read_json_digits P ?x] =>
          destruct (read_json_digits P x) as [[? ?] ?] eqn:?
      end
    | progress simpl ]; discriminate.
Qed.

Lemma read_json_number_shorter (P : Platform) (s : cursor) v r :
  (Byte.eqb (current_char s) "-" || (0 <=? json_digit_to_int P (current_char s))) = true ->
  read_json_number P s = Ok (v, r) -> (length r < length s)%nat.
Proof.
  unfold read_json_number. intros Hd H.
  assert (Hs : current_char s <> x00).
  { intros E. rewrite E, json_digit_to_int_nul in Hd. discriminate. }
  pose proof (next_char_shorter s Hs) as L0.
  destruct (read_json_number_sign P s) as [[[sign c] s1]| |] eqn:E1; try discriminate.
  simpl in H.
  destruct (read_json_number_integer P c s1) as [value s2] eqn:E2.
  destruct (read_json_number_fraction P (current_char s2) s2)
    as [[[[fl fr] dv] s3]| |] eqn:E3; try discriminate.
  simpl in H.
  destruct (read_json_number_exponent P (current_char s2) fl s3)
    as [[[[fl' ex] es] s4]| |] eqn:E4; try discriminate.
  simpl in H. injection H as <- <-.
  apply read_json_number_fraction_length in E3.
  apply read_json_number_exponent_length in E4.
  assert (length s2 < length s)%nat; [|lia].
  pose proof (read_json_number_integer_length _ _ _ _ _ E2) as L2.
  unfold read_json_number_sign in E1.
  destruct (Byte.eqb (current_char s) "-") eqn:Hm.
  - break_if; try discriminate. injection E1 as <- <- <-. lia.
  - injection E1 as <- <- <-. simpl in Hd.
    unfold read_json_number_integer in E2. break_if.
    + injection E2 as <- <-. exact L0.
    + destruct (read_json_digits P s) as [[? ?] ?] eqn:E. injection E2 as <- <-.
      eapply read_json_digits_shorter; [|eassumption].
      apply Z.ltb_ge. apply Z.leb_le in Hd. exact Hd.
Qed.

Lemma read_comma_shorter (s r : cursor) :
  read_comma s = Ok r -> (length r < length s)%nat.
Proof.
  unfold read_comma. intros H. break_if; [discriminate|]. injection H as <-.
  apply next_char_shorter. apply negb_false_iff, byte_eqb_eq in Heqb.
  rewrite Heqb. discriminate.
Qed.

Lemma read_literal_shorter (s : cursor) (v : FlValue) (w : byte) (word : list byte) x r :
  w <> x00 ->
  (do s' <- read_word s (w :: word); Ok (v, s')) = Ok (x, r) ->
  (length r < length s)%nat.
Proof.
  intros Hw H. destruct (read_word s (w :: word)) eqn:E; try discriminate.
  simpl in H. injection H as <- <-. eapply read_word_shorter; eassumption.
Qed.

Lemma head_shorter (s : cursor) (c : byte) :
  Byte.eqb (current_char s) c = true -> c <> x00 ->
  (length (next_char s) < length s)%nat.
Proof.
  intros H Hc. apply next_char_shorter. apply byte_eqb_eq in H. congruence.
Qed.

(** A value that has been read took at least one byte. *)
Lemma read_shorter (P : Platform) (fuel : nat) :
  (forall s v r, read_value P fuel s = Ok (v, r) -> (length r < length s)%nat)
  /\ (forall value s v r, read_json_array_loop P fuel value s = Ok (v, r) ->
        (length r < length s)%nat)
  /\ (forall map s v r, read_json_object_loop P fuel map s = Ok (v, r) ->
        (length r < length s)%nat).
Proof.
  induction fuel as [|fuel (IHv & IHa & IHo)].
  - repeat split; intros; discriminate.
  - repeat split.
    + intros s v r. simpl.
      pose proof (read_whitespace_length s) as L0.
      set (s1 := read_whitespace s) in *.
      match goal with
      | |- bind ?b _ = _ -> _ => destruct b as [[v' s2]| |] eqn:E; try discriminate
      end.
      simpl. intros H. injection H as <- <-.
      pose proof (read_whitespace_length s2) as L2.
      assert (length s2 < length s1)%nat; [|lia].
      repeat break_if; try discriminate.
      * apply IHo in E. pose proof (next_char_length s1). lia.
      * apply IHa in E. pose proof (next_char_length s1). lia.
      * eapply read_json_string_shorter; eassumption.
      * eapply read_json_number_shorter; eassumption.
      * eapply read_literal_shorter; [|exact E]. discriminate.
      * eapply read_literal_shorter; [|exact E]. discriminate.
      * eapply read_literal_shorter; [|exact E]. discriminate.
    + intros value s v r. simpl.
      pose proof (read_whitespace_length s) as L0.
      set (s1 := read_whitespace s) in *.
      break_if; [discriminate|]. break_if.
      * intros H. injection H as <- <-.
        pose proof (head_shorter s1 "]" Heqb0). assert ("]"%byte <> x00) by discriminate.
        intuition lia.
      * match goal with
        | |- bind ?b _ = _ -> _ => destruct b as [s2| |] eqn:E; try discriminate
        end.
        simpl. destruct (read_value P fuel s2) as [[child s3]| |] eqn:Ec; try discriminate.
        simpl. intros H. apply IHa in H. apply IHv in Ec.
        assert (length s2 <= length s1)%nat; [|lia].
        break_if.
        -- destruct (read_comma s1) as [s1'| |] eqn:E1; try discriminate.
           simpl in E. injection E as <-. apply read_comma_shorter in E1.
           pose proof (read_whitespace_length s1'). lia.
        -- injection E as <-. lia.
    + intros map s v r. simpl.
      pose proof (read_whitespace_length s) as L0.
      set (s1 := read_whitespace s) in *.
      break_if; [discriminate|]. break_if.
      * intros H. injection H as <- <-.
        pose proof (head_shorter s1 "}" Heqb0). assert ("}"%byte <> x00) by discriminate.
        intuition lia.
      * match goal with
        | |- bind ?b _ = _ -> _ => destruct b as [s2| |] eqn:E; try discriminate
        end.
        simpl. break_if; [discriminate|].
        destruct (read_json_string P s2) as [[key s3]| |] eqn:Ek; try discriminate.
        simpl. break_if; [discriminate|].
        destruct (read_value P fuel (next_char (read_whitespace s3)))
          as [[child s4]| |] eqn:Ec; try discriminate.
        simpl. intros H. apply IHo in H. apply IHv in Ec.
        apply read_json_string_shorter in Ek.
        pose proof (read_whitespace_length s3).
        pose proof (next_char_length (read_whitespace s3)).
        assert (length s2 <= length s1)%nat; [|lia].
        break_if.
        -- destruct (read_comma s1) as [s1'| |] eqn:E1; try discriminate.
           simpl in E. injection E as <-. apply read_comma_shorter in E1.
           pose proof (read_whitespace_length s1'). lia.
        -- injection E as <-. lia.
Qed.

Lemma read_value_shorter (P : Platform) (fuel : nat) (s : cursor) v r :
  read_value P fuel s = Ok (v, r) -> (length r < length s)%nat.
Proof. apply read_shorter. Qed.

Lemma read_word_total (s : cursor) (word : list byte) : read_word s word <> OutOfFuel.
Proof.
  revert s. induction word as [|w word IH]; simpl; intros s; [discriminate|].
  break_if; [discriminate | apply IH].
Qed.

Lemma read_separator_length (value_length : nat) (s s2 : cursor) :
  (if negb (Nat.eqb value_length 0)
   then do s' <- read_comma s; Ok (read_whitespace s')
   else Ok s) = Ok s2 ->
  (length s2 <= length s)%nat.
Proof.
  break_if; intros E.
  - destruct (read_comma s) as [s'| |] eqn:E1; try discriminate.
    simpl in E. injection E as <-. apply read_comma_shorter in E1.
    pose proof (read_whitespace_length s'). lia.
  - injection E as <-. lia.
Qed.

(** Twice the length of the unread bytes, and one or two more, is fuel
    enough. *)
Lemma read_enough_fuel (P : Platform) (fuel : nat) :
  (forall s, (2 * length s + 1 <= fuel)%nat -> read_value P fuel s <> OutOfFuel)
  /\ (forall value s, (2 * length s + 2 <= fuel)%nat ->
        read_json_array_loop P fuel value s <> OutOfFuel)
  /\ (forall map s, (2 * length s + 2 <= fuel)%nat ->
        read_json_object_loop P fuel map s <> OutOfFuel).
Proof.
  induction fuel as [|fuel (IHv & IHa & IHo)].
  - repeat split; intros; lia.
  - repeat split.
    + intros s Hf. simpl.
      pose proof (read_whitespace_length s) as L0.
      set (s1 := read_whitespace s) in *.
      match goal with
      | |- bind ?b _ <> _ => assert (Hb : b <> OutOfFuel)
      end.
      { repeat break_if; try discriminate.
        - apply IHo. assert ("{"%byte <> x00) by discriminate.
          pose proof (head_shorter s1 "{" Heqb). intuition lia.
        - apply IHa. assert ("["%byte <> x00) by discriminate.
          pose proof (head_shorter s1 "[" Heqb0). intuition lia.
        - apply read_json_string_total.
        - apply read_json_number_total.
        - unfold read_json_true. pose proof (read_word_total s1 (bytes "true")).
          destruct (read_word s1 (bytes "true")); simpl; congruence.
        - unfold read_json_false. pose proof (read_word_total s1 (bytes "false")).
          destruct (read_word s1 (bytes "false")); simpl; congruence.
        - unfold read_json_null. pose proof (read_word_total s1 (bytes "null")).
          destruct (read_word s1 (bytes "null")); simpl; congruence. }
      match goal with
      | |- bind ?b _ <> _ => destruct b as [[? ?]| |]; simpl; congruence
      end.
    + intros value s Hf. simpl.
      pose proof (read_whitespace_length s) as L0.
      set (s1 := read_whitespace s) in *.
      break_if; [discriminate|]. break_if; [discriminate|].
      match goal with
      | |- bind ?b _ <> _ => destruct b as [s2| |] eqn:E
      end; simpl; try discriminate.
      * apply read_separator_length in E.
        specialize (IHv s2).
        destruct (read_value P fuel s2) as [[child s3]| |] eqn:Ec; simpl;
          try discriminate; [|apply IHv; lia].
        apply read_value_shorter in Ec. apply IHa. lia.
      * revert E. break_if; [|discriminate].
        unfold read_comma. break_if; simpl; discriminate.
    + intros map s Hf. simpl.
      pose proof (read_whitespace_length s) as L0.
      set (s1 := read_whitespace s) in *.
      break_if; [discriminate|]. break_if; [discriminate|].
      match goal with
      | |- bind ?b _ <> _ => destruct b as [s2| |] eqn:E
      end; simpl; try discriminate.
      * apply read_separator_length in E.
        break_if; [discriminate|].
        pose proof (read_json_string_total P s2) as Hk.
        destruct (read_json_string P s2) as [[key s3]| |] eqn:Ek; simpl;
          try discriminate; [|congruence].
        break_if; [discriminate|].
        apply read_json_string_shorter in Ek.
        pose proof (read_whitespace_length s3).
        pose proof (next_char_length (read_whitespace s3)).
        specialize (IHv (next_char (read_whitespace s3))).
        destruct (read_value P fuel (next_char (read_whitespace s3)))
          as [[child s4]| |] eqn:Ec; simpl; try discriminate; [|apply IHv; lia].
        apply read_value_shorter in Ec. apply IHo. lia.
      * revert E. break_if; [|discriminate].
        unfold read_comma. break_if; simpl; discriminate.
Qed.

(** The decoder is total: on every message it returns a value or an error. *)
Lemma decode_message_total (P : Platform) (message : list byte) :
  fl_json_message_codec_decode_message P message <> OutOfFuel.
Proof.
  unfold fl_json_message_codec_decode_message.
  pose proof (proj1 (read_enough_fuel P (decode_fuel message)) message) as H.
  destruct (read_value P (decode_fuel message) message) as [[v r]| |]; simpl.
  - break_if; discriminate.
  - discriminate.
  - exfalso. apply H; [unfold decode_fuel; lia | reflexivity].
Qed.

(** The outcome of [read_value] does not depend on the fuel it is given, as
    long as that is enough for the run to end. *)
Lemma read_value_at_decode_fuel (P : Platform) (fuel : nat) (s : cursor) x :
  read_value P fuel s = Ok x -> read_value P (decode_fuel s) s = Ok x.
Proof.
  intros H.
  pose proof (proj1 (read_enough_fuel P (decode_fuel s)) s) as Hne.
  assert (Hd : read_value P (decode_fuel s) s <> OutOfFuel)
    by (apply Hne; unfold decode_fuel; lia).
  pose proof (read_value_mono P fuel (Nat.max fuel (decode_fuel s)) s
                ltac:(lia)) as M1.
  pose proof (read_value_mono P (decode_fuel s) (Nat.max fuel (decode_fuel s)) s
                ltac:(lia)) as M2.
  apply (refines_ok _ _ _ M1) in H.
  apply refines_done in M2; [|assumption]. congruence.
Qed.

(** C5: when [read_value] reads a value and leaves bytes unread, the message
    is refused with the additional-data error, which reports the number of
    unread bytes; the texts "01" and "00" are refused in this way, one byte
    being left after the leading zero. *)
Theorem unread_bytes_are_additional_data (P : Platform) (message : list byte)
  (fuel : nat) (value : FlValue) (rest : cursor) :
  read_value P fuel message = Ok (value, rest) ->
  rest <> [] ->
  fl_json_message_codec_decode_message P message
    = Err (FL_MESSAGE_CODEC_ERROR_ADDITIONAL_DATA (length rest))
  /\ fl_json_message_codec_decode_message P (bytes "01")
    = Err (FL_MESSAGE_CODEC_ERROR_ADDITIONAL_DATA 1)
  /\ fl_json_message_codec_decode_message P (bytes "00")
    = Err (FL_MESSAGE_CODEC_ERROR_ADDITIONAL_DATA 1).
Proof.
  intros H Hrest. split; [|split; run_codec P].
  unfold fl_json_message_codec_decode_message.
  rewrite (read_value_at_decode_fuel P fuel message _ H). simpl.
  destruct rest; [contradiction | reflexivity].
Qed.

Lemma unread_bytes_are_additional_data_witness :
  fl_json_message_codec_decode_message linux_x64 (bytes "[0,1,2,3,4]] ")
    = Err (FL_MESSAGE_CODEC_ERROR_ADDITIONAL_DATA 2).
Proof.
  refine (proj1 (unread_bytes_are_additional_data linux_x64 (bytes "[0,1,2,3,4]] ")
                   30 (FlList [FlInt 0; FlInt 1; FlInt 2; FlInt 3; FlInt 4])
                   (bytes "] ") _ _)).
  - vm_compute. reflexivity.
  - discriminate.
Defined.

(** ** Induction on values *)

Lemma FlValue_induction (Q : FlValue -> Prop) :
  Q FlNull ->
  (forall b, Q (FlBool b)) ->
  (forall i, Q (FlInt i)) ->
  (forall d, Q (FlFloat d)) ->
  (forall s, Q (FlString s)) ->
  (forall l, Q (FlUint8List l)) ->
  (forall l, Q (FlInt32List l)) ->
  (forall l, Q (FlInt64List l)) ->
  (forall l, Q (FlFloatList l)) ->
  (forall l, Forall Q l -> Q (FlList l)) ->
  (forall m, Forall (fun kv => Q (fst kv) /\ Q (snd kv)) m -> Q (FlMap m)) ->
  forall v, Q v.
Proof.
  intros Hnull Hbool Hint Hfloat Hstring Hu8 Hi32 Hi64 Hfl Hlist Hmap.
  fix IH 1. intros [ |b|i|d|s|l|l|l|l|l|m].
  - apply Hnull.
  - apply Hbool.
  - apply Hint.
  - apply Hfloat.
  - apply Hstring.
  - apply Hu8.
  - apply Hi32.
  - apply Hi64.
  - apply Hfl.
  - apply Hlist. induction l as [|v l IHl]; constructor; [apply IH | exact IHl].
  - apply Hmap. induction m as [|[k v] m IHm]; constructor;
      [split; apply IH | exact IHm].
Qed.

(** ** The encoder appends to its buffer *)

Lemma write_value_list (P : Platform) (buffer : list byte) (l : list FlValue) :
  write_value P buffer (FlList l)
  = (do b <- write_list_elements P (write_char buffer "[") 0 l; Ok (write_char b "]")).
Proof. reflexivity. Qed.

Lemma write_value_map (P : Platform) (buffer : list byte) (m : list (FlValue * FlValue)) :
  write_value P buffer (FlMap m)
  = (do b <- write_map_entries P (write_char buffer "{") 0 m; Ok (write_char b "}")).
Proof. reflexivity. Qed.

Lemma write_int_digits_app (fuel : nat) :
  forall buffer value divisor,
    write_int_digits fuel buffer value divisor
    = buffer ++ write_int_digits fuel [] value divisor.
Proof.
  induction fuel as [|fuel IH]; simpl; intros buffer value divisor.
  - rewrite app_nil_r. reflexivity.
  - unfold write_char. break_if; [reflexivity|].
    rewrite IH. rewrite (IH ([] ++ _)). rewrite <- app_assoc. reflexivity.
Qed.

Lemma write_int_app (buffer : list byte) (value : Z) :
  write_int buffer value = buffer ++ write_int [] value.
Proof.
  unfold write_int, write_string, write_char.
  destruct (value =? G_MININT64); [reflexivity|].
  rewrite write_int_digits_app. destruct (value <? 0).
  - rewrite (write_int_digits_app _ ([] ++ _)). rewrite <- app_assoc. reflexivity.
  - reflexivity.
Qed.

Lemma write_separator_app (buffer : list byte) (i : nat) :
  write_separator buffer i = buffer ++ write_separator [] i.
Proof. unfold write_separator, write_char. break_if; [reflexivity | rewrite app_nil_r; reflexivity]. Qed.

Lemma write_int_elements_app (values : list Z) :
  forall buffer i,
    write_int_elements buffer i values = buffer ++ write_int_elements [] i values.
Proof.
  induction values as [|v values IH]; simpl; intros buffer i.
  - rewrite app_nil_r. reflexivity.
  - rewrite IH. rewrite (IH (write_int _ _)).
    rewrite write_int_app, write_separator_app.
    rewrite (write_int_app (write_separator [] i)).
    rewrite <- !app_assoc. reflexivity.
Qed.

Lemma write_string_char_app (P : Platform) (buffer : list byte) (c : byte) :
  write_string_char P buffer c = buffer ++ write_string_char P [] c.
Proof.
  unfold write_string_char.
  repeat match goal with
    | |- context [if Byte.eqb c ?x then _ else _] => destruct (Byte.eqb c x)
    end;
    try destruct (char_to_int P c <? 32);
    unfold write_unicode_escape, write_string, write_char;
    rewrite <- ?app_assoc; reflexivity.
Qed.

Lemma write_string_chars_app (P : Platform) (string : list byte) :
  forall buffer,
    write_string_chars P buffer string = buffer ++ write_string_chars P [] string.
Proof.
  induction string as [|c string IH]; simpl; intros buffer.
  - rewrite app_nil_r. reflexivity.
  - break_if; [rewrite app_nil_r; reflexivity|].
    rewrite IH. rewrite (IH (write_string_char P [] c)).
    rewrite write_string_char_app. rewrite <- app_assoc. reflexivity.
Qed.

Lemma write_double_app (P : Platform) (buffer : list byte) (value : double) :
  write_double P buffer value = prepend buffer (write_double P [] value).
Proof.
  unfold write_double, write_string, prepend.
  repeat break_if; simpl; rewrite <- ?app_assoc; reflexivity.
Qed.

Lemma prepend_bind (buffer : list byte) (r : result (list byte))
  (k : list byte -> result (list byte)) :
  (forall b, k (buffer ++ b) = prepend buffer (k b)) ->
  (do b <- prepend buffer r; k b) = prepend buffer (do b <- r; k b).
Proof. intros Hk. destruct r; simpl; auto. Qed.

Lemma write_double_elements_app (P : Platform) (values : list double) :
  forall buffer i,
    write_double_elements P buffer i values
    = prepend buffer (write_double_elements P [] i values).
Proof.
  induction values as [|v values IH]; simpl; intros buffer i.
  - unfold prepend. simpl. rewrite app_nil_r. reflexivity.
  - rewrite write_separator_app, write_double_app.
    rewrite (write_double_app P (write_separator [] i)).
    unfold prepend at 1 2.
    destruct (write_double P [] v) as [body| |]; simpl; try reflexivity.
    rewrite IH. rewrite (IH (write_separator [] i ++ body)).
    unfold prepend. destruct (write_double_elements P [] (S i) values); simpl;
      rewrite <- ?app_assoc; reflexivity.
Qed.

Lemma write_value_app (P : Platform) (value : FlValue) :
  forall buffer, write_value P buffer value = prepend buffer (write_value P [] value).
Proof.
  induction value as [ |b|i|d|s|l|l|l|l|l IH|m IH] using FlValue_induction; intros buffer.
  - reflexivity.
  - destruct b; reflexivity.
  - simpl. rewrite write_int_app. reflexivity.
  - simpl. apply write_double_app.
  - simpl. unfold write_char. rewrite write_string_chars_app.
    rewrite (write_string_chars_app P s ([] ++ _)).
    rewrite <- !app_assoc. reflexivity.
  - simpl. unfold write_char. rewrite write_int_elements_app.
    rewrite (write_int_elements_app _ ([] ++ _)). rewrite <- !app_assoc. reflexivity.
  - simpl. unfold write_char. rewrite write_int_elements_app.
    rewrite (write_int_elements_app _ ([] ++ _)). rewrite <- !app_assoc. reflexivity.
  - simpl. unfold write_char. rewrite write_int_elements_app.
    rewrite (write_int_elements_app _ ([] ++ _)). rewrite <- !app_assoc. reflexivity.
  - simpl. unfold write_char. rewrite write_double_elements_app.
    rewrite (write_double_elements_app P l ([] ++ _)).
    unfold prepend. destruct (write_double_elements P [] 0 l); simpl;
      rewrite <- ?app_assoc; reflexivity.
  - rewrite !write_value_list.
    assert (E : forall i buffer,
               write_list_elements P buffer i l
               = prepend buffer (write_list_elements P [] i l)).
    { induction IH as [|v l Hv Hl IHl]; simpl; intros i buf.
      - unfold prepend. simpl. rewrite app_nil_r. reflexivity.
      - rewrite Hv. rewrite (Hv (write_separator [] i)).
        rewrite (write_separator_app buf).
        unfold prepend at 1 2.
        destruct (write_value P [] v) as [body| |]; simpl; try reflexivity.
        rewrite IHl. rewrite (IHl _ (write_separator [] i ++ body)).
        unfold prepend. destruct (write_list_elements P [] (S i) l); simpl;
          rewrite <- ?app_assoc; reflexivity. }
    unfold write_char. rewrite E. rewrite (E _ ([] ++ _)).
    unfold prepend. destruct (write_list_elements P [] 0 l); simpl;
      rewrite <- ?app_assoc; reflexivity.
  - rewrite !write_value_map.
    assert (E : forall i buffer,
               write_map_entries P buffer i m
               = prepend buffer (write_map_entries P [] i m)).
    { induction IH as [|[k v] m [Hk Hv] Hm IHm]; simpl in *; intros i buf.
      - unfold prepend. simpl. rewrite app_nil_r. reflexivity.
      - rewrite Hk. rewrite (Hk (write_separator [] i)).
        rewrite (write_separator_app buf).
        unfold prepend at 1 2.
        destruct (write_value P [] k) as [kb| |]; simpl; try reflexivity.
        rewrite Hv. rewrite (Hv (write_char _ _)).
        unfold prepend at 1 2.
        destruct (write_value P [] v) as [vb| |]; simpl; try reflexivity.
        rewrite IHm. rewrite (IHm _ (write_char _ _ ++ vb)).
        unfold prepend, write_char.
        destruct (write_map_entries P [] (S i) m); simpl;
          rewrite <- ?app_assoc; reflexivity. }
    unfold write_char. rewrite E. rewrite (E _ ([] ++ _)).
    unfold prepend. destruct (write_map_entries P [] 0 m); simpl;
      rewrite <- ?app_assoc; reflexivity.
Qed.

(** ** Encoding fails on non-finite floats only *)

Lemma write_double_fails_iff (P : Platform) (buffer : list byte) (d : double) :
  fails_iff (write_double P buffer d) (negb (isfinite d)).
Proof.
  unfold write_double. destruct (isfinite d); simpl; [|auto].
  break_if; reflexivity.
Qed.

Lemma fails_iff_bind (r : result (list byte)) (k : list byte -> result (list byte))
  (a b : bool) :
  fails_iff r a -> (forall x, fails_iff (k x) b) -> fails_iff (bind r k) (a || b).
Proof.
  destruct r as [x|e|]; simpl.
  - intros -> H. apply H.
  - intros [-> ->] _. auto.
  - auto.
Qed.

Lemma write_double_elements_fails_iff (P : Platform) (l : list double) :
  forall buffer i,
    fails_iff (write_double_elements P buffer i l)
              (existsb (fun d => negb (isfinite d)) l).
Proof.
  induction l as [|d l IH]; simpl; intros buffer i; [reflexivity|].
  apply fails_iff_bind; [apply write_double_fails_iff | intros; apply IH].
Qed.

Lemma write_value_fails_iff (P : Platform) (v : FlValue) :
  forall buffer, fails_iff (write_value P buffer v) (contains_nonfinite v).
Proof.
  induction v as [ |b|i|d|s|l|l|l|l|l IH|m IH] using FlValue_induction; intros buffer;
    try reflexivity.
  - destruct b; reflexivity.
  - apply write_double_fails_iff.
  - simpl. rewrite <- (orb_false_r (existsb _ l)).
    apply fails_iff_bind; [apply write_double_elements_fails_iff | reflexivity].
  - rewrite write_value_list.
    change (contains_nonfinite (FlList l)) with (existsb contains_nonfinite l).
    rewrite <- (orb_false_r (existsb _ l)).
    apply fails_iff_bind; [|reflexivity].
    generalize (write_char buffer "[") 0%nat.
    induction IH as [|v l Hv Hl IHl]; simpl; intros buf i; [reflexivity|].
    apply fails_iff_bind; [apply Hv | intros; apply IHl].
  - rewrite write_value_map.
    change (contains_nonfinite (FlMap m))
      with (existsb (fun kv => let '(k, x) := kv in
                               contains_nonfinite k || contains_nonfinite x) m).
    rewrite <- (orb_false_r (existsb _ m)).
    apply fails_iff_bind; [|reflexivity].
    generalize (write_char buffer "{") 0%nat.
    induction IH as [|[k v] m [Hk Hv] Hm IHm]; simpl in *; intros buf i; [reflexivity|].
    rewrite <- orb_assoc.
    apply fails_iff_bind; [apply Hk|]. intros x.
    apply fails_iff_bind; [apply Hv | intros; apply IHm].
Qed.

(** C4: encoding returns an error exactly when the message holds a
    non-finite float, in a float or in a float list, at any depth, and the
    error is then the invalid-number error; otherwise it returns the
    encoding. *)
Theorem encode_fails_iff_nonfinite (P : Platform) (message : option FlValue) :
  match fl_json_message_codec_encode_message P message with
  | Ok _ => message_contains_nonfinite message = false
  | Err e =>
      message_contains_nonfinite message = true
      /\ e = FL_JSON_MESSAGE_CODEC_ERROR_INVALID_NUMBER
  | OutOfFuel => False
  end.
Proof.
  destruct message as [v|]; [|reflexivity].
  exact (write_value_fails_iff P v []).
Qed.

(** ** Decimal digits *)

Lemma json_digit_to_int_spec (P : Platform) (c : byte) :
  json_digit_to_int P c = if is_digit c then byte_val c - 48 else -1.
Proof.
  unfold json_digit_to_int, char_to_int, is_digit.
  pose proof (byte_val_range c).
  destruct (char_is_signed P); simpl;
    destruct (Z.leb_spec 128 (byte_val c));
    repeat match goal with
      | |- context [?a <=? ?b] => destruct (Z.leb_spec a b); simpl
      end; try lia; reflexivity.
Qed.

Lemma json_digit_to_int_digit (P : Platform) (c : byte) :
  is_digit c = true -> (json_digit_to_int P c <? 0) = false.
Proof.
  intros H. rewrite json_digit_to_int_spec, H. unfold is_digit in H.
  apply Z.ltb_ge. lia.
Qed.

Lemma json_digit_to_int_other (P : Platform) (c : byte) :
  is_digit c = false -> (json_digit_to_int P c <? 0) = true.
Proof. intros H. rewrite json_digit_to_int_spec, H. reflexivity. Qed.

Lemma wrap64_small (z : Z) : G_MININT64 <= z <= G_MAXINT64 -> wrap64 z = z.
Proof.
  unfold wrap64, G_MININT64, G_MAXINT64. intros H.
  rewrite Z.mod_small; lia.
Qed.

Lemma wrap64_range (z : Z) : G_MININT64 <= wrap64 z <= G_MAXINT64.
Proof.
  unfold wrap64, G_MININT64, G_MAXINT64.
  pose proof (Z.mod_pos_bound (z + 2 ^ 63) (2 ^ 64) ltac:(lia)). lia.
Qed.

Lemma wrap64_congr (a b : Z) : (a - b) mod 2 ^ 64 = 0 -> wrap64 a = wrap64 b.
Proof.
  unfold wrap64. intros H. f_equal.
  apply Z.mod_divide in H; [|lia]. destruct H as [q Hq].
  replace (a + 2 ^ 63) with (b + 2 ^ 63 + q * 2 ^ 64) by lia.
  apply Z.mod_add. lia.
Qed.

Lemma wrap64_diff (a : Z) : (wrap64 a - a) mod 2 ^ 64 = 0.
Proof.
  unfold wrap64.
  pose proof (Z.div_mod (a + 2 ^ 63) (2 ^ 64) ltac:(lia)) as E.
  replace ((a + 2 ^ 63) mod 2 ^ 64 - 2 ^ 63 - a)
    with (- ((a + 2 ^ 63) / 2 ^ 64) * 2 ^ 64) by lia.
  apply Z.mod_mul. lia.
Qed.

Lemma wrap64_idem (a : Z) : wrap64 (wrap64 a) = wrap64 a.
Proof. apply wrap64_congr, wrap64_diff. Qed.

(** Wrapping an intermediate result does not change the wrapped outcome of
    a multiplication followed by an addition. *)
Lemma wrap64_step (a m c : Z) : wrap64 (wrap64 a * m + c) = wrap64 (a * m + c).
Proof.
  apply wrap64_congr.
  pose proof (wrap64_diff a) as H. apply Z.mod_divide in H; [|lia].
  destruct H as [q Hq].
  replace (wrap64 a * m + c - (a * m + c)) with (q * m * 2 ^ 64) by lia.
  apply Z.mod_mul. lia.
Qed.

Lemma wrap64_mul_l (a m : Z) : wrap64 (wrap64 a * m) = wrap64 (a * m).
Proof. pose proof (wrap64_step a m 0) as H. rewrite !Z.add_0_r in H. exact H. Qed.

Lemma wrap64_mul_r (m a : Z) : wrap64 (m * wrap64 a) = wrap64 (m * a).
Proof. rewrite (Z.mul_comm m), (Z.mul_comm m). apply wrap64_mul_l. Qed.

(** The digit loop of the reader on a run of digits that ends at [r]. *)
Lemma read_json_digits_loop_run (P : Platform) (digits : list byte) :
  forall value divisor r,
    forallb is_digit digits = true ->
    is_digit (current_char r) = false ->
    read_json_digits_loop P value divisor (digits ++ r)
    = (fold_left (fun a c => wrap64 (a * 10 + (byte_val c - 48))) digits value,
       fold_left (fun d _ => wrap64 (d * 10)) digits divisor, r).
Proof.
  induction digits as [|c digits IH]; simpl; intros value divisor r Hd Hr.
  - destruct r as [|c r]; [reflexivity|]. simpl in *.
    rewrite (json_digit_to_int_other P c Hr). reflexivity.
  - apply andb_true_iff in Hd as [Hc Hd].
    rewrite (json_digit_to_int_digit P c Hc).
    rewrite IH by assumption.
    rewrite json_digit_to_int_spec, Hc. reflexivity.
Qed.

Lemma fold_wrap64_decimal (digits : list byte) :
  forall a,
    wrap64 (fold_left (fun a c => wrap64 (a * 10 + (byte_val c - 48))) digits a)
    = wrap64 (fold_left (fun a c => a * 10 + (byte_val c - 48)) digits a).
Proof.
  induction digits as [|c digits IH]; simpl; intros a; [reflexivity|].
  rewrite IH.
  assert (G : forall l x y, wrap64 x = wrap64 y ->
            wrap64 (fold_left (fun a c => a * 10 + (byte_val c - 48)) l x)
            = wrap64 (fold_left (fun a c => a * 10 + (byte_val c - 48)) l y)).
  { clear. induction l as [|c l IHl]; simpl; intros x y E; [exact E|].
    apply IHl. rewrite <- (wrap64_step x), <- (wrap64_step y), E. reflexivity. }
  apply G. apply wrap64_idem.
Qed.

(** Read from zero, a run of digits gives its value reduced to 64 bits. *)
Lemma read_json_digits_value (P : Platform) (digits r : list byte) :
  forallb is_digit digits = true ->
  is_digit (current_char r) = false ->
  exists divisor,
    read_json_digits P (digits ++ r) = (wrap64 (decimal_value digits), divisor, r).
Proof.
  intros Hd Hr. unfold read_json_digits.
  rewrite read_json_digits_loop_run by assumption.
  eexists. f_equal. f_equal.
  unfold decimal_value. rewrite <- fold_wrap64_decimal.
  destruct digits as [|c digits _] using rev_ind; [reflexivity|].
  rewrite fold_left_app. simpl. rewrite wrap64_idem. reflexivity.
Qed.

(** ** Integer literals *)

Lemma is_digit_cases (c : byte) :
  is_digit c = true ->
  is_json_whitespace c = false /\ Byte.eqb c "{" = false /\ Byte.eqb c "[" = false
  /\ Byte.eqb c x22 = false /\ Byte.eqb c "-" = false /\ Byte.eqb c "." = false
  /\ Byte.eqb c "e" = false /\ Byte.eqb c "E" = false /\ c <> x00.
Proof. destruct c; vm_compute; intros H; try discriminate H; repeat split; discriminate. Qed.

Lemma integer_stops_head (r : list byte) :
  integer_stops r = true ->
  is_digit (current_char r) = false /\ Byte.eqb (current_char r) "." = false
  /\ Byte.eqb (current_char r) "e" = false /\ Byte.eqb (current_char r) "E" = false.
Proof.
  destruct r as [|c r]; simpl; [repeat split; reflexivity|].
  rewrite negb_true_iff, !orb_false_iff. tauto.
Qed.

(** The number reader on an integer literal that ends at [r]. *)
Lemma read_json_number_integer_literal (P : Platform) (negative : bool)
  (digits r : list byte) :
  is_integer_part digits = true ->
  integer_stops r = true ->
  read_json_number P (integer_literal negative digits ++ r)
  = Ok (FlInt (wrap64 (integer_literal_value negative digits)), r).
Proof.
  unfold is_integer_part, integer_literal, integer_literal_value.
  intros Hint Hr. apply andb_true_iff in Hint as [Hd Hz].
  destruct digits as [|c digits]; [discriminate|].
  pose proof Hd as Hd'. simpl in Hd'. apply andb_true_iff in Hd' as [Hc _].
  destruct (is_digit_cases c Hc) as (_ & _ & _ & _ & Hminus & _).
  apply integer_stops_head in Hr as (Hr1 & Hr2 & Hr3 & Hr4).
  assert (Esign : read_json_number_sign P
                    (((if negative then ["-"%byte] else []) ++ c :: digits) ++ r)
                  = Ok ((if negative then -1 else 1), c, c :: digits ++ r)).
  { unfold read_json_number_sign. destruct negative; simpl.
    - rewrite (json_digit_to_int_digit P c Hc). reflexivity.
    - rewrite Hminus. reflexivity. }
  assert (Eint : read_json_number_integer P c (c :: digits ++ r)
                 = (wrap64 (decimal_value (c :: digits)), r)).
  { unfold read_json_number_integer. destruct (Byte.eqb c "0") eqn:E0.
    - apply byte_eqb_eq in E0. subst c. simpl in Hz.
      destruct digits; [reflexivity | discriminate].
    - destruct (read_json_digits_value P (c :: digits) r Hd Hr1) as [dv E].
      simpl app in E. rewrite E. reflexivity. }
  unfold read_json_number. rewrite Esign. simpl bind. rewrite Eint.
  unfold read_json_number_fraction, read_json_number_exponent.
  rewrite Hr2, Hr3, Hr4. simpl.
  unfold read_json_number_result. rewrite wrap64_mul_r. reflexivity.
Qed.

(** [read_value] on a buffer that starts with a minus sign or a digit. *)
Lemma read_value_number (P : Platform) (fuel : nat) (s : cursor) :
  Byte.eqb (current_char s) "-" = true \/ is_digit (current_char s) = true ->
  read_value P (S fuel) s
  = (do (v, r) <- read_json_number P s; Ok (v, read_whitespace r)).
Proof.
  intros H. simpl.
  assert (Hc : is_json_whitespace (current_char s) = false
               /\ Byte.eqb (current_char s) "{" = false
               /\ Byte.eqb (current_char s) "[" = false
               /\ Byte.eqb (current_char s) x22 = false
               /\ (Byte.eqb (current_char s) "-"
                   || (0 <=? json_digit_to_int P (current_char s))) = true).
  { destruct H as [H|H].
    - apply byte_eqb_eq in H. rewrite H. repeat split; reflexivity.
    - destruct (is_digit_cases _ H) as (? & ? & ? & ? & ? & _).
      repeat split; try assumption.
      rewrite json_digit_to_int_spec, H. unfold is_digit in H.
      apply orb_true_iff. right. apply Z.leb_le. lia. }
  destruct Hc as (Hws & H1 & H2 & H3 & H4).
  rewrite (read_whitespace_stop s Hws), H1, H2, H3, H4. reflexivity.
Qed.

(** C9: an integer literal, of whatever length, is decoded without an error
    to its value reduced modulo 2^64 and taken as a signed 64-bit integer;
    the digits are accumulated by [value * 10 + digit] in 64 bits and nothing
    checks for overflow. *)
Theorem integer_literal_wraps (P : Platform) (negative : bool) (digits : list byte) :
  is_integer_part digits = true ->
  fl_json_message_codec_decode_message P (integer_literal negative digits)
  = Ok (FlInt (wrap64 (integer_literal_value negative digits))).
Proof.
  intros Hd.
  pose proof (read_json_number_integer_literal P negative digits [] Hd eq_refl) as E.
  rewrite app_nil_r in E.
  unfold fl_json_message_codec_decode_message, decode_fuel.
  replace (2 * length (integer_literal negative digits) + 2)%nat
    with (S (2 * length (integer_literal negative digits) + 1)) by lia.
  rewrite read_value_number.
  - rewrite E. reflexivity.
  - unfold integer_literal. destruct negative; [left; reflexivity|right].
    unfold is_integer_part in Hd. destruct digits; [discriminate|].
    simpl in *. apply andb_true_iff in Hd as [Hd _].
    apply andb_true_iff in Hd as [Hd _]. exact Hd.
Qed.

Lemma integer_literal_wraps_witness :
  fl_json_message_codec_decode_message linux_x64 (bytes "18446744073709551617")
    = Ok (FlInt 1)
  /\ fl_json_message_codec_decode_message linux_x64 (bytes "-9223372036854775808")
    = Ok (FlInt (- 9223372036854775808))
  /\ fl_json_message_codec_decode_message linux_x64 (bytes "9223372036854775808")
    = Ok (FlInt (- 9223372036854775808)).
Proof.
  split; [|split].
  - exact (integer_literal_wraps linux_x64 false (bytes "18446744073709551617") eq_refl).
  - exact (integer_literal_wraps linux_x64 true (bytes "9223372036854775808") eq_refl).
  - exact (integer_literal_wraps linux_x64 false (bytes "9223372036854775808") eq_refl).
Defined.

(** ** The text that [write_int] writes *)

Lemma digit_byte_is_digit (z : Z) : is_digit (digit_byte z) = true.
Proof.
  unfold is_digit, digit_byte.
  pose proof (Z.mod_pos_bound z 10 ltac:(lia)).
  rewrite byte_val_byte_of_Z by lia. lia.
Qed.

Lemma digit_byte_val (z : Z) : byte_val (digit_byte z) - 48 = z mod 10.
Proof.
  unfold digit_byte. pose proof (Z.mod_pos_bound z 10 ltac:(lia)).
  rewrite byte_val_byte_of_Z by lia. lia.
Qed.

Lemma decimal_digits_are_digits (n : nat) :
  forall z, forallb is_digit (decimal_digits n z) = true.
Proof.
  induction n as [|n IH]; simpl; intros z; [reflexivity|].
  rewrite forallb_app, IH. simpl. rewrite digit_byte_is_digit. reflexivity.
Qed.

Lemma decimal_digits_length (n : nat) : forall z, length (decimal_digits n z) = n.
Proof.
  induction n as [|n IH]; simpl; intros z; [reflexivity|].
  rewrite length_app, IH. simpl. lia.
Qed.

Lemma decimal_digits_head (n : nat) :
  forall z, 0 <= z ->
    decimal_digits (S n) z = digit_byte (z / 10 ^ Z.of_nat n) :: decimal_digits n z.
Proof.
  induction n as [|n IH]; intros z Hz.
  - simpl. rewrite Z.div_1_r. reflexivity.
  - change (decimal_digits (S (S n)) z)
      with (decimal_digits (S n) (z / 10) ++ [digit_byte z]).
    rewrite IH by (apply Z.div_pos; lia).
    rewrite Z.div_div by lia.
    replace (10 * 10 ^ Z.of_nat n) with (10 ^ Z.of_nat (S n))
      by (rewrite Nat2Z.inj_succ, Z.pow_succ_r; lia).
    reflexivity.
Qed.

Lemma decimal_digits_mod (n : nat) :
  forall z, 0 <= z -> decimal_digits n (z mod 10 ^ Z.of_nat n) = decimal_digits n z.
Proof.
  induction n as [|n IH]; intros z Hz; [reflexivity|].
  cbn [decimal_digits].
  assert (E : 10 ^ Z.of_nat (S n) = 10 * 10 ^ Z.of_nat n)
    by (rewrite Nat2Z.inj_succ, Z.pow_succ_r; lia).
  assert (Hp : 0 < 10 ^ Z.of_nat n) by (apply Z.pow_pos_nonneg; lia).
  rewrite E.
  f_equal.
  - rewrite Z.rem_mul_r by lia.
    replace ((z mod 10 + 10 * ((z / 10) mod 10 ^ Z.of_nat n)) / 10)
      with ((z / 10) mod 10 ^ Z.of_nat n).
    + apply IH. apply Z.div_pos; lia.
    + rewrite Z.add_comm, Z.mul_comm, Z.div_add_l by lia.
      rewrite (Z.div_small (z mod 10)); [lia|]. apply Z.mod_pos_bound. lia.
  - assert (Em : (z mod (10 * 10 ^ Z.of_nat n)) mod 10 = z mod 10).
    { rewrite Z.rem_mul_r by lia.
      rewrite (Z.mul_comm 10), Z.mod_add by lia.
      apply Z.mod_mod. lia. }
    unfold digit_byte. rewrite Em. reflexivity.
Qed.

Lemma decimal_value_app (l1 l2 : list byte) :
  decimal_value (l1 ++ l2)
  = fold_left (fun a c => a * 10 + (byte_val c - 48)) l2 (decimal_value l1).
Proof. unfold decimal_value. apply fold_left_app. Qed.

Lemma decimal_value_digits (n : nat) :
  forall z, 0 <= z -> decimal_value (decimal_digits n z) = z mod 10 ^ Z.of_nat n.
Proof.
  induction n as [|n IH]; intros z Hz.
  - simpl. rewrite Z.mod_1_r. reflexivity.
  - cbn [decimal_digits]. rewrite decimal_value_app. cbn [fold_left].
    rewrite IH by (apply Z.div_pos; lia).
    rewrite digit_byte_val.
    assert (E : 10 ^ Z.of_nat (S n) = 10 * 10 ^ Z.of_nat n)
      by (rewrite Nat2Z.inj_succ, Z.pow_succ_r; lia).
    assert (Hp : 0 < 10 ^ Z.of_nat n) by (apply Z.pow_pos_nonneg; lia).
    rewrite E, Z.rem_mul_r by lia. lia.
Qed.

Lemma decimal_length_pos (fuel : nat) (z : Z) : (1 <= decimal_length (S fuel) z)%nat.
Proof. simpl. break_if; lia. Qed.

Lemma decimal_length_upper (fuel : nat) :
  forall z, 0 <= z < 10 ^ Z.of_nat fuel -> z < 10 ^ Z.of_nat (decimal_length fuel z).
Proof.
  induction fuel as [|fuel IH]; intros z Hz.
  - simpl in *. lia.
  - simpl decimal_length. destruct (Z.ltb_spec z 10); [simpl; lia|].
    rewrite Nat2Z.inj_succ, Z.pow_succ_r in * by lia.
    assert (z / 10 < 10 ^ Z.of_nat (decimal_length fuel (z / 10))).
    { apply IH. split; [apply Z.div_pos; lia|].
      apply Z.div_lt_upper_bound; lia. }
    pose proof (Z.div_mod z 10 ltac:(lia)). pose proof (Z.mod_pos_bound z 10 ltac:(lia)).
    lia.
Qed.

Lemma decimal_length_lower (fuel : nat) :
  forall z, 0 <= z ->
    decimal_length (S fuel) z = 1%nat
    \/ 10 ^ (Z.of_nat (decimal_length (S fuel) z) - 1) <= z.
Proof.
  induction fuel as [|fuel IH]; intros z Hz.
  - simpl. destruct (Z.ltb_spec z 10); [left; reflexivity|right]. simpl. lia.
  - change (decimal_length (S (S fuel)) z)
      with (if z <? 10 then 1%nat else S (decimal_length (S fuel) (z / 10))).
    destruct (Z.ltb_spec z 10); [left; reflexivity|right].
    rewrite Nat2Z.inj_succ. replace (Z.succ _ - 1) with (Z.of_nat (decimal_length (S fuel) (z / 10))) by lia.
    pose proof (decimal_length_pos fuel (z / 10)).
    pose proof (Z.div_mod z 10 ltac:(lia)). pose proof (Z.mod_pos_bound z 10 ltac:(lia)).
    destruct (IH (z / 10) ltac:(apply Z.div_pos; lia)) as [E|E].
    + rewrite E. simpl. lia.
    + replace (Z.of_nat (decimal_length (S fuel) (z / 10)))
        with (Z.succ (Z.of_nat (decimal_length (S fuel) (z / 10)) - 1)) by lia.
      rewrite Z.pow_succ_r by lia. lia.
Qed.

Lemma pow10_succ (n : nat) : 10 ^ Z.of_nat (S n) = 10 * 10 ^ Z.of_nat n.
Proof. rewrite Nat2Z.inj_succ, Z.pow_succ_r; lia. Qed.

Lemma pow10_pos (n : nat) : 0 < 10 ^ Z.of_nat n.
Proof. apply Z.pow_pos_nonneg; lia. Qed.

Lemma write_int_divisor_spec (value : Z) (fuel : nat) :
  0 <= value <= G_MAXINT64 ->
  forall divisor, 0 < divisor -> divisor = 1 \/ divisor <= value ->
    value / divisor < 10 ^ Z.of_nat (S fuel) ->
    write_int_divisor (S fuel) value divisor
    = divisor * 10 ^ Z.of_nat (pred (decimal_length (S fuel) (value / divisor))).
Proof.
  intros Hv. induction fuel as [|fuel IH]; intros divisor Hd Hle Hq.
  - cbn [write_int_divisor decimal_length].
    rewrite Z.quot_div_nonneg by lia.
    change (10 ^ Z.of_nat 1) with 10 in Hq.
    destruct (Z.ltb_spec 9 (value / divisor)); [lia|].
    destruct (Z.ltb_spec (value / divisor) 10); [|lia].
    cbn [pred Z.of_nat]. lia.
  - change (write_int_divisor (S (S fuel)) value divisor)
      with (if 9 <? Z.quot value divisor
            then write_int_divisor (S fuel) value (wrap64 (divisor * 10))
            else divisor).
    change (decimal_length (S (S fuel)) (value / divisor))
      with (if value / divisor <? 10 then 1%nat
            else S (decimal_length (S fuel) (value / divisor / 10))).
    rewrite Z.quot_div_nonneg by lia.
    pose proof (Z.mul_div_le value divisor Hd) as Hmul.
    assert (Hdd : value / divisor / 10 = value / (divisor * 10))
      by (apply Z.div_div; lia).
    set (q := value / divisor) in *.
    assert (Hq0 : 0 <= q) by (apply Z.div_pos; lia).
    destruct (Z.ltb_spec 9 q) as [H9|H9];
      destruct (Z.ltb_spec q 10) as [H10|H10]; try lia.
    + assert (10 * divisor <= value) by nia.
      unfold G_MAXINT64 in Hv.
      rewrite wrap64_small by (unfold G_MININT64, G_MAXINT64; lia).
      rewrite pow10_succ in Hq.
      rewrite IH; try lia.
      * rewrite <- Hdd.
        pose proof (decimal_length_pos fuel (q / 10)) as Hpos.
        destruct (decimal_length (S fuel) (q / 10)) as [|d]; [lia|].
        cbn [pred]. rewrite pow10_succ. lia.
      * rewrite <- Hdd. apply Z.div_lt_upper_bound; lia.
    + cbn [pred Z.of_nat]. lia.
Qed.

Lemma write_int_digits_spec (k : nat) :
  forall fuel value, (k < fuel)%nat ->
    0 <= value < 10 ^ Z.of_nat (S k) -> value <= G_MAXINT64 ->
    write_int_digits fuel [] value (10 ^ Z.of_nat k) = decimal_digits (S k) value.
Proof.
  induction k as [|k IH]; intros fuel value Hf Hv Hmax;
    (destruct fuel as [|fuel]; [lia|]).
  - change (10 ^ Z.of_nat 1) with 10 in Hv.
    cbn [write_int_digits decimal_digits Z.of_nat]. change (10 ^ 0) with 1.
    rewrite Z.quot_1_r. unfold json_int_to_digit, digit_byte, write_char.
    rewrite Z.mod_small by lia. reflexivity.
  - pose proof (pow10_pos (S k)) as Hp. pose proof (pow10_pos k) as Hpk.
    pose proof (pow10_succ k) as E.
    rewrite decimal_digits_head by lia.
    change (write_int_digits (S fuel) [] value (10 ^ Z.of_nat (S k)))
      with (let v := Z.quot value (10 ^ Z.of_nat (S k)) in
            let buffer := write_char [] (json_int_to_digit v) in
            if 10 ^ Z.of_nat (S k) =? 1 then buffer
            else write_int_digits fuel buffer (wrap64 (value - v * 10 ^ Z.of_nat (S k)))
                                  (Z.quot (10 ^ Z.of_nat (S k)) 10)).
    cbv zeta. rewrite !Z.quot_div_nonneg by lia.
    destruct (Z.eqb_spec (10 ^ Z.of_nat (S k)) 1) as [E1|_]; [lia|].
    rewrite write_int_digits_app. unfold write_char. cbn [app].
    assert (Hq : 0 <= value / 10 ^ Z.of_nat (S k) < 10).
    { split; [apply Z.div_pos; lia|].
      apply Z.div_lt_upper_bound; [lia|].
      rewrite (pow10_succ (S k)) in Hv. lia. }
    f_equal.
    + unfold json_int_to_digit, digit_byte. rewrite Z.mod_small by lia. reflexivity.
    + assert (Em : value - value / 10 ^ Z.of_nat (S k) * 10 ^ Z.of_nat (S k)
                   = value mod 10 ^ Z.of_nat (S k)).
      { pose proof (Z.div_mod value (10 ^ Z.of_nat (S k)) ltac:(lia)). lia. }
      rewrite Em.
      pose proof (Z.mod_pos_bound value (10 ^ Z.of_nat (S k)) Hp).
      rewrite wrap64_small by (unfold G_MININT64, G_MAXINT64 in *; lia).
      assert (Ed : 10 ^ Z.of_nat (S k) / 10 = 10 ^ Z.of_nat k).
      { rewrite E, Z.mul_comm, Z.div_mul; lia. }
      rewrite Ed, IH; try lia.
      apply decimal_digits_mod. lia.
Qed.

Lemma decimal_width_le (z : Z) : (decimal_width z <= 19)%nat.
Proof.
  unfold decimal_width. generalize 19%nat. intros n. revert z.
  induction n as [|n IH]; intros z; cbn [decimal_length]; [lia|].
  destruct (z <? 10); [lia|]. specialize (IH (z / 10)). lia.
Qed.

(** The text of an integer in the 64-bit range: a minus sign if it is
    negative, then the decimal digits of its magnitude. *)
Lemma write_int_text (value : Z) :
  in_int64_range value = true ->
  write_int [] value
  = integer_literal (value <? 0)
      (decimal_digits (decimal_width (Z.abs value)) (Z.abs value)).
Proof.
  unfold in_int64_range, write_int. intros Hr.
  apply andb_true_iff in Hr as [Hlo Hhi]. apply Z.leb_le in Hlo, Hhi.
  destruct (Z.eqb_spec value G_MININT64) as [->|Hmin]; [vm_compute; reflexivity|].
  set (a := Z.abs value).
  assert (Ha : 0 <= a <= G_MAXINT64) by (unfold G_MININT64, G_MAXINT64 in *; lia).
  assert (Ea : (if value <? 0 then wrap64 (- value) else value) = a).
  { destruct (Z.ltb_spec value 0).
    - rewrite wrap64_small by (unfold G_MININT64, G_MAXINT64 in *; lia). lia.
    - lia. }
  rewrite Ea.
  assert (Hlt : a < 10 ^ Z.of_nat 19).
  { unfold G_MAXINT64 in Ha. change (10 ^ Z.of_nat 19) with 10000000000000000000. lia. }
  rewrite (write_int_divisor_spec a 18 Ha 1) by (rewrite ?Z.div_1_r; lia).
  rewrite Z.div_1_r, Z.mul_1_l.
  fold (decimal_width a).
  pose proof (decimal_length_pos 18 a) as Hw. fold (decimal_width a) in Hw.
  pose proof (decimal_width_le a) as Hw19.
  pose proof (decimal_length_upper 19 a ltac:(lia)) as Hup. fold (decimal_width a) in Hup.
  destruct (decimal_width a) as [|k] eqn:Ek; [lia|].
  cbn [pred].
  rewrite write_int_digits_app.
  rewrite write_int_digits_spec; try lia.
  unfold integer_literal, write_char. destruct (value <? 0); reflexivity.
Qed.

(** ** The encoding holds no control byte *)

Lemma is_digit_not_control (c : byte) : is_digit c = true -> not_control c = true.
Proof. unfold is_digit, not_control. lia. Qed.

Lemma forallb_impl {A : Type} (f g : A -> bool) (l : list A) :
  (forall x, f x = true -> g x = true) -> forallb f l = true -> forallb g l = true.
Proof.
  intros H. induction l as [|x l IH]; simpl; [reflexivity|].
  rewrite !andb_true_iff. intros [Hx Hl]. auto.
Qed.

Lemma c_str_forallb (f : byte -> bool) (l : list byte) :
  forallb f l = true -> forallb f (c_str l) = true.
Proof.
  induction l as [|c l IH]; simpl; [reflexivity|].
  rewrite andb_true_iff. intros [Hc Hl]. break_if; simpl; [reflexivity|].
  rewrite Hc. auto.
Qed.

Lemma write_int_not_control (value : Z) :
  in_int64_range value = true -> forallb not_control (write_int [] value) = true.
Proof.
  intros H. rewrite write_int_text by assumption.
  unfold integer_literal. rewrite forallb_app. apply andb_true_iff. split.
  - destruct (value <? 0); reflexivity.
  - eapply forallb_impl; [apply is_digit_not_control | apply decimal_digits_are_digits].
Qed.

Lemma write_separator_not_control (i : nat) :
  forallb not_control (write_separator [] i) = true.
Proof. unfold write_separator. break_if; reflexivity. Qed.

Lemma write_int_elements_not_control (values : list Z) :
  forall i, forallb in_int64_range values = true ->
    forallb not_control (write_int_elements [] i values) = true.
Proof.
  induction values as [|v values IH]; simpl; intros i H; [reflexivity|].
  apply andb_true_iff in H as [Hv Hl].
  rewrite write_int_elements_app, write_int_app.
  rewrite !forallb_app, write_separator_not_control, write_int_not_control, IH by assumption.
  reflexivity.
Qed.

Lemma write_string_char_not_control (P : Platform) (c : byte) :
  c <> x00 -> forallb not_control (write_string_char P [] c) = true.
Proof.
  intros Hc. destruct P as [[|] dtostr libm_pow];
    destruct c; try (exfalso; apply Hc; reflexivity); vm_compute; reflexivity.
Qed.

Lemma write_string_chars_not_control (P : Platform) (string : list byte) :
  forallb not_control (write_string_chars P [] string) = true.
Proof.
  induction string as [|c string IH]; simpl; [reflexivity|].
  destruct (Byte.eqb c x00) eqn:E; [reflexivity|].
  rewrite write_string_chars_app, forallb_app, IH.
  rewrite write_string_char_not_control; [reflexivity|].
  apply byte_eqb_neq. exact E.
Qed.

Lemma write_double_not_control (P : Platform) (d : double) (out : list byte) :
  dtostr_is_text P -> write_double P [] d = Ok out ->
  forallb not_control out = true.
Proof.
  unfold write_double, write_string. intros Ht.
  destruct (isfinite d) eqn:Hf; simpl; [|discriminate].
  specialize (Ht d Hf).
  break_if; intros H; injection H as <-; rewrite ?forallb_app, Ht; reflexivity.
Qed.

Lemma write_double_elements_not_control (P : Platform) (l : list double) :
  dtostr_is_text P ->
  forall i out, write_double_elements P [] i l = Ok out ->
    forallb not_control out = true.
Proof.
  intros Ht. induction l as [|d l IH]; simpl; intros i out H.
  - injection H as <-. reflexivity.
  - rewrite write_double_app in H. unfold prepend in H.
    destruct (write_double P [] d) as [body| |] eqn:Ed; try discriminate.
    simpl in H. rewrite write_double_elements_app in H. unfold prepend in H.
    destruct (write_double_elements P [] (S i) l) as [rest| |] eqn:El; try discriminate.
    injection H as <-.
    rewrite !forallb_app, write_separator_not_control.
    rewrite (write_double_not_control P d body Ht Ed), (IH _ _ El). reflexivity.
Qed.

Lemma uint8_in_int64_range (l : list byte) :
  forallb in_int64_range (map byte_val l) = true.
Proof.
  induction l as [|c l IH]; simpl; [reflexivity|]. rewrite IH.
  pose proof (byte_val_range c). unfold in_int64_range, G_MININT64, G_MAXINT64.
  rewrite andb_true_r. apply andb_true_iff. split; apply Z.leb_le; lia.
Qed.

Lemma int32_in_int64_range (l : list Z) :
  forallb in_int32_range l = true -> forallb in_int64_range l = true.
Proof.
  apply forallb_impl. intros x. unfold in_int32_range, in_int64_range, G_MININT64, G_MAXINT64.
  rewrite !andb_true_iff, !Z.leb_le, Z.ltb_lt. lia.
Qed.

Lemma write_list_elements_app (P : Platform) (l : list FlValue) :
  forall buffer i,
    write_list_elements P buffer i l = prepend buffer (write_list_elements P [] i l).
Proof.
  induction l as [|v l IH]; simpl; intros buffer i.
  - unfold prepend. simpl. rewrite app_nil_r. reflexivity.
  - rewrite write_value_app, (write_value_app P v (write_separator [] i)).
    rewrite (write_separator_app buffer). unfold prepend at 1 2.
    destruct (write_value P [] v) as [body| |]; simpl; try reflexivity.
    rewrite IH, (IH (write_separator [] i ++ body)).
    unfold prepend. destruct (write_list_elements P [] (S i) l); simpl;
      rewrite <- ?app_assoc; reflexivity.
Qed.

Lemma write_map_entries_app (P : Platform) (m : list (FlValue * FlValue)) :
  forall buffer i,
    write_map_entries P buffer i m = prepend buffer (write_map_entries P [] i m).
Proof.
  induction m as [|[k v] m IH]; simpl; intros buffer i.
  - unfold prepend. simpl. rewrite app_nil_r. reflexivity.
  - rewrite write_value_app, (write_value_app P k (write_separator [] i)).
    rewrite (write_separator_app buffer). unfold prepend at 1 2.
    destruct (write_value P [] k) as [kb| |]; simpl; try reflexivity.
    rewrite write_value_app, (write_value_app P v (write_char _ _)).
    unfold prepend at 1 2.
    destruct (write_value P [] v) as [vb| |]; simpl; try reflexivity.
    rewrite IH, (IH (write_char _ _ ++ vb)).
    unfold prepend, write_char. destruct (write_map_entries P [] (S i) m); simpl;
      rewrite <- ?app_assoc; reflexivity.
Qed.

(** The shape of what the list and map cases write. *)
Lemma write_list_elements_cons (P : Platform) (i : nat) (v : FlValue)
  (l : list FlValue) (out : list byte) :
  write_list_elements P [] i (v :: l) = Ok out ->
  exists body rest,
    write_value P [] v = Ok body /\ write_list_elements P [] (S i) l = Ok rest
    /\ out = write_separator [] i ++ body ++ rest.
Proof.
  simpl. rewrite write_value_app. unfold prepend.
  destruct (write_value P [] v) as [body| |]; simpl; try discriminate.
  rewrite write_list_elements_app. unfold prepend.
  destruct (write_list_elements P [] (S i) l) as [rest| |]; simpl; try discriminate.
  intros H. injection H as <-. exists body, rest.
  rewrite <- app_assoc. auto.
Qed.

Lemma write_map_entries_cons (P : Platform) (i : nat) (k v : FlValue)
  (m : list (FlValue * FlValue)) (out : list byte) :
  write_map_entries P [] i ((k, v) :: m) = Ok out ->
  exists kb vb rest,
    write_value P [] k = Ok kb /\ write_value P [] v = Ok vb
    /\ write_map_entries P [] (S i) m = Ok rest
    /\ out = write_separator [] i ++ kb ++ [":"%byte] ++ vb ++ rest.
Proof.
  simpl. rewrite write_value_app. unfold prepend.
  destruct (write_value P [] k) as [kb| |]; simpl; try discriminate.
  rewrite write_value_app. unfold prepend.
  destruct (write_value P [] v) as [vb| |]; simpl; try discriminate.
  rewrite write_map_entries_app. unfold prepend.
  destruct (write_map_entries P [] (S i) m) as [rest| |]; simpl; try discriminate.
  intros H. injection H as <-. exists kb, vb, rest. unfold write_char.
  rewrite <- !app_assoc. auto.
Qed.

Lemma write_value_list_inv (P : Platform) (l : list FlValue) (out : list byte) :
  write_value P [] (FlList l) = Ok out ->
  exists body, write_list_elements P [] 0 l = Ok body
               /\ out = ["["%byte] ++ body ++ ["]"%byte].
Proof.
  rewrite write_value_list, write_list_elements_app. unfold prepend, write_char.
  destruct (write_list_elements P [] 0 l) as [body| |]; simpl; try discriminate.
  intros H. injection H as <-. exists body. auto.
Qed.

Lemma write_value_map_inv (P : Platform) (m : list (FlValue * FlValue)) (out : list byte) :
  write_value P [] (FlMap m) = Ok out ->
  exists body, write_map_entries P [] 0 m = Ok body
               /\ out = ["{"%byte] ++ body ++ ["}"%byte].
Proof.
  rewrite write_value_map, write_map_entries_app. unfold prepend, write_char.
  destruct (write_map_entries P [] 0 m) as [body| |]; simpl; try discriminate.
  intros H. injection H as <-. exists body. auto.
Qed.

Lemma write_value_not_control (P : Platform) (v : FlValue) :
  dtostr_is_text P -> integers_fit v = true ->
  forall out, write_value P [] v = Ok out -> forallb not_control out = true.
Proof.
  intros Ht.
  induction v as [ |b|i|d|s|l|l|l|l|l IH|m IH] using FlValue_induction; intros Hfit out H.
  - injection H as <-. reflexivity.
  - destruct b; injection H as <-; reflexivity.
  - injection H as <-. apply write_int_not_control. exact Hfit.
  - eapply write_double_not_control; eassumption.
  - simpl in H. injection H as <-. unfold write_char.
    rewrite write_string_chars_app, !forallb_app, write_string_chars_not_control.
    reflexivity.
  - simpl in H. injection H as <-. unfold write_char.
    rewrite write_int_elements_app, !forallb_app.
    rewrite write_int_elements_not_control by apply uint8_in_int64_range. reflexivity.
  - simpl in H. injection H as <-. unfold write_char.
    rewrite write_int_elements_app, !forallb_app.
    rewrite write_int_elements_not_control by (apply int32_in_int64_range; exact Hfit).
    reflexivity.
  - simpl in H. injection H as <-. unfold write_char.
    rewrite write_int_elements_app, !forallb_app.
    rewrite write_int_elements_not_control by exact Hfit. reflexivity.
  - simpl in H. unfold write_char in H.
    rewrite write_double_elements_app in H. unfold prepend in H.
    destruct (write_double_elements P [] 0 l) as [body| |] eqn:E; try discriminate.
    simpl in H. injection H as <-. simpl. rewrite forallb_app.
    rewrite (write_double_elements_not_control P l Ht _ _ E). reflexivity.
  - apply write_value_list_inv in H as (body & E & ->).
    rewrite !forallb_app. simpl. rewrite andb_true_r.
    change (integers_fit (FlList l)) with (forallb integers_fit l) in Hfit.
    revert body E Hfit. generalize 0%nat.
    induction IH as [|v l Hv Hl IHl]; intros i body E Hfit.
    + injection E as <-. reflexivity.
    + apply write_list_elements_cons in E as (vb & rest & Ev & El & ->).
      simpl in Hfit. apply andb_true_iff in Hfit as [Hfv Hfl].
      rewrite !forallb_app, write_separator_not_control.
      rewrite (Hv Hfv _ Ev), (IHl _ _ El Hfl). reflexivity.
  - apply write_value_map_inv in H as (body & E & ->).
    rewrite !forallb_app. simpl. rewrite andb_true_r.
    change (integers_fit (FlMap m))
      with (forallb (fun kv => let '(k, x) := kv in integers_fit k && integers_fit x) m)
      in Hfit.
    revert body E Hfit. generalize 0%nat.
    induction IH as [|[k v] m [Hk Hv] Hm IHm]; intros i body E Hfit.
    + injection E as <-. reflexivity.
    + apply write_map_entries_cons in E as (kb & vb & rest & Ek & Ev & El & ->).
      simpl in Hfit. apply andb_true_iff in Hfit as [Hfkv Hfl].
      apply andb_true_iff in Hfkv as [Hfk Hfv]. simpl in Hk, Hv.
      rewrite !forallb_app, write_separator_not_control.
      rewrite (Hk Hfk _ Ek), (Hv Hfv _ Ev), (IHm _ _ El Hfl). reflexivity.
Qed.

(** C10: when encoding succeeds, no byte of the encoding is below 0x20, and
    so none is the NUL that the decoder's cursor gives at the end of its
    buffer.  The integers of the message are taken to fit their C types and
    [g_ascii_dtostr] to produce text. *)
Theorem encoding_has_no_control_byte (P : Platform) (message : option FlValue)
  (out : list byte) :
  dtostr_is_text P ->
  message_integers_fit message = true ->
  fl_json_message_codec_encode_message P message = Ok out ->
  Forall (fun b => 32 <= byte_val b) out.
Proof.
  intros Ht Hfit H.
  assert (Hnc : forallb not_control out = true).
  { destruct message as [v|].
    - eapply write_value_not_control; eassumption.
    - injection H as <-. reflexivity. }
  apply Forall_forall. intros b Hb.
  rewrite forallb_forall in Hnc. specialize (Hnc b Hb).
  unfold not_control in Hnc. lia.
Qed.

(** The reference [g_ascii_dtostr] produces text. *)

Lemma decimal_digits_not_control (n : nat) (z : Z) :
  forallb not_control (decimal_digits n z) = true.
Proof.
  eapply forallb_impl; [apply is_digit_not_control | apply decimal_digits_are_digits].
Qed.

Lemma forallb_firstn {A : Type} (f : A -> bool) (n : nat) (l : list A) :
  forallb f l = true -> forallb f (firstn n l) = true.
Proof.
  revert l. induction n as [|n IH]; intros [|x l]; simpl; try reflexivity.
  rewrite !andb_true_iff. intros [Hx Hl]. auto.
Qed.

Lemma forallb_skipn {A : Type} (f : A -> bool) (n : nat) (l : list A) :
  forallb f l = true -> forallb f (skipn n l) = true.
Proof.
  revert l. induction n as [|n IH]; intros [|x l]; simpl; try reflexivity; auto.
  rewrite !andb_true_iff. intros [Hx Hl]. auto.
Qed.

Lemma forallb_rev {A : Type} (f : A -> bool) (l : list A) :
  forallb f l = true -> forallb f (rev l) = true.
Proof.
  rewrite !forallb_forall. intros H x Hx. apply H. apply in_rev. exact Hx.
Qed.

Lemma strip_zeros_not_control (l : list byte) :
  forallb not_control l = true -> forallb not_control (strip_zeros l) = true.
Proof.
  intros H. unfold strip_zeros. apply forallb_rev.
  apply forallb_rev in H. revert H. generalize (rev l). clear l.
  induction l as [|c l IH]; simpl; [reflexivity|].
  rewrite andb_true_iff. intros [Hc Hl]. break_if; [auto|].
  simpl. rewrite Hc, Hl. reflexivity.
Qed.

Lemma repeat_zero_not_control (n : nat) :
  forallb not_control (repeat "0"%byte n) = true.
Proof. induction n as [|n IH]; simpl; [reflexivity | exact IH]. Qed.

Lemma with_fraction_not_control (int_part frac : list byte) :
  forallb not_control int_part = true -> forallb not_control frac = true ->
  forallb not_control (with_fraction int_part frac) = true.
Proof.
  intros Hi Hf. unfold with_fraction. destruct frac as [|c frac]; [exact Hi|].
  rewrite !forallb_app, Hi, Hf. reflexivity.
Qed.

Lemma format_17g_not_control (m e : Z) : forallb not_control (format_17g m e) = true.
Proof.
  unfold format_17g.
  set (x := decimal_exponent 3 m e _).
  set (digits := decimal_digits 17 (scaled17 m e x)).
  assert (Hd : forallb not_control digits = true) by apply decimal_digits_not_control.
  assert (Ht : forallb not_control (tl digits) = true) by (apply (forallb_skipn _ 1), Hd).
  destruct ((x <? -4) || (17 <=? x)); [|destruct (0 <=? x)].
  - rewrite !forallb_app, decimal_digits_not_control.
    rewrite with_fraction_not_control;
      [| apply forallb_firstn, Hd | apply strip_zeros_not_control, Ht].
    destruct (x <? 0); reflexivity.
  - apply with_fraction_not_control;
      [apply forallb_firstn, Hd | apply strip_zeros_not_control, forallb_skipn, Hd].
  - rewrite !forallb_app, repeat_zero_not_control, strip_zeros_not_control by exact Hd.
    reflexivity.
Qed.

Lemma dtostr_17g_is_text (signed : bool) (libm_pow : double -> double -> double) :
  dtostr_is_text
    {| char_is_signed := signed; g_ascii_dtostr := dtostr_17g; pow := libm_pow |}.
Proof.
  intros d _. simpl. apply c_str_forallb.
  destruct d as [[|]|[|]| |[|] m e]; simpl; try reflexivity.
  all: apply format_17g_not_control.
Qed.

Lemma encoding_has_no_control_byte_witness :
  Forall (fun b => 32 <= byte_val b)
    (bytes "[" ++ [x22; x5c] ++ bytes "u0001" ++ [x5c] ++ bytes "n" ++ [x22]
     ++ bytes ",-5,0.5,[7]]").
Proof.
  apply (encoding_has_no_control_byte linux_x64
           (Some (FlList [FlString [x01; x0a]; FlInt (-5);
                          FlFloat (S754_finite false 4503599627370496 (-53));
                          FlInt32List [7]]))).
  - apply dtostr_17g_is_text.
  - reflexivity.
  - vm_compute. reflexivity.
Defined.

(** ** Reading back what the encoder wrote *)

Lemma read_ok_mono (P : Platform) (fuel fuel' : nat) (s : cursor) x :
  read_value P fuel s = Ok x -> (fuel <= fuel')%nat -> read_value P fuel' s = Ok x.
Proof. intros H Hle. exact (refines_ok _ _ _ (read_value_mono P fuel fuel' s Hle) H). Qed.

Lemma read_array_ok_mono (P : Platform) (fuel fuel' : nat) acc (s : cursor) x :
  read_json_array_loop P fuel acc s = Ok x -> (fuel <= fuel')%nat ->
  read_json_array_loop P fuel' acc s = Ok x.
Proof.
  intros H Hle. exact (refines_ok _ _ _ (read_json_array_loop_mono P fuel fuel' acc s Hle) H).
Qed.

Lemma read_object_ok_mono (P : Platform) (fuel fuel' : nat) acc (s : cursor) x :
  read_json_object_loop P fuel acc s = Ok x -> (fuel <= fuel')%nat ->
  read_json_object_loop P fuel' acc s = Ok x.
Proof.
  intros H Hle. exact (refines_ok _ _ _ (read_json_object_loop_mono P fuel fuel' acc s Hle) H).
Qed.

Lemma read_string_ok_mono (P : Platform) (fuel fuel' : nat) text (s : cursor) x :
  read_json_string_loop P fuel text s = Ok x -> (fuel <= fuel')%nat ->
  read_json_string_loop P fuel' text s = Ok x.
Proof.
  intros H Hle.
  exact (refines_ok _ _ _ (read_json_string_loop_mono P fuel fuel' text s Hle) H).
Qed.

Lemma value_stops_head (r : list byte) :
  value_stops r = true ->
  integer_stops r = true /\ read_whitespace r = r.
Proof.
  destruct r as [|c r]; simpl; [auto|].
  rewrite !orb_true_iff, !byte_eqb_eq. intros [[->| ->]| ->]; split; reflexivity.
Qed.

(** One character of a string, written and read back in one iteration of
    the reader's loop. *)
Lemma read_string_char (P : Platform) (c : byte) (fuel : nat) (text rest : list byte) :
  string_byte_round_trips P c = true ->
  read_json_string_loop P (S fuel) text (write_string_char P [] c ++ rest)
  = read_json_string_loop P fuel (text ++ [c]) rest.
Proof.
  destruct P as [[|] dtostr libm_pow]; destruct c; intros H;
    try discriminate H; reflexivity.
Qed.

Lemma string_byte_round_trips_nonzero (P : Platform) (c : byte) :
  string_byte_round_trips P c = true -> Byte.eqb c x00 = false.
Proof.
  destruct (Byte.eqb c x00) eqn:E; [|reflexivity].
  apply byte_eqb_eq in E. subst c. destruct P as [[|] ? ?]; discriminate.
Qed.

Lemma c_str_nonzero (P : Platform) (s : list byte) :
  forallb (string_byte_round_trips P) s = true -> c_str s = s.
Proof.
  induction s as [|c s IH]; simpl; [reflexivity|].
  rewrite andb_true_iff. intros [Hc Hs].
  rewrite (string_byte_round_trips_nonzero P c Hc), IH by assumption. reflexivity.
Qed.

Lemma read_string_chars (P : Platform) (s : list byte) :
  forall text rest,
    forallb (string_byte_round_trips P) s = true ->
    read_json_string_loop P (S (length s)) text
      (write_string_chars P [] s ++ x22 :: rest)
    = Ok (fl_value_new_string (text ++ s), rest).
Proof.
  induction s as [|c s IH]; intros text rest H.
  - simpl. rewrite app_nil_r. reflexivity.
  - simpl in H. apply andb_true_iff in H as [Hc Hs].
    simpl write_string_chars.
    rewrite (string_byte_round_trips_nonzero P c Hc).
    rewrite write_string_chars_app, <- app_assoc.
    change (length (c :: s)) with (S (length s)).
    rewrite read_string_char by assumption.
    rewrite IH by assumption. rewrite <- app_assoc. reflexivity.
Qed.

(** A string that has been written is read back. *)
Lemma read_written_string (P : Platform) (s out rest : list byte) :
  forallb (string_byte_round_trips P) s = true ->
  write_value P [] (FlString s) = Ok out ->
  read_json_string P (out ++ rest) = Ok (FlString s, rest).
Proof.
  intros Hs H. simpl in H. injection H as <-.
  unfold write_char. rewrite write_string_chars_app. simpl app.
  unfold read_json_string. simpl next_char. rewrite <- app_assoc. simpl app.
  pose proof (read_string_chars P s [] rest Hs) as E.
  eapply read_string_ok_mono in E.
  - rewrite E. unfold fl_value_new_string. simpl.
    rewrite (c_str_nonzero P s Hs). reflexivity.
  - simpl. rewrite !length_app. simpl. 
    assert (length s <= length (write_string_chars P [] s))%nat; [|lia].
    clear -Hs. induction s as [|c s IH]; simpl; [lia|].
    simpl in Hs. apply andb_true_iff in Hs as [Hc Hs].
    rewrite (string_byte_round_trips_nonzero P c Hc).
    rewrite write_string_chars_app, length_app.
    specialize (IH Hs).
    assert (1 <= length (write_string_char P [] c))%nat; [|lia].
    clear -Hc. destruct P as [[|] ? ?]; destruct c; try discriminate Hc;
      vm_compute; lia.
Qed.

Lemma decimal_digits_integer_part (a : Z) :
  0 <= a <= G_MAXINT64 ->
  is_integer_part (decimal_digits (decimal_width a) a) = true.
Proof.
  intros Ha. unfold is_integer_part.
  rewrite decimal_digits_are_digits. simpl.
  unfold decimal_width.
  pose proof (decimal_length_pos 18 a) as Hw.
  destruct (decimal_length 19 a) as [|k] eqn:Ek; [lia|].
  rewrite decimal_digits_head by lia.
  destruct k as [|k]; [apply orb_true_iff; right; reflexivity|].
  apply orb_true_iff. left. apply negb_true_iff, byte_eqb_neq.
  destruct (decimal_length_lower 18 a ltac:(lia)) as [E|E]; [congruence|].
  rewrite Ek in E. replace (Z.of_nat (S (S k)) - 1) with (Z.of_nat (S k)) in E by lia.
  assert (Hup : a < 10 ^ Z.of_nat (S (S k))).
  { rewrite <- Ek. apply decimal_length_upper. unfold G_MAXINT64 in Ha. simpl. lia. }
  assert (Hp : 0 < 10 ^ Z.of_nat (S k)) by (apply Z.pow_pos_nonneg; lia).
  assert (Hq : 1 <= a / 10 ^ Z.of_nat (S k) < 10).
  { split.
    - apply Z.div_le_lower_bound; lia.
    - apply Z.div_lt_upper_bound; [lia|].
      rewrite (Nat2Z.inj_succ (S k)), Z.pow_succ_r in Hup by lia. lia. }
  intros E0. apply (f_equal byte_val) in E0. unfold digit_byte in E0.
  rewrite Z.mod_small in E0 by lia.
  rewrite byte_val_byte_of_Z in E0 by lia.
  change (byte_val "0") with 48 in E0. lia.
Qed.

(** An integer that has been written is read back. *)
Lemma read_written_int (P : Platform) (i : Z) (rest : list byte) :
  in_int64_range i = true -> integer_stops rest = true ->
  read_json_number P (write_int [] i ++ rest) = Ok (FlInt i, rest).
Proof.
  intros Hi Hr. rewrite write_int_text by assumption.
  unfold in_int64_range in Hi. apply andb_true_iff in Hi as [Hlo Hhi].
  apply Z.leb_le in Hlo, Hhi.
  destruct (Z.eqb_spec i G_MININT64) as [->|Hmin].
  - change (Z.abs G_MININT64) with 9223372036854775808.
    change (G_MININT64 <? 0) with true.
    rewrite read_json_number_integer_literal; [reflexivity | reflexivity | assumption].
  - assert (Ha : 0 <= Z.abs i <= G_MAXINT64) by (unfold G_MININT64, G_MAXINT64 in *; lia).
    rewrite read_json_number_integer_literal;
      [| apply decimal_digits_integer_part; exact Ha | assumption].
    f_equal. f_equal. f_equal.
    unfold integer_literal_value.
    rewrite decimal_value_digits by lia.
    rewrite Z.mod_small.
    + rewrite wrap64_small; destruct (Z.ltb_spec i 0);
        unfold G_MININT64, G_MAXINT64 in *; lia.
    + split; [lia|]. apply decimal_length_upper. unfold G_MAXINT64 in Ha. simpl. lia.
Qed.

Lemma write_int_starts (i : Z) :
  in_int64_range i = true -> value_starts (write_int [] i) = true.
Proof.
  intros Hi. rewrite write_int_text by assumption. unfold integer_literal.
  destruct (i <? 0); [reflexivity|]. simpl.
  unfold decimal_width. pose proof (decimal_length_pos 18 (Z.abs i)).
  destruct (decimal_length 19 (Z.abs i)) as [|k]; [lia|].
  rewrite decimal_digits_head by lia. simpl. rewrite digit_byte_is_digit. reflexivity.
Qed.

Lemma write_value_starts (P : Platform) (v : FlValue) (out : list byte) :
  round_trips P v = true -> write_value P [] v = Ok out -> value_starts out = true.
Proof.
  destruct v as [ |b|i|d|s|l|l|l|l|l|m]; intros Hv H; try discriminate Hv.
  - injection H as <-. reflexivity.
  - destruct b; injection H as <-; reflexivity.
  - injection H as <-. apply write_int_starts. exact Hv.
  - simpl in H. injection H as <-. unfold write_char.
    rewrite write_string_chars_app. reflexivity.
  - apply write_value_list_inv in H as (body & _ & ->). reflexivity.
  - apply write_value_map_inv in H as (body & _ & ->). reflexivity.
Qed.

Lemma value_starts_head (out rest : list byte) :
  value_starts out = true ->
  out <> [] /\ read_whitespace (out ++ rest) = out ++ rest
  /\ Byte.eqb (current_char (out ++ rest)) x00 = false
  /\ Byte.eqb (current_char (out ++ rest)) "]" = false
  /\ Byte.eqb (current_char (out ++ rest)) "}" = false.
Proof.
  destruct out as [|c out]; [discriminate|]. simpl.
  destruct c; simpl; intros H; try discriminate H; repeat split; discriminate.
Qed.

Lemma read_value_S (P : Platform) (fuel : nat) (s : cursor) :
  read_value P (S fuel) s
  = (let s := read_whitespace s in
     let c := current_char s in
     do (value, s) <-
       (if Byte.eqb c "{" then read_json_object_loop P fuel [] (next_char s)
        else if Byte.eqb c "[" then read_json_array_loop P fuel [] (next_char s)
        else if Byte.eqb c x22 then read_json_string P s
        else if Byte.eqb c "-" || (0 <=? json_digit_to_int P c) then read_json_number P s
        else if Byte.eqb c "t" then read_json_true s
        else if Byte.eqb c "f" then read_json_false s
        else if Byte.eqb c "n" then read_json_null s
        else if Byte.eqb c x00 then Err FL_MESSAGE_CODEC_ERROR_OUT_OF_DATA
        else Err FL_MESSAGE_CODEC_ERROR_FAILED);
     Ok (value, read_whitespace s)).
Proof. reflexivity. Qed.

Lemma read_json_array_loop_S (P : Platform) (fuel : nat) (value : list FlValue)
  (s : cursor) :
  read_json_array_loop P (S fuel) value s
  = (let s := read_whitespace s in
     let c := current_char s in
     if Byte.eqb c x00 then Err FL_MESSAGE_CODEC_ERROR_OUT_OF_DATA
     else if Byte.eqb c "]" then Ok (FlList value, next_char s)
     else
       do s <-
         (if negb (Nat.eqb (length value) 0)
          then do s <- read_comma s; Ok (read_whitespace s)
          else Ok s);
       do (child, s) <- read_value P fuel s;
       read_json_array_loop P fuel (fl_value_append value child) s).
Proof. reflexivity. Qed.

Lemma read_json_object_loop_S (P : Platform) (fuel : nat)
  (map : list (FlValue * FlValue)) (s : cursor) :
  read_json_object_loop P (S fuel) map s
  = (let s := read_whitespace s in
     let c := current_char s in
     if Byte.eqb c x00 then Err FL_MESSAGE_CODEC_ERROR_OUT_OF_DATA
     else if Byte.eqb c "}" then Ok (FlMap map, next_char s)
     else
       do s <-
         (if negb (Nat.eqb (length map) 0)
          then do s <- read_comma s; Ok (read_whitespace s)
          else Ok s);
       let c := current_char s in
       if negb (Byte.eqb c x22) then Err FL_JSON_MESSAGE_CODEC_ERROR_INVALID_OBJECT_KEY_TYPE
       else
         do (key, s) <- read_json_string P s;
         let s := read_whitespace s in
         let c := current_char s in
         if negb (Byte.eqb c ":") then Err FL_MESSAGE_CODEC_ERROR_FAILED
         else
           let s := next_char s in
           do (value, s) <- read_value P fuel s;
           read_json_object_loop P fuel (fl_value_set map key value) s).
Proof. reflexivity. Qed.

(** The separator and the first element, as the array and object loops meet
    them: a comma and then the element, if there are elements already. *)
Lemma read_separator_written (n i : nat) (out rest : list byte) (s : cursor) :
  value_starts out = true -> (n = 0 <-> i = 0)%nat ->
  s = write_separator [] i ++ out ++ rest ->
  (if negb (Nat.eqb n 0) then do s' <- read_comma s; Ok (read_whitespace s') else Ok s)
  = Ok (out ++ rest)
  /\ read_whitespace s = s
  /\ Byte.eqb (current_char s) x00 = false
  /\ Byte.eqb (current_char s) "]" = false
  /\ Byte.eqb (current_char s) "}" = false.
Proof.
  intros Hs Hn ->.
  destruct (value_starts_head out rest Hs) as (_ & Hws & H0 & H1 & H2).
  unfold write_separator. destruct i as [|i]; simpl.
  - destruct n as [|n]; [|destruct Hn as [_ Hn]; discriminate Hn; reflexivity].
    simpl. auto.
  - destruct n as [|n]; [destruct Hn as [Hn _]; discriminate Hn; reflexivity|].
    simpl. unfold read_comma. simpl. rewrite Hws. auto.
Qed.

Lemma written_elements_stop (P : Platform) (i : nat) (l : list FlValue)
  (body : list byte) (close : byte) (rest : list byte) :
  write_list_elements P [] (S i) l = Ok body ->
  close = "]"%byte \/ close = "}"%byte ->
  value_stops (body ++ close :: rest) = true.
Proof.
  intros H Hc. destruct l as [|v l].
  - injection H as <-. destruct Hc as [-> | ->]; reflexivity.
  - apply write_list_elements_cons in H as (vb & tl & _ & _ & ->). reflexivity.
Qed.

Lemma written_entries_stop (P : Platform) (i : nat) (m : list (FlValue * FlValue))
  (body : list byte) (close : byte) (rest : list byte) :
  write_map_entries P [] (S i) m = Ok body ->
  close = "]"%byte \/ close = "}"%byte ->
  value_stops (body ++ close :: rest) = true.
Proof.
  intros H Hc. destruct m as [|[k v] m].
  - injection H as <-. destruct Hc as [-> | ->]; reflexivity.
  - apply write_map_entries_cons in H as (kb & vb & tl & _ & _ & _ & ->). reflexivity.
Qed.

Lemma read_written_elements (P : Platform) (l : list FlValue) :
  Forall (reads_back P) l ->
  forall acc i body rest,
    (length acc = 0 <-> i = 0)%nat ->
    forallb (round_trips P) l = true ->
    write_list_elements P [] i l = Ok body ->
    exists fuel,
      read_json_array_loop P fuel acc (body ++ "]"%byte :: rest)
      = Ok (FlList (acc ++ l), rest).
Proof.
  induction 1 as [|v l Hv _ IHl]; intros acc i body rest Hi Hrt E.
  - injection E as <-. exists 1%nat. rewrite app_nil_r. reflexivity.
  - simpl in Hrt. apply andb_true_iff in Hrt as [Hrv Hrl].
    apply write_list_elements_cons in E as (vb & tl & Ev & El & ->).
    pose proof (write_value_starts P v vb Hrv Ev) as Hstart.
    destruct (Hv Hrv vb (tl ++ "]"%byte :: rest) Ev
                (written_elements_stop P i l tl "]" rest El (or_introl eq_refl)))
      as [f1 E1].
    destruct (IHl (acc ++ [v]) (S i) tl rest) as [f2 E2]; try assumption.
    { rewrite length_app. simpl. split; intros; lia. }
    exists (S (Nat.max f1 f2)).
    rewrite read_json_array_loop_S. cbv zeta.
    rewrite <- !app_assoc.
    destruct (read_separator_written (length acc) i vb (tl ++ "]"%byte :: rest) _
                Hstart Hi eq_refl) as (Hsep & Hws & H0 & H1 & _).
    rewrite Hws, H0, H1, Hsep. cbn [bind].
    rewrite (read_ok_mono P f1 _ _ _ E1) by lia. cbn [bind].
    unfold fl_value_append.
    rewrite (read_array_ok_mono P f2 _ _ _ _ E2) by lia.
    rewrite <- app_assoc. reflexivity.
Qed.

Lemma keys_distinct_absent (acc m : list (FlValue * FlValue)) (k v : FlValue) :
  keys_distinct (acc ++ (k, v) :: m) = true ->
  forallb (fun kv => negb (fl_value_equal (fst kv) k)) acc = true.
Proof.
  induction acc as [|[a x] acc IH]; simpl; [reflexivity|].
  rewrite andb_true_iff, forallb_app. simpl.
  rewrite !andb_true_iff. intros [(_ & Hk & _) Hd].
  split; [exact Hk | auto].
Qed.

Lemma fl_value_set_absent (acc : list (FlValue * FlValue)) (k v : FlValue) :
  forallb (fun kv => negb (fl_value_equal (fst kv) k)) acc = true ->
  fl_value_set acc k v = acc ++ [(k, v)].
Proof.
  induction acc as [|[a x] acc IH]; simpl; [reflexivity|].
  rewrite andb_true_iff, negb_true_iff. intros [-> H]. rewrite IH by assumption.
  reflexivity.
Qed.

Lemma read_written_entries (P : Platform) (m : list (FlValue * FlValue)) :
  Forall (fun kv => reads_back P (fst kv) /\ reads_back P (snd kv)) m ->
  forall acc i body rest,
    (length acc = 0 <-> i = 0)%nat ->
    forallb (fun kv => let '(k, x) := kv in
                       is_string k && round_trips P k && round_trips P x) m = true ->
    keys_distinct (acc ++ m) = true ->
    write_map_entries P [] i m = Ok body ->
    exists fuel,
      read_json_object_loop P fuel acc (body ++ "}"%byte :: rest)
      = Ok (FlMap (acc ++ m), rest).
Proof.
  induction 1 as [|[k v] m [_ Hv] _ IHm]; intros acc i body rest Hi Hrt Hd E.
  - injection E as <-. exists 1%nat. rewrite app_nil_r. reflexivity.
  - simpl in Hrt, Hv. apply andb_true_iff in Hrt as [Hrkv Hrm].
    apply andb_true_iff in Hrkv as [Hrk Hrv].
    apply andb_true_iff in Hrk as [Hks Hrk].
    destruct k as [ | | | |ks| | | | | | ]; try discriminate Hks.
    apply write_map_entries_cons in E as (kb & vb & tl & Ek & Ev & El & ->).
    pose proof (write_value_starts P _ kb Hrk Ek) as Hkstart.
    pose proof (write_value_starts P v vb Hrv Ev) as Hstart.
    destruct (Hv Hrv vb (tl ++ "}"%byte :: rest) Ev
                (written_entries_stop P i m tl "}" rest El (or_intror eq_refl)))
      as [f1 E1].
    destruct (IHm (acc ++ [(FlString ks, v)]) (S i) tl rest) as [f2 E2];
      try assumption.
    { rewrite length_app. simpl. split; intros; lia. }
    { rewrite <- app_assoc. exact Hd. }
    exists (S (Nat.max f1 f2)).
    rewrite read_json_object_loop_S. cbv zeta.
    rewrite <- !app_assoc.
    destruct (read_separator_written (length acc) i kb
                ([":"%byte] ++ vb ++ tl ++ "}"%byte :: rest) _ Hkstart Hi eq_refl)
      as (Hsep & Hws & H0 & _ & H2).
    rewrite Hws, H0, H2, Hsep. cbn [bind].
    assert (Hq : Byte.eqb (current_char (kb ++ [":"%byte] ++ vb ++ tl ++ "}"%byte :: rest))
                   x22 = true).
    { simpl in Ek. injection Ek as <-. unfold write_char.
      rewrite write_string_chars_app. reflexivity. }
    rewrite Hq. cbn [negb].
    rewrite (read_written_string P ks kb _ Hrk Ek). cbn [bind].
    assert (Hcolon : read_whitespace ([":"%byte] ++ vb ++ tl ++ "}"%byte :: rest)
                     = [":"%byte] ++ vb ++ tl ++ "}"%byte :: rest) by reflexivity.
    rewrite Hcolon.
    change (current_char ([":"%byte] ++ vb ++ tl ++ "}"%byte :: rest)) with ":"%byte.
    change (next_char ([":"%byte] ++ vb ++ tl ++ "}"%byte :: rest))
      with (vb ++ tl ++ "}"%byte :: rest).
    change (negb (Byte.eqb ":" ":")) with false. cbv iota.
    rewrite (read_ok_mono P f1 _ _ _ E1) by lia. cbn [bind].
    rewrite (fl_value_set_absent acc (FlString ks) v (keys_distinct_absent _ _ _ _ Hd)).
    rewrite (read_object_ok_mono P f2 _ _ _ _ E2) by lia.
    rewrite <- app_assoc. reflexivity.
Qed.

Lemma write_int_head (i : Z) (rest : list byte) :
  in_int64_range i = true ->
  Byte.eqb (current_char (write_int [] i ++ rest)) "-" = true
  \/ is_digit (current_char (write_int [] i ++ rest)) = true.
Proof.
  intros Hi. rewrite write_int_text by assumption. unfold integer_literal.
  destruct (i <? 0); [left; reflexivity|right]. cbn [app].
  unfold decimal_width. pose proof (decimal_length_pos 18 (Z.abs i)).
  destruct (decimal_length 19 (Z.abs i)) as [|k]; [lia|].
  rewrite decimal_digits_head by lia. cbn [app current_char].
  apply digit_byte_is_digit.
Qed.

Lemma read_written_value (P : Platform) (v : FlValue) : reads_back P v.
Proof.
  induction v as [ |b|i|d|s|l|l|l|l|l IH|m IH] using FlValue_induction;
    intros Hrt out rest E Hr;
    try discriminate Hrt;
    destruct (value_stops_head rest Hr) as [Hint Hws].
  - injection E as <-. exists 1%nat. simpl.
    rewrite json_digit_to_int_spec. simpl. rewrite Hws. reflexivity.
  - exists 1%nat. destruct b; injection E as <-; simpl;
      rewrite json_digit_to_int_spec; simpl; rewrite Hws; reflexivity.
  - injection E as <-. exists 1%nat.
    rewrite read_value_number.
    + rewrite read_written_int by assumption. simpl. rewrite Hws. reflexivity.
    + apply write_int_head. exact Hrt.
  - exists 1%nat. rewrite read_value_S. cbv zeta.
    pose proof (read_written_string P s out rest Hrt E) as Es.
    simpl in E. injection E as <-. unfold write_char in *.
    rewrite write_string_chars_app in *. simpl app in *.
    simpl read_whitespace. simpl current_char. simpl.
    rewrite Es. simpl. rewrite Hws. reflexivity.
  - apply write_value_list_inv in E as (body & E & ->).
    destruct (read_written_elements P l IH [] 0%nat body rest) as [f Ef];
      try assumption; [split; reflexivity|].
    exists (S f). rewrite read_value_S. cbv zeta. simpl.
    rewrite <- app_assoc. simpl. rewrite Ef. simpl. rewrite Hws. reflexivity.
  - apply write_value_map_inv in E as (body & E & ->).
    change (round_trips P (FlMap m))
      with (forallb (fun kv => let '(k, x) := kv in
                               is_string k && round_trips P k && round_trips P x) m
            && keys_distinct m) in Hrt.
    apply andb_true_iff in Hrt as [Hrm Hd].
    destruct (read_written_entries P m IH [] 0%nat body rest) as [f Ef];
      try assumption; [split; reflexivity|].
    exists (S f). rewrite read_value_S. cbv zeta. simpl.
    rewrite <- app_assoc. simpl. rewrite Ef. simpl. rewrite Hws. reflexivity.
Qed.

Lemma round_trips_finite (P : Platform) (v : FlValue) :
  round_trips P v = true -> contains_nonfinite v = false.
Proof.
  induction v as [ |b|i|d|s|l|l|l|l|l IH|m IH] using FlValue_induction;
    intros H; try reflexivity; try discriminate H.
  - change (contains_nonfinite (FlList l)) with (existsb contains_nonfinite l).
    change (round_trips P (FlList l)) with (forallb (round_trips P) l) in H.
    induction IH as [|v l Hv _ IHl]; [reflexivity|].
    simpl in *. apply andb_true_iff in H as [H1 H2].
    rewrite (Hv H1), (IHl H2). reflexivity.
  - change (contains_nonfinite (FlMap m))
      with (existsb (fun kv => let '(k, x) := kv in
                               contains_nonfinite k || contains_nonfinite x) m).
    change (round_trips P (FlMap m))
      with (forallb (fun kv => let '(k, x) := kv in
                               is_string k && round_trips P k && round_trips P x) m
            && keys_distinct m) in H.
    apply andb_true_iff in H as [H _].
    induction IH as [|[k v] m [Hk Hv] _ IHm]; [reflexivity|].
    simpl in *. apply andb_true_iff in H as [H1 H2].
    apply andb_true_iff in H1 as [H1 H3]. apply andb_true_iff in H1 as [_ H1].
    rewrite (Hk H1), (Hv H3), (IHm H2). reflexivity.
Qed.

(** C1, as amended: for a value made of null, booleans, 64-bit integers,
    strings of bytes that are characters from 0x20 on or one of the control
    characters 0x01 to 0x0a, 0x0c and 0x0d, lists of such values and maps of
    such values under distinct string keys, encoding succeeds and decoding
    the encoding gives the value back. *)
Theorem round_trip (P : Platform) (v : FlValue) :
  round_trips P v = true ->
  exists out,
    fl_json_message_codec_encode_message P (Some v) = Ok out
    /\ fl_json_message_codec_decode_message P out = Ok v.
Proof.
  intros Hrt.
  pose proof (write_value_fails_iff P v []) as Henc.
  rewrite (round_trips_finite P v Hrt) in Henc.
  unfold fl_json_message_codec_encode_message, write_value_nullable.
  destruct (write_value P [] v) as [out|e|] eqn:E.
  - exists out. split; [reflexivity|].
    destruct (read_written_value P v Hrt out [] E eq_refl) as [fuel Hread].
    rewrite app_nil_r in Hread.
    unfold fl_json_message_codec_decode_message.
    rewrite (read_value_at_decode_fuel P fuel out _ Hread). reflexivity.
  - destruct Henc as [Hf _]. discriminate Hf.
  - contradiction.
Qed.

Lemma round_trip_witness :
  exists out,
    fl_json_message_codec_encode_message linux_x64
      (Some (FlMap [(FlString (bytes "a"),
                     FlList [FlInt (-1); FlNull; FlBool true; FlString [x01; x0a; x22]]);
                    (FlString (bytes "b"), FlMap [])])) = Ok out
    /\ fl_json_message_codec_decode_message linux_x64 out
       = Ok (FlMap [(FlString (bytes "a"),
                     FlList [FlInt (-1); FlNull; FlBool true; FlString [x01; x0a; x22]]);
                    (FlString (bytes "b"), FlMap [])]).
Proof.
  apply (round_trip linux_x64). reflexivity.
Defined.

(** C1, as stated, fails: a typed numeric list is written as a JSON array,
    and a JSON array is read as a list of values.  The list of the 64-bit
    integer 1 comes back as the list of the value Int 1. *)
Lemma typed_list_does_not_round_trip :
  fl_json_message_codec_encode_message linux_x64 (Some (FlInt64List [1]))
    = Ok (bytes "[1]")
  /\ fl_json_message_codec_decode_message linux_x64 (bytes "[1]")
    = Ok (FlList [FlInt 1])
  /\ FlList [FlInt 1] <> FlInt64List [1]
  /\ fl_value_equal (FlList [FlInt 1]) (FlInt64List [1]) = false.
Proof. repeat split; try (vm_compute; reflexivity). discriminate. Qed.

(** Further values that do not come back.  The string of the byte 0x10 is
    written with the escape for NUL and read as the empty string (C2); the
    float 1e22 is written as "1e+22.0", which is not read as a number; the
    float 1.5e20 is written as "1.5e+20", of which only "1.5" is read (C3);
    the float 1e-5 is read back as another float. *)
Example more_values_that_do_not_round_trip :
  fl_json_message_codec_decode_message linux_x64 ([x22; x5c] ++ bytes "u0000" ++ [x22])
    = Ok (FlString [])
  /\ fl_json_message_codec_encode_message linux_x64
       (Some (FlFloat (pow10_rounded 22))) = Ok (bytes "1e+22.0")
  /\ fl_json_message_codec_decode_message linux_x64 (bytes "1e+22.0")
     = Err (FL_MESSAGE_CODEC_ERROR_ADDITIONAL_DATA 2)
  /\ fl_json_message_codec_encode_message linux_x64
       (Some (FlFloat (double_mul (double_of_int64 15) (pow10_rounded 19))))
     = Ok (bytes "1.5e+20")
  /\ fl_json_message_codec_decode_message linux_x64 (bytes "1.5e+20")
     = Err (FL_MESSAGE_CODEC_ERROR_ADDITIONAL_DATA 4)
  /\ fl_json_message_codec_encode_message linux_x64
       (Some (FlFloat (S754_finite false 5902958103587057 (-69))))
     = Ok (bytes "1.0000000000000001e-05").
Proof. repeat split; vm_compute; reflexivity. Qed.

(** A list of 64-bit integers is written as the list of its elements as
    values is, and so it is read as that list. *)
Lemma write_int64_list_as_list (P : Platform) (l : list Z) :
  forall buffer i,
    write_list_elements P buffer i (map FlInt l) = Ok (write_int_elements buffer i l).
Proof.
  induction l as [|v l IH]; intros buffer i; [reflexivity|].
  simpl. apply IH.
Qed.

(** What is written for a value that round-trips is read back as that value,
    whatever the fuel of the reader. *)
Lemma decode_written_value (P : Platform) (v : FlValue) (out : list byte) :
  round_trips P v = true -> write_value P [] v = Ok out ->
  fl_json_message_codec_decode_message P out = Ok v.
Proof.
  intros Hrt E.
  destruct (read_written_value P v Hrt out [] E eq_refl) as [fuel Hread].
  rewrite app_nil_r in Hread.
  unfold fl_json_message_codec_decode_message.
  rewrite (read_value_at_decode_fuel P fuel out _ Hread). reflexivity.
Qed.

Lemma write_value_round_trips (P : Platform) (v : FlValue) :
  round_trips P v = true -> exists out, write_value P [] v = Ok out.
Proof.
  intros Hrt.
  pose proof (write_value_fails_iff P v []) as Henc.
  rewrite (round_trips_finite P v Hrt) in Henc.
  destruct (write_value P [] v) as [out|e|].
  - exists out. reflexivity.
  - destruct Henc as [Hf _]. discriminate Hf.
  - contradiction.
Qed.

(** X17. A list of 64-bit integers is encoded, and its encoding is decoded as
    the list of the same integers as values: the typed list is not told
    apart from the plain list on the wire. *)
Lemma int64_list_decodes_as_list (P : Platform) (l : list Z) :
  forallb in_int64_range l = true ->
  exists out,
    fl_json_message_codec_encode_message P (Some (FlInt64List l)) = Ok out
    /\ fl_json_message_codec_decode_message P out = Ok (FlList (map FlInt l)).
Proof.
  intros Hl.
  assert (Hrt : round_trips P (FlList (map FlInt l)) = true).
  { change (forallb (round_trips P) (map FlInt l) = true).
    rewrite forallb_forall in *. intros v Hv.
    apply in_map_iff in Hv as (z & <- & Hz). apply Hl, Hz. }
  destruct (write_value_round_trips P _ Hrt) as (out & E).
  exists out. split.
  - rewrite <- E. unfold fl_json_message_codec_encode_message, write_value_nullable.
    rewrite write_value_list, write_int64_list_as_list. reflexivity.
  - exact (decode_written_value P _ out Hrt E).
Qed.

Lemma int64_list_decodes_as_list_witness :
  exists out,
    fl_json_message_codec_encode_message linux_x64
      (Some (FlInt64List [G_MININT64; 0; G_MAXINT64])) = Ok out
    /\ fl_json_message_codec_decode_message linux_x64 out
       = Ok (FlList (map FlInt [G_MININT64; 0; G_MAXINT64])).
Proof.
  apply (int64_list_decodes_as_list linux_x64 [G_MININT64; 0; G_MAXINT64]).
  reflexivity.
Defined.

(** ** Numeric literals *)

Lemma read_json_digits_loop_inv (P : Platform) (s : cursor) :
  forall value divisor v d r,
    read_json_digits_loop P value divisor s = (v, d, r) ->
    exists digits,
      s = digits ++ r /\ forallb is_digit digits = true
      /\ is_digit (current_char r) = false.
Proof.
  induction s as [|c s IH]; intros value divisor v d r H.
  - simpl in H. injection H as <- <- <-. exists []. auto.
  - cbn [read_json_digits_loop] in H.
    rewrite json_digit_to_int_spec in H.
    destruct (is_digit c) eqn:Hc.
    + assert (E : (byte_val c - 48 <? 0) = false).
      { unfold is_digit in Hc. apply Z.ltb_ge. lia. }
      rewrite E in H. apply IH in H as (digits & -> & Hd & Hr).
      exists (c :: digits). simpl. rewrite Hc, Hd. auto.
    + simpl in H. injection H as <- <- <-. exists []. simpl. auto.
Qed.

Lemma read_json_digits_run (P : Platform) (digits r : list byte) :
  forallb is_digit digits = true ->
  is_digit (current_char r) = false ->
  read_json_digits P (digits ++ r)
  = (digits_accumulated digits, divisor_accumulated digits, r).
Proof. intros Hd Hr. apply read_json_digits_loop_run; assumption. Qed.

Lemma read_json_digits_inv (P : Platform) (s : cursor) v d r :
  read_json_digits P s = (v, d, r) ->
  exists digits,
    s = digits ++ r /\ forallb is_digit digits = true
    /\ is_digit (current_char r) = false
    /\ v = digits_accumulated digits /\ d = divisor_accumulated digits
    /\ (is_digit (current_char s) = true -> nonempty_digits digits = true).
Proof.
  intros H. pose proof H as H'.
  apply read_json_digits_loop_inv in H as (digits & -> & Hd & Hr).
  rewrite read_json_digits_run in H' by assumption. injection H' as <- <-.
  exists digits. repeat split; try assumption.
  destruct digits as [|c digits]; simpl; [congruence | intros _; exact Hd].
Qed.

Lemma digit_test (P : Platform) (c : byte) :
  (json_digit_to_int P c <? 0) = negb (is_digit c).
Proof.
  destruct (is_digit c) eqn:H.
  - apply json_digit_to_int_digit. exact H.
  - apply json_digit_to_int_other. exact H.
Qed.

Lemma nonempty_digits_head (digits rest : list byte) :
  nonempty_digits digits = true ->
  forallb is_digit digits = true
  /\ is_digit (current_char (digits ++ rest)) = true.
Proof.
  destruct digits as [|c digits]; simpl; [discriminate|].
  intros H. split; [exact H|]. apply andb_true_iff in H as [H _]. exact H.
Qed.

Lemma is_integer_part_head (digits rest : list byte) :
  is_integer_part digits = true ->
  forallb is_digit digits = true
  /\ is_digit (current_char (digits ++ rest)) = true
  /\ (Byte.eqb (current_char (digits ++ rest)) "0" = true -> digits = ["0"%byte]).
Proof.
  unfold is_integer_part. destruct digits as [|c digits]; simpl.
  - discriminate.
  - intros H. apply andb_true_iff in H as [Hd Hz]. split; [exact Hd|].
    apply andb_true_iff in Hd as [Hc _]. split; [exact Hc|].
    intros E. rewrite E in Hz. simpl in Hz.
    apply byte_eqb_eq in E. subst c. destruct digits; [reflexivity | discriminate].
Qed.

(** The reader on a literal that it can end at [r]. *)
Lemma read_json_number_literal (P : Platform) (n : number_literal) (r : list byte) :
  number_literal_ok n = true -> number_ends n r = true ->
  read_json_number P (number_text n ++ r) = Ok (number_value P n, r).
Proof.
  destruct n as [negative digits tail].
  unfold number_literal_ok, number_ends, number_text, number_value. simpl.
  intros Hok Hend. apply andb_true_iff in Hok as [Hint Htail].
  rewrite <- !app_assoc.
  set (rest := number_tail_text tail ++ r).
  destruct (is_integer_part_head digits rest Hint) as (Hd & Hc & Hzero).
  assert (Esign : read_json_number_sign P
                    ((if negative then ["-"%byte] else []) ++ digits ++ rest)
                  = Ok ((if negative then -1 else 1),
                        current_char (digits ++ rest), digits ++ rest)).
  { unfold read_json_number_sign. destruct negative; simpl.
    - rewrite digit_test, Hc. reflexivity.
    - destruct (is_digit_cases _ Hc) as (_ & _ & _ & _ & Hminus & _).
      rewrite Hminus. reflexivity. }
  assert (Hrest : is_digit (current_char rest) = false
                  \/ digits = ["0"%byte]).
  { subst rest. destruct tail as [|fd|m sg ed]; simpl in *.
    - apply andb_true_iff in Hend as [_ Hend].
      apply orb_true_iff in Hend as [Hend|Hend].
      + left. apply negb_true_iff. exact Hend.
      + right. destruct digits as [|c [|c' ds]]; try discriminate.
        apply byte_eqb_eq in Hend. subst c. reflexivity.
    - left. reflexivity.
    - left. apply andb_true_iff in Htail as [Htail _].
      apply andb_true_iff in Htail as [Hm _].
      apply orb_true_iff in Hm as [Hm|Hm]; apply byte_eqb_eq in Hm; subst m; reflexivity. }
  assert (Eint : read_json_number_integer P (current_char (digits ++ rest)) (digits ++ rest)
                 = (digits_accumulated digits, rest)).
  { unfold read_json_number_integer.
    destruct (Byte.eqb (current_char (digits ++ rest)) "0") eqn:E0.
    - rewrite (Hzero eq_refl). reflexivity.
    - destruct Hrest as [Hrest|Hrest].
      + rewrite read_json_digits_run by assumption. reflexivity.
      + subst digits. discriminate E0. }
  unfold read_json_number. rewrite Esign. cbn [bind]. rewrite Eint.
  subst rest.
  unfold read_json_number_fraction, read_json_number_exponent.
  destruct tail as [|fd|m sg ed]; simpl in Htail, Hend |- *.
  - apply andb_true_iff in Hend as [Hend _].
    apply negb_true_iff in Hend. rewrite !orb_false_iff in Hend.
    destruct Hend as [[H1 H2] H3]. rewrite H1, H2, H3. reflexivity.
  - destruct (nonempty_digits_head fd r Htail) as [Hfd Hfc].
    apply negb_true_iff in Hend.
    rewrite digit_test, Hfc. cbn [negb].
    rewrite read_json_digits_run by assumption. reflexivity.
  - apply andb_true_iff in Htail as [Htail Hed].
    apply andb_true_iff in Htail as [Hm Hsg].
    destruct (nonempty_digits_head ed r Hed) as [Hedd Hedc].
    apply negb_true_iff in Hend.
    assert (Hdot : Byte.eqb m "." = false).
    { apply orb_true_iff in Hm as [Hm|Hm]; apply byte_eqb_eq in Hm; subst m; reflexivity. }
    rewrite Hdot, Hm. cbn [bind next_char tl].
    destruct sg as [|c [|c' sg]]; try discriminate Hsg.
    + cbn [app].
      destruct (is_digit_cases _ Hedc) as (_ & _ & _ & _ & Hminus & _).
      assert (Hplus : Byte.eqb (current_char (ed ++ r)) "+" = false).
      { destruct (current_char (ed ++ r)); try discriminate Hedc; reflexivity. }
      rewrite Hminus, Hplus, digit_test, Hedc. cbn [negb].
      rewrite read_json_digits_run by assumption. reflexivity.
    + apply orb_true_iff in Hsg as [Hsg|Hsg]; apply byte_eqb_eq in Hsg; subst c;
        simpl; rewrite digit_test, Hedc; cbn [negb];
        rewrite read_json_digits_run by assumption; reflexivity.
Qed.

Lemma read_json_number_sign_inv (P : Platform) (s : cursor) sign c s1 :
  read_json_number_sign P s = Ok (sign, c, s1) ->
  Byte.eqb (current_char s) "-" = true \/ is_digit (current_char s) = true ->
  exists negative : bool,
    s = (if negative then ["-"%byte] else []) ++ s1
    /\ sign = (if negative then -1 else 1)
    /\ c = current_char s1 /\ is_digit c = true.
Proof.
  unfold read_json_number_sign. intros H Hd.
  destruct (Byte.eqb (current_char s) "-") eqn:Hm.
  - rewrite digit_test in H.
    destruct (is_digit (current_char (next_char s))) eqn:Hc; [|discriminate H].
    injection H as <- <- <-. exists true.
    apply byte_eqb_eq in Hm.
    assert (Hs : current_char s <> x00) by (rewrite Hm; discriminate).
    rewrite (current_char_cons s Hs) at 1. rewrite Hm. auto.
  - injection H as <- <- <-. exists false.
    destruct Hd as [Hd|Hd]; [discriminate|]. auto.
Qed.

Lemma head_cons (s : cursor) (c : byte) :
  Byte.eqb (current_char s) c = true -> c <> x00 -> s = c :: next_char s.
Proof.
  intros H Hc. apply byte_eqb_eq in H.
  assert (Hs : current_char s <> x00) by congruence.
  rewrite (current_char_cons s Hs) at 1. rewrite H. reflexivity.
Qed.

Lemma nonempty_digits_integer_part (digits rest : list byte) :
  nonempty_digits digits = true ->
  Byte.eqb (current_char (digits ++ rest)) "0" = false ->
  is_integer_part digits = true.
Proof.
  unfold is_integer_part. destruct digits as [|c digits]; [discriminate|].
  cbn [nonempty_digits app current_char]. intros -> ->. reflexivity.
Qed.

Lemma read_json_number_integer_inv (P : Platform) (c : byte) (s1 : cursor) value s2 :
  read_json_number_integer P c s1 = (value, s2) ->
  c = current_char s1 -> is_digit c = true ->
  exists digits,
    s1 = digits ++ s2 /\ is_integer_part digits = true
    /\ value = digits_accumulated digits
    /\ (is_digit (current_char s2) = false \/ digits = ["0"%byte]).
Proof.
  unfold read_json_number_integer. intros H -> Hc.
  destruct (Byte.eqb (current_char s1) "0") eqn:E0.
  - injection H as <- <-. exists ["0"%byte].
    repeat split; [apply head_cons; [exact E0 | discriminate] | auto].
  - destruct (read_json_digits P s1) as [[v d] s'] eqn:E. injection H as <- <-.
    apply read_json_digits_inv in E as (digits & -> & Hd & Hr & -> & _ & Hne).
    specialize (Hne Hc). exists digits.
    repeat split; [|auto].
    eapply nonempty_digits_integer_part; eassumption.
Qed.

(** What a successful run of the number reader has read. *)
Lemma read_json_number_inv (P : Platform) (s : cursor) (v : FlValue) (r : cursor) :
  read_json_number P s = Ok (v, r) ->
  Byte.eqb (current_char s) "-" = true \/ is_digit (current_char s) = true ->
  exists n,
    number_literal_ok n = true /\ s = number_text n ++ r
    /\ number_ends n r = true /\ v = number_value P n.
Proof.
  unfold read_json_number. intros H Hstart.
  destruct (read_json_number_sign P s) as [[[sign c] s1]| |] eqn:Esign;
    try discriminate H.
  apply read_json_number_sign_inv in Esign as (negative & -> & -> & Ec & Hc);
    [|exact Hstart].
  cbn [bind] in H.
  destruct (read_json_number_integer P c s1) as [value s2] eqn:Eint.
  apply read_json_number_integer_inv in Eint as (digits & -> & Hint & -> & Hrest);
    [|assumption|assumption].
  clear Hstart Ec Hc c.
  unfold read_json_number_fraction, read_json_number_exponent in H.
  destruct (Byte.eqb (current_char s2) ".") eqn:Hdot.
  - (* a fraction *)
    assert (He : (Byte.eqb (current_char s2) "E" || Byte.eqb (current_char s2) "e") = false).
    { apply byte_eqb_eq in Hdot. rewrite Hdot. reflexivity. }
    rewrite He, digit_test in H.
    destruct (is_digit (current_char (next_char s2))) eqn:Hfc; [|discriminate H].
    cbn [negb] in H.
    destruct (read_json_digits P (next_char s2)) as [[f d] s3] eqn:Ef.
    cbn [bind] in H. injection H as <- <-.
    apply read_json_digits_inv in Ef as (fd & Es2 & Hfd & Hr & -> & -> & Hne).
    specialize (Hne Hfc).
    exists {| literal_negative := negative; literal_integer := digits;
              literal_tail := FractionTail fd |}.
    unfold number_literal_ok, number_text, number_ends, number_value.
    cbn [literal_negative literal_integer literal_tail number_tail_ok number_tail_text].
    rewrite Hint, Hne, Hr. repeat split.
    rewrite (head_cons s2 "." Hdot) at 1 by discriminate. rewrite Es2.
    repeat (rewrite <- app_assoc || rewrite <- app_comm_cons). reflexivity.
  - cbn [bind] in H.
    destruct (Byte.eqb (current_char s2) "E" || Byte.eqb (current_char s2) "e") eqn:He.
    + (* an exponent *)
      match type of H with
      | context [let '(_, _) := ?p in _] => destruct p as [es s2'] eqn:Ep
      end.
      rewrite digit_test in H.
      destruct (is_digit (current_char s2')) eqn:Hec; [|discriminate H].
      cbn [negb] in H.
      destruct (read_json_digits P s2') as [[e d] s3] eqn:Ee.
      cbn [bind] in H. injection H as <- <-.
      apply read_json_digits_inv in Ee as (ed & Es2' & Hed & Hr & -> & _ & Hne).
      specialize (Hne Hec).
      assert (Hm : current_char s2 <> x00).
      { intros E. rewrite E in He. discriminate He. }
      assert (Hsg : exists sg,
                 next_char s2 = sg ++ s2'
                 /\ match sg with
                    | [] => true
                    | [c] => Byte.eqb c "-" || Byte.eqb c "+"
                    | _ => false
                    end = true
                 /\ es = match sg with
                         | [c] => if Byte.eqb c "-" then -1 else 1
                         | _ => 1
                         end).
      { destruct (Byte.eqb (current_char (next_char s2)) "-") eqn:E1.
        - injection Ep as <- <-. exists ["-"%byte].
          repeat split. apply head_cons; [exact E1 | discriminate].
        - destruct (Byte.eqb (current_char (next_char s2)) "+") eqn:E2.
          + injection Ep as <- <-. exists ["+"%byte].
            repeat split. apply head_cons; [exact E2 | discriminate].
          + injection Ep as <- <-. exists []. repeat split. }
      destruct Hsg as (sg & Enext & Hsgok & ->).
      exists {| literal_negative := negative; literal_integer := digits;
                literal_tail := ExponentTail (current_char s2) sg ed |}.
      unfold number_literal_ok, number_text, number_ends, number_value.
      cbn [literal_negative literal_integer literal_tail number_tail_ok number_tail_text].
      rewrite Hint, Hne, Hr, He, Hsgok. repeat split.
      rewrite (current_char_cons s2 Hm) at 1. rewrite Enext, Es2'.
      repeat (rewrite <- app_assoc || rewrite <- app_comm_cons). reflexivity.
    + (* an integer *)
      cbn [bind] in H. injection H as <- <-.
      exists {| literal_negative := negative; literal_integer := digits;
                literal_tail := NoTail |}.
      unfold number_literal_ok, number_text, number_ends, number_value.
      cbn [literal_negative literal_integer literal_tail number_tail_ok number_tail_text].
      rewrite Hint, app_nil_r. repeat split; [apply app_assoc|].
      apply orb_false_iff in He as [HE He].
      rewrite Hdot, HE, He. cbn [orb negb andb].
      destruct Hrest as [-> | ->]; [reflexivity|].
      rewrite byte_eqb_refl. apply orb_true_r.
Qed.

(** ** Whitespace between tokens *)

Lemma read_value_skips (P : Platform) (fuel : nat) (w s : list byte) :
  all_whitespace w = true -> read_value P fuel (w ++ s) = read_value P fuel s.
Proof.
  intros Hw. destruct fuel as [|fuel]; [reflexivity|].
  rewrite !read_value_S. cbv zeta. rewrite read_whitespace_app by assumption.
  reflexivity.
Qed.

Lemma read_json_array_loop_skips (P : Platform) (fuel : nat) acc (w s : list byte) :
  all_whitespace w = true ->
  read_json_array_loop P fuel acc (w ++ s) = read_json_array_loop P fuel acc s.
Proof.
  intros Hw. destruct fuel as [|fuel]; [reflexivity|].
  rewrite !read_json_array_loop_S. cbv zeta. rewrite read_whitespace_app by assumption.
  reflexivity.
Qed.

Lemma read_json_object_loop_skips (P : Platform) (fuel : nat) acc (w s : list byte) :
  all_whitespace w = true ->
  read_json_object_loop P fuel acc (w ++ s) = read_json_object_loop P fuel acc s.
Proof.
  intros Hw. destruct fuel as [|fuel]; [reflexivity|].
  rewrite !read_json_object_loop_S. cbv zeta. rewrite read_whitespace_app by assumption.
  reflexivity.
Qed.

Lemma read_value_after_whitespace (P : Platform) (fuel : nat) (s : cursor) :
  read_value P fuel (read_whitespace s) = read_value P fuel s.
Proof.
  destruct (read_whitespace_split s) as (w & E & Hw).
  rewrite E at 2. symmetry. apply read_value_skips. exact Hw.
Qed.

(** Words *)

Lemma read_word_inv (word : list byte) :
  forall s r, forallb (fun c => negb (Byte.eqb c x00)) word = true ->
    read_word s word = Ok r -> s = word ++ r.
Proof.
  induction word as [|w word IH]; intros s r Hw H.
  - injection H as <-. reflexivity.
  - cbn [read_word] in H. cbn [forallb] in Hw.
    apply andb_true_iff in Hw as [Hw0 Hw].
    destruct (Byte.eqb (current_char s) w) eqn:E; [|discriminate H].
    cbn [negb] in H. apply IH in H; [|exact Hw].
    rewrite (head_cons s w E) at 1.
    + rewrite H. reflexivity.
    + apply negb_true_iff, byte_eqb_neq in Hw0. exact Hw0.
Qed.

Lemma read_word_app (word r : list byte) : read_word (word ++ r) word = Ok r.
Proof.
  induction word as [|w word IH]; [reflexivity|].
  cbn [read_word app current_char next_char tl]. rewrite byte_eqb_refl. exact IH.
Qed.

(** Strings *)

Lemma json_xdigit_to_int_nul (P : Platform) : json_xdigit_to_int P x00 = -1.
Proof. destruct P as [[|] ? ?]; reflexivity. Qed.

Lemma read_json_unichar_code_loop_inv (P : Platform) (n : nat) :
  forall wc s wc' r,
    read_json_unichar_code_loop P n wc s = Ok (wc', r) ->
    exists t, s = t ++ r
      /\ forall r', read_json_unichar_code_loop P n wc (t ++ r') = Ok (wc', r').
Proof.
  induction n as [|n IH]; intros wc s wc' r H.
  - injection H as <- <-. exists []. auto.
  - cbn [read_json_unichar_code_loop] in H.
    destruct (json_xdigit_to_int P (current_char s) <? 0) eqn:E; [discriminate H|].
    assert (Hc : current_char s <> x00).
    { intros E0. rewrite E0, json_xdigit_to_int_nul in E. discriminate E. }
    apply IH in H as (t & Et & Hre).
    exists (current_char s :: t). split.
    + rewrite (current_char_cons s Hc) at 1. rewrite Et. reflexivity.
    + intros r'. cbn [read_json_unichar_code_loop app current_char next_char tl].
      rewrite E. apply Hre.
Qed.

Lemma read_json_string_escape_inv (P : Platform) (s : cursor) wc r :
  read_json_string_escape P s = Ok (wc, r) ->
  exists t, s = t ++ r
    /\ forall r', read_json_string_escape P (t ++ r') = Ok (wc, r').
Proof.
  unfold read_json_string_escape, read_json_unichar_code. intros H.
  destruct (Byte.eqb (current_char s) "u") eqn:Eu.
  - apply read_json_unichar_code_loop_inv in H as (t & Et & Hre).
    exists ("u"%byte :: t). split.
    + rewrite (head_cons s "u" Eu) at 1 by discriminate. rewrite Et. reflexivity.
    + intros r'. cbn [app current_char next_char tl]. apply Hre.
  - assert (Hc : current_char s <> x00).
    { intros E0. rewrite E0 in H. discriminate H. }
    exists [current_char s]. split.
    + rewrite (current_char_cons s Hc) at 1.
      destruct (_ : result Z) as [value| |] in H; try discriminate H.
      cbn [bind] in H. injection H as _ <-. reflexivity.
    + intros r'. cbn [app current_char next_char tl]. rewrite Eu.
      destruct (_ : result Z) as [value| |] in H |- *; try discriminate H.
      cbn [bind] in H |- *. injection H as <- _. reflexivity.
Qed.

Lemma read_json_string_loop_inv (P : Platform) (fuel : nat) :
  forall text s v r,
    read_json_string_loop P fuel text s = Ok (v, r) ->
    exists t, s = t ++ r
      /\ forall r', read_json_string_loop P fuel text (t ++ r') = Ok (v, r').
Proof.
  induction fuel as [|fuel IH]; intros text s v r H; [discriminate H|].
  cbn [read_json_string_loop] in H.
  destruct (Byte.eqb (current_char s) x22) eqn:Eq.
  - injection H as <- <-. exists [x22]. split.
    + apply head_cons; [exact Eq | discriminate].
    + intros r'. reflexivity.
  - destruct (Byte.eqb (current_char s) x5c) eqn:Eb.
    + destruct (read_json_string_escape P (next_char s)) as [[wc s']| |] eqn:Ee;
        try discriminate H.
      cbn [bind] in H.
      apply read_json_string_escape_inv in Ee as (te & Ete & Hree).
      apply IH in H as (t & Et & Hre).
      exists (x5c :: te ++ t). split.
      * rewrite (head_cons s x5c Eb) at 1 by discriminate.
        rewrite Ete, Et, <- app_comm_cons, <- app_assoc. reflexivity.
      * intros r'. cbn [read_json_string_loop app current_char next_char tl].
        change (Byte.eqb x5c x22) with false. change (Byte.eqb x5c x5c) with true.
        cbv iota. rewrite <- app_assoc, Hree. cbn [bind]. apply Hre.
    + destruct (Byte.eqb (current_char s) x00) eqn:E0; [discriminate H|].
      destruct (char_to_int P (current_char s) <? 32) eqn:E32; [discriminate H|].
      apply IH in H as (t & Et & Hre).
      exists (current_char s :: t). split.
      * apply byte_eqb_neq in E0. rewrite (current_char_cons s E0) at 1.
        rewrite Et. reflexivity.
      * intros r'. cbn [read_json_string_loop app current_char next_char tl].
        rewrite Eq, Eb, E0, E32. apply Hre.
Qed.

Lemma read_json_string_loop_any_fuel (P : Platform) (fuel fuel' : nat) text s x :
  read_json_string_loop P fuel text s = Ok x -> (length s < fuel')%nat ->
  read_json_string_loop P fuel' text s = Ok x.
Proof.
  intros H Hlen.
  pose proof (read_json_string_loop_enough P fuel' text s Hlen) as Hne.
  pose proof (read_json_string_loop_mono P fuel (Nat.max fuel fuel') text s
                ltac:(lia)) as M1.
  pose proof (read_json_string_loop_mono P fuel' (Nat.max fuel fuel') text s
                ltac:(lia)) as M2.
  apply (refines_ok _ _ _ M1) in H.
  apply refines_done in M2; [|assumption]. congruence.
Qed.

(** What a successful run of the string reader has read: a literal from its
    opening quote to its closing quote, read in the same way before any
    other bytes. *)
Lemma read_json_string_inv (P : Platform) (s : cursor) (v : FlValue) (r : cursor) :
  Byte.eqb (current_char s) x22 = true ->
  read_json_string P s = Ok (v, r) ->
  exists t, s = t ++ r /\ is_string_token P t = true
    /\ forall r', read_json_string P (t ++ r') = Ok (v, r').
Proof.
  intros Hq H. unfold read_json_string in H.
  apply read_json_string_loop_inv in H as (t & Et & Hre).
  assert (Hall : forall r', read_json_string P ((x22 :: t) ++ r') = Ok (v, r')).
  { intros r'. unfold read_json_string. cbn [app next_char tl].
    eapply read_json_string_loop_any_fuel; [apply Hre|].
    cbn [length]. lia. }
  exists (x22 :: t). split; [|split].
  - rewrite (head_cons s x22 Hq) at 1 by discriminate. rewrite Et. reflexivity.
  - unfold is_string_token. specialize (Hall []). rewrite app_nil_r in Hall.
    rewrite Hall. reflexivity.
  - exact Hall.
Qed.

(** Layouts *)

Lemma render_app (a b : layout) : render (a ++ b) = render a ++ render b.
Proof. apply flat_map_app. Qed.

Lemma render_cons (w t : list byte) (ts : layout) :
  render ((w, t) :: ts) = w ++ t ++ render ts.
Proof. unfold render. cbn [flat_map fst snd]. symmetry. apply app_assoc. Qed.

Lemma tokens_cons_inv (ts' : layout) (t : list byte) (toks : list (list byte)) :
  tokens ts' = t :: toks ->
  exists w' tl', ts' = (w', t) :: tl' /\ tokens tl' = toks.
Proof.
  destruct ts' as [|[w' t'] tl']; [discriminate|].
  cbn [tokens map snd]. intros H. injection H as -> <-. eauto.
Qed.

Lemma tokens_app_inv (ts' a b : layout) :
  tokens ts' = tokens (a ++ b) ->
  exists a' b', ts' = a' ++ b' /\ tokens a' = tokens a /\ tokens b' = tokens b.
Proof.
  unfold tokens. rewrite map_app. intros H.
  apply map_eq_app in H as (a' & b' & E & Ha & Hb). eauto.
Qed.

Lemma tokens_nil_inv (ts' : layout) : tokens ts' = [] -> ts' = [].
Proof. destruct ts'; [reflexivity | discriminate]. Qed.

Lemma spaced_app (a b : layout) : spaced (a ++ b) = spaced a && spaced b.
Proof. apply forallb_app. Qed.

Lemma spaced_cons (w t : list byte) (ts : layout) :
  spaced ((w, t) :: ts) = all_whitespace w && spaced ts.
Proof. reflexivity. Qed.

Lemma tokens_app (a b : layout) : tokens (a ++ b) = tokens a ++ tokens b.
Proof. apply map_app. Qed.

Lemma first_token_stops_inv (ts : layout) :
  first_token_stops ts = true ->
  exists w c t tl, ts = (w, c :: t) :: tl
    /\ forall rest, value_stops ((c :: t) ++ rest) = true.
Proof.
  destruct ts as [|[w [|c t]] tl]; try discriminate.
  cbn [first_token_stops]. intros H. exists w, c, t, tl. split; [reflexivity|].
  intros rest. exact H.
Qed.

(** One step of each reader, forwards *)

Lemma read_value_ok_head (P : Platform) (fuel : nat) (s : cursor) x :
  read_value P fuel s = Ok x ->
  Byte.eqb (current_char (read_whitespace s)) x00 = false
  /\ Byte.eqb (current_char (read_whitespace s)) "]" = false
  /\ Byte.eqb (current_char (read_whitespace s)) "}" = false.
Proof.
  destruct fuel as [|fuel]; [discriminate|].
  rewrite read_value_S. cbv zeta. intros H.
  repeat split.
  - destruct (Byte.eqb (current_char (read_whitespace s)) x00) eqn:E; [|reflexivity].
    apply byte_eqb_eq in E. rewrite E, json_digit_to_int_spec in H. discriminate H.
  - destruct (Byte.eqb (current_char (read_whitespace s)) "]") eqn:E; [|reflexivity].
    apply byte_eqb_eq in E. rewrite E, json_digit_to_int_spec in H. discriminate H.
  - destruct (Byte.eqb (current_char (read_whitespace s)) "}") eqn:E; [|reflexivity].
    apply byte_eqb_eq in E. rewrite E, json_digit_to_int_spec in H. discriminate H.
Qed.

Lemma read_value_object (P : Platform) (fuel : nat) (w s : list byte) v (s2 : cursor) :
  all_whitespace w = true ->
  read_json_object_loop P fuel [] s = Ok (v, s2) ->
  read_value P (S fuel) (w ++ "{"%byte :: s) = Ok (v, read_whitespace s2).
Proof.
  intros Hw H. rewrite read_value_skips by assumption.
  rewrite read_value_S. cbv zeta.
  change (read_whitespace ("{"%byte :: s)) with ("{"%byte :: s).
  cbn [current_char next_char tl]. change (Byte.eqb "{" "{") with true. cbv iota.
  rewrite H. reflexivity.
Qed.

Lemma read_value_array (P : Platform) (fuel : nat) (w s : list byte) v (s2 : cursor) :
  all_whitespace w = true ->
  read_json_array_loop P fuel [] s = Ok (v, s2) ->
  read_value P (S fuel) (w ++ "["%byte :: s) = Ok (v, read_whitespace s2).
Proof.
  intros Hw H. rewrite read_value_skips by assumption.
  rewrite read_value_S. cbv zeta.
  change (read_whitespace ("["%byte :: s)) with ("["%byte :: s).
  cbn [current_char next_char tl]. change (Byte.eqb "[" "{") with false.
  change (Byte.eqb "[" "[") with true. cbv iota.
  rewrite H. reflexivity.
Qed.

Lemma read_value_string (P : Platform) (fuel : nat) (w s : list byte) v (s2 : cursor) :
  all_whitespace w = true ->
  Byte.eqb (current_char s) x22 = true ->
  read_json_string P s = Ok (v, s2) ->
  read_value P (S fuel) (w ++ s) = Ok (v, read_whitespace s2).
Proof.
  intros Hw Hq H. rewrite read_value_skips by assumption.
  rewrite read_value_S. cbv zeta.
  apply byte_eqb_eq in Hq.
  rewrite (read_whitespace_stop s) by (rewrite Hq; reflexivity).
  rewrite Hq. change (Byte.eqb x22 "{") with false. change (Byte.eqb x22 "[") with false.
  change (Byte.eqb x22 x22) with true. cbv iota. rewrite H. reflexivity.
Qed.

Lemma read_value_word (P : Platform) (fuel : nat) (w r : list byte) :
  all_whitespace w = true ->
  read_value P (S fuel) (w ++ bytes "true" ++ r) = Ok (FlBool true, read_whitespace r)
  /\ read_value P (S fuel) (w ++ bytes "false" ++ r) = Ok (FlBool false, read_whitespace r)
  /\ read_value P (S fuel) (w ++ bytes "null" ++ r) = Ok (FlNull, read_whitespace r).
Proof.
  intros Hw. repeat split; rewrite read_value_skips by assumption;
    rewrite read_value_S; cbv zeta.
  - change (read_whitespace (bytes "true" ++ r)) with (bytes "true" ++ r).
    change (current_char (bytes "true" ++ r)) with "t"%byte.
    rewrite json_digit_to_int_spec. reflexivity.
  - change (read_whitespace (bytes "false" ++ r)) with (bytes "false" ++ r).
    change (current_char (bytes "false" ++ r)) with "f"%byte.
    rewrite json_digit_to_int_spec. reflexivity.
  - change (read_whitespace (bytes "null" ++ r)) with (bytes "null" ++ r).
    change (current_char (bytes "null" ++ r)) with "n"%byte.
    rewrite json_digit_to_int_spec. reflexivity.
Qed.

Lemma number_text_head (n : number_literal) (rest : list byte) :
  number_literal_ok n = true ->
  Byte.eqb (current_char (number_text n ++ rest)) "-" = true
  \/ is_digit (current_char (number_text n ++ rest)) = true.
Proof.
  destruct n as [[|] digits tail]; unfold number_literal_ok, number_text;
    cbn [literal_negative literal_integer literal_tail]; intros H.
  - left. reflexivity.
  - right. apply andb_true_iff in H as [H _].
    cbn [app]. rewrite <- app_assoc.
    apply (is_integer_part_head digits) with (rest := number_tail_text tail ++ rest) in H.
    apply H.
Qed.

Lemma forallb_digit_number_char (digits : list byte) :
  forallb is_digit digits = true -> forallb is_number_char digits = true.
Proof.
  intros H. rewrite forallb_forall in *. intros c Hc. apply H in Hc.
  unfold is_number_char. rewrite Hc. reflexivity.
Qed.

Lemma number_text_chars (n : number_literal) :
  number_literal_ok n = true -> is_number_token (number_text n) = true.
Proof.
  intros H.
  assert (Hne : number_text n <> []).
  { destruct (number_text_head n [] H) as [E|E]; rewrite app_nil_r in E;
      destruct (number_text n); [discriminate E | discriminate | discriminate E | discriminate]. }
  assert (Hall : forallb is_number_char (number_text n) = true).
  { destruct n as [negative digits tail]. unfold number_literal_ok, number_text in *.
    cbn [literal_negative literal_integer literal_tail] in *.
    apply andb_true_iff in H as [Hint Htail].
    apply (is_integer_part_head digits []) in Hint as (Hd & _).
    rewrite !forallb_app. rewrite (forallb_digit_number_char _ Hd).
    assert (Hneg : forallb is_number_char (if negative then ["-"%byte] else []) = true)
      by (destruct negative; reflexivity).
    rewrite Hneg. cbn [andb].
    destruct tail as [|fd|marker sign ed]; cbn [number_tail_text number_tail_ok] in *.
    - reflexivity.
    - apply (nonempty_digits_head fd []) in Htail as (Hd' & _).
      cbn [forallb]. rewrite (forallb_digit_number_char _ Hd'). reflexivity.
    - apply andb_true_iff in Htail as [Htail Hed].
      apply andb_true_iff in Htail as [Hm Hs].
      apply (nonempty_digits_head ed []) in Hed as (Hd' & _).
      cbn [forallb]. rewrite forallb_app, (forallb_digit_number_char _ Hd').
      assert (Hmc : is_number_char marker = true).
      { apply orb_true_iff in Hm as [Hm|Hm]; apply byte_eqb_eq in Hm; subst marker;
          reflexivity. }
      rewrite Hmc.
      destruct sign as [|c [|? ?]]; try discriminate Hs; [reflexivity|].
      apply orb_true_iff in Hs as [Hs|Hs]; apply byte_eqb_eq in Hs; subst c;
        reflexivity. }
  unfold is_number_token. destruct (number_text n); [congruence | exact Hall].
Qed.

Lemma number_ends_delimited (n : number_literal) (w r : list byte) :
  all_whitespace w = true -> value_stops r = true -> number_ends n (w ++ r) = true.
Proof.
  intros Hw Hr.
  assert (H : is_digit (current_char (w ++ r)) = false
              /\ Byte.eqb (current_char (w ++ r)) "." = false
              /\ Byte.eqb (current_char (w ++ r)) "e" = false
              /\ Byte.eqb (current_char (w ++ r)) "E" = false).
  { destruct w as [|c w].
    - destruct r as [|c r]; [repeat split; reflexivity|].
      cbn [app current_char]. cbn [value_stops] in Hr.
      rewrite !orb_true_iff, !byte_eqb_eq in Hr.
      destruct Hr as [[->| ->]| ->]; repeat split; reflexivity.
    - cbn [app current_char]. cbn [all_whitespace forallb] in Hw.
      apply andb_true_iff in Hw as [Hc _]. unfold is_json_whitespace in Hc.
      rewrite !orb_true_iff, !byte_eqb_eq in Hc.
      destruct Hc as [[[->| ->]| ->]| ->]; repeat split; reflexivity. }
  destruct H as (Hd & H1 & H2 & H3).
  unfold number_ends. rewrite Hd, H1, H2, H3. destruct (literal_tail n); reflexivity.
Qed.

Lemma read_value_literal (P : Platform) (fuel : nat) (n : number_literal)
  (w w' r : list byte) :
  all_whitespace w = true -> number_literal_ok n = true ->
  all_whitespace w' = true -> value_stops r = true ->
  read_value P (S fuel) (w ++ number_text n ++ w' ++ r) = Ok (number_value P n, r).
Proof.
  intros Hw Hok Hw' Hr. rewrite read_value_skips by assumption.
  rewrite read_value_number by (apply number_text_head; exact Hok).
  rewrite read_json_number_literal
    by (try assumption; apply number_ends_delimited; assumption).
  cbn [bind]. rewrite read_whitespace_app by assumption.
  rewrite (proj2 (value_stops_head r Hr)). reflexivity.
Qed.

(** One iteration of the array loop *)

Lemma read_json_array_loop_end (P : Platform) (fuel : nat) acc (w r : list byte) :
  all_whitespace w = true ->
  read_json_array_loop P (S fuel) acc (w ++ "]"%byte :: r) = Ok (FlList acc, r).
Proof.
  intros Hw. rewrite read_json_array_loop_S. cbv zeta.
  rewrite read_whitespace_app by assumption. reflexivity.
Qed.

Lemma read_json_array_loop_element (P : Platform) (f1 f2 : nat) acc
  (pre s : list byte) child (s3 : cursor) x :
  separated acc pre ->
  read_value P f1 s = Ok (child, s3) ->
  read_json_array_loop P f2 (fl_value_append acc child) s3 = Ok x ->
  exists fuel, read_json_array_loop P fuel acc (pre ++ s) = Ok x.
Proof.
  intros Hsep Hv Ha. exists (S (Nat.max f1 f2)).
  apply read_ok_mono with (fuel' := Nat.max f1 f2) in Hv; [|lia].
  apply read_array_ok_mono with (fuel' := Nat.max f1 f2) in Ha; [|lia].
  rewrite read_json_array_loop_S. cbv zeta.
  destruct Hsep as [[-> ->]|(Hacc & w & Hw & ->)].
  - cbn [app]. destruct (read_value_ok_head _ _ _ _ Hv) as (E0 & E1 & _).
    rewrite E0, E1. cbn [length Nat.eqb negb bind].
    rewrite read_value_after_whitespace, Hv. cbn [bind]. exact Ha.
  - rewrite <- app_assoc. rewrite read_whitespace_app by assumption.
    change (read_whitespace ([","%byte] ++ s)) with (","%byte :: s).
    cbn [current_char]. change (Byte.eqb "," x00) with false.
    change (Byte.eqb "," "]") with false. cbv iota.
    destruct acc as [|a acc]; [contradiction|].
    cbn [length Nat.eqb negb]. unfold read_comma. cbn [current_char next_char tl].
    change (Byte.eqb "," ",") with true. cbn [negb bind].
    rewrite read_value_after_whitespace, Hv. cbn [bind]. exact Ha.
Qed.

Lemma read_json_array_loop_inv (P : Platform) (fuel : nat) acc (s : cursor) v r :
  read_json_array_loop P (S fuel) acc s = Ok (v, r) ->
  (exists w, all_whitespace w = true /\ s = w ++ "]"%byte :: r /\ v = FlList acc)
  \/ (exists pre s' child s3,
        s = pre ++ s' /\ separated acc pre
        /\ read_value P fuel s' = Ok (child, s3)
        /\ read_json_array_loop P fuel (fl_value_append acc child) s3 = Ok (v, r)).
Proof.
  rewrite read_json_array_loop_S. cbv zeta.
  destruct (read_whitespace_split s) as (w0 & Es & Hw0).
  set (s1 := read_whitespace s) in *. intros H.
  destruct (Byte.eqb (current_char s1) x00) eqn:E0; [discriminate H|].
  destruct (Byte.eqb (current_char s1) "]") eqn:E1.
  - injection H as <- <-. left. exists w0. repeat split; [exact Hw0|].
    rewrite Es at 1. f_equal. apply head_cons; [exact E1 | discriminate].
  - right. destruct acc as [|a acc].
    + cbn [length Nat.eqb negb bind] in H.
      destruct (read_value P fuel s1) as [[child s3]| |] eqn:Ev; try discriminate H.
      cbn [bind] in H. unfold s1 in Ev. rewrite read_value_after_whitespace in Ev.
      exists [], s, child, s3. repeat split; try assumption. left. auto.
    + cbn [length Nat.eqb negb] in H. unfold read_comma in H.
      destruct (Byte.eqb (current_char s1) ",") eqn:Ec; [|discriminate H].
      cbn [negb bind] in H.
      destruct (read_value P fuel (read_whitespace (next_char s1)))
        as [[child s3]| |] eqn:Ev; try discriminate H.
      cbn [bind] in H. rewrite read_value_after_whitespace in Ev.
      exists (w0 ++ [","%byte]), (next_char s1), child, s3. repeat split; try assumption.
      * rewrite Es at 1. rewrite <- app_assoc. f_equal.
        apply head_cons; [exact Ec | discriminate].
      * right. split; [discriminate|]. exists w0. auto.
Qed.

(** One iteration of the object loop *)

Lemma read_json_object_loop_end (P : Platform) (fuel : nat) acc (w r : list byte) :
  all_whitespace w = true ->
  read_json_object_loop P (S fuel) acc (w ++ "}"%byte :: r) = Ok (FlMap acc, r).
Proof.
  intros Hw. rewrite read_json_object_loop_S. cbv zeta.
  rewrite read_whitespace_app by assumption. reflexivity.
Qed.

Lemma string_token_head (P : Platform) (tk rest : list byte) :
  is_string_token P tk = true ->
  Byte.eqb (current_char (tk ++ rest)) x22 = true
  /\ read_whitespace (tk ++ rest) = tk ++ rest.
Proof.
  unfold is_string_token. intros H. apply andb_true_iff in H as [H _].
  destruct tk as [|c tk]; [discriminate H|]. cbn [current_char app] in *.
  apply byte_eqb_eq in H. subst c. split; reflexivity.
Qed.

Lemma read_json_object_loop_entry (P : Platform) (f1 f2 : nat) acc
  (pre w1 tk w2 s : list byte) key value (s6 : cursor) x :
  separated acc pre ->
  all_whitespace w1 = true -> all_whitespace w2 = true ->
  is_string_token P tk = true ->
  (forall r', read_json_string P (tk ++ r') = Ok (key, r')) ->
  read_value P f1 s = Ok (value, s6) ->
  read_json_object_loop P f2 (fl_value_set acc key value) s6 = Ok x ->
  exists fuel,
    read_json_object_loop P fuel acc (pre ++ w1 ++ tk ++ w2 ++ ":"%byte :: s) = Ok x.
Proof.
  intros Hsep Hw1 Hw2 Htk Hkey Hv Ho. exists (S (Nat.max f1 f2)).
  apply read_ok_mono with (fuel' := Nat.max f1 f2) in Hv; [|lia].
  apply read_object_ok_mono with (fuel' := Nat.max f1 f2) in Ho; [|lia].
  destruct (string_token_head P tk (w2 ++ ":"%byte :: s) Htk) as (Hq & Hstop).
  assert (Hrest :
    (let s := tk ++ w2 ++ ":"%byte :: s in
     let c := current_char s in
     if negb (Byte.eqb c x22) then Err FL_JSON_MESSAGE_CODEC_ERROR_INVALID_OBJECT_KEY_TYPE
     else
       do (key, s) <- read_json_string P s;
       let s := read_whitespace s in
       let c := current_char s in
       if negb (Byte.eqb c ":") then Err FL_MESSAGE_CODEC_ERROR_FAILED
       else
         let s := next_char s in
         do (value, s) <- read_value P (Nat.max f1 f2) s;
         read_json_object_loop P (Nat.max f1 f2) (fl_value_set acc key value) s)
    = Ok x).
  { cbv zeta. rewrite Hq. cbn [negb]. rewrite Hkey. cbn [bind].
    rewrite read_whitespace_app by assumption.
    change (read_whitespace (":"%byte :: s)) with (":"%byte :: s).
    cbn [current_char next_char tl]. change (Byte.eqb ":" ":") with true.
    cbn [negb]. rewrite Hv. cbn [bind]. exact Ho. }
  rewrite read_json_object_loop_S. cbv zeta.
  destruct Hsep as [[-> ->]|(Hacc & w & Hw & ->)].
  - cbn [app]. rewrite read_whitespace_app by assumption. rewrite Hstop.
    apply byte_eqb_eq in Hq. rewrite Hq.
    change (Byte.eqb x22 x00) with false. change (Byte.eqb x22 "}") with false.
    cbv iota. cbn [length Nat.eqb negb bind]. exact Hrest.
  - rewrite <- app_assoc. rewrite read_whitespace_app by assumption.
    change (read_whitespace ([","%byte] ++ ?r)) with (","%byte :: r).
    cbn [app current_char]. change (Byte.eqb "," x00) with false.
    change (Byte.eqb "," "}") with false. cbv iota.
    destruct acc as [|a acc]; [contradiction|].
    cbn [length Nat.eqb negb]. unfold read_comma. cbn [current_char next_char tl].
    change (Byte.eqb "," ",") with true. cbn [negb bind].
    rewrite read_whitespace_app by assumption. rewrite Hstop. exact Hrest.
Qed.

Lemma read_json_object_loop_inv (P : Platform) (fuel : nat) acc (s : cursor) v r :
  read_json_object_loop P (S fuel) acc s = Ok (v, r) ->
  (exists w, all_whitespace w = true /\ s = w ++ "}"%byte :: r /\ v = FlMap acc)
  \/ (exists pre w1 tk w2 s5 key value s6,
        s = pre ++ w1 ++ tk ++ w2 ++ ":"%byte :: s5 /\ separated acc pre
        /\ all_whitespace w1 = true /\ all_whitespace w2 = true
        /\ is_string_token P tk = true
        /\ (forall r', read_json_string P (tk ++ r') = Ok (key, r'))
        /\ read_value P fuel s5 = Ok (value, s6)
        /\ read_json_object_loop P fuel (fl_value_set acc key value) s6 = Ok (v, r)).
Proof.
  rewrite read_json_object_loop_S. cbv zeta.
  destruct (read_whitespace_split s) as (w0 & Es & Hw0).
  set (s1 := read_whitespace s) in *. intros H.
  destruct (Byte.eqb (current_char s1) x00) eqn:E0; [discriminate H|].
  destruct (Byte.eqb (current_char s1) "}") eqn:E1.
  - injection H as <- <-. left. exists w0. repeat split; [exact Hw0|].
    rewrite Es at 1. f_equal. apply head_cons; [exact E1 | discriminate].
  - right.
    assert (Hrest : forall s2,
      (let c := current_char s2 in
       if negb (Byte.eqb c x22) then Err FL_JSON_MESSAGE_CODEC_ERROR_INVALID_OBJECT_KEY_TYPE
       else
         do (key, s) <- read_json_string P s2;
         let s := read_whitespace s in
         let c := current_char s in
         if negb (Byte.eqb c ":") then Err FL_MESSAGE_CODEC_ERROR_FAILED
         else
           let s := next_char s in
           do (value, s) <- read_value P fuel s;
           read_json_object_loop P fuel (fl_value_set acc key value) s)
      = Ok (v, r) ->
      exists tk w2 s5 key value s6,
        s2 = tk ++ w2 ++ ":"%byte :: s5
        /\ all_whitespace w2 = true /\ is_string_token P tk = true
        /\ (forall r', read_json_string P (tk ++ r') = Ok (key, r'))
        /\ read_value P fuel s5 = Ok (value, s6)
        /\ read_json_object_loop P fuel (fl_value_set acc key value) s6 = Ok (v, r)).
    { intros s2. cbv zeta. intros H2.
      destruct (Byte.eqb (current_char s2) x22) eqn:Eq; [|discriminate H2].
      cbn [negb] in H2.
      destruct (read_json_string P s2) as [[key s3]| |] eqn:Ek; try discriminate H2.
      cbn [bind] in H2.
      destruct (read_whitespace_split s3) as (w2 & Es3 & Hw2).
      set (s4 := read_whitespace s3) in *.
      destruct (Byte.eqb (current_char s4) ":") eqn:Ec; [|discriminate H2].
      cbn [negb] in H2.
      destruct (read_value P fuel (next_char s4)) as [[value s6]| |] eqn:Ev;
        try discriminate H2.
      cbn [bind] in H2.
      destruct (read_json_string_inv P s2 key s3 Eq Ek) as (tk & Etk & Htk & Hall).
      exists tk, w2, (next_char s4), key, value, s6. repeat split; try assumption.
      rewrite Etk at 1. f_equal. rewrite Es3 at 1. f_equal.
      apply head_cons; [exact Ec | discriminate]. }
    destruct acc as [|a acc].
    + cbn [length Nat.eqb negb bind] in H.
      apply Hrest in H as (tk & w2 & s5 & key & value & s6 & E & Hw2 & Htk & Hall & Hv & Ho).
      exists [], w0, tk, w2, s5, key, value, s6. repeat split; try assumption.
      * cbn [app]. rewrite Es at 1. f_equal. exact E.
      * left. auto.
    + cbn [length Nat.eqb negb] in H. unfold read_comma in H.
      destruct (Byte.eqb (current_char s1) ",") eqn:Ec; [|discriminate H].
      cbn [negb bind] in H.
      destruct (read_whitespace_split (next_char s1)) as (w1 & Es1 & Hw1).
      apply Hrest in H as (tk & w2 & s5 & key & value & s6 & E & Hw2 & Htk & Hall & Hv & Ho).
      exists (w0 ++ [","%byte]), w1, tk, w2, s5, key, value, s6.
      repeat split; try assumption.
      * rewrite Es at 1. rewrite <- app_assoc. f_equal.
        rewrite (head_cons s1 "," Ec) at 1 by discriminate.
        cbn [app]. f_equal. rewrite Es1 at 1. f_equal. exact E.
      * right. split; [discriminate|]. exists w0. auto.
Qed.

(** ** What a successful run has read

    A run that returns a value has read a sequence of tokens with whitespace
    between them, and reads the same value from the same tokens with any
    other whitespace between them. *)

Lemma value_stops_token (c : byte) (t rest : list byte) :
  value_stops (c :: t) = true -> value_stops ((c :: t) ++ rest) = true.
Proof. intros H. exact H. Qed.

Lemma is_token_number (P : Platform) (t : list byte) :
  is_number_token t = true -> is_token P t = true.
Proof. unfold is_token. intros ->. rewrite orb_true_r. reflexivity. Qed.

Lemma is_token_string (P : Platform) (t : list byte) :
  is_string_token P t = true -> is_token P t = true.
Proof. unfold is_token. intros ->. apply orb_true_r. Qed.

Lemma digit_dispatch (P : Platform) (c : byte) :
  Byte.eqb c "-" || (0 <=? json_digit_to_int P c) = true ->
  Byte.eqb c "-" = true \/ is_digit c = true.
Proof.
  rewrite json_digit_to_int_spec. intros H. apply orb_true_iff in H as [H|H]; [auto|].
  right. destruct (is_digit c); [reflexivity | discriminate H].
Qed.

Ltac layout_eq :=
  repeat (rewrite render_app || rewrite render_cons); cbn [render flat_map app];
  rewrite ?app_nil_r, <- ?app_assoc; cbn [app]; reflexivity.

Ltac relayout t :=
  match goal with
  | |- read_value _ _ ?i = _ => replace i with t by layout_eq
  | |- read_json_array_loop _ _ _ ?i = _ => replace i with t by layout_eq
  | |- read_json_object_loop _ _ _ ?i = _ => replace i with t by layout_eq
  | |- exists fuel, read_json_array_loop _ _ _ ?i = _ => replace i with t by layout_eq
  | |- exists fuel, read_json_object_loop _ _ _ ?i = _ => replace i with t by layout_eq
  end.

Lemma reads_layout (P : Platform) (fuel : nat) :
  (forall s v r,
      read_value P fuel s = Ok (v, r) ->
      exists ts w,
        s = render ts ++ w ++ r /\ spaced ts = true /\ all_whitespace w = true
        /\ forallb (is_token P) (tokens ts) = true
        /\ value_rereads P ts v)
  /\ (forall acc s v r,
      read_json_array_loop P fuel acc s = Ok (v, r) ->
      exists ts,
        s = render ts ++ r /\ spaced ts = true
        /\ forallb (is_token P) (tokens ts) = true
        /\ (acc <> [] -> first_token_stops ts = true)
        /\ array_rereads P acc ts v)
  /\ (forall acc s v r,
      read_json_object_loop P fuel acc s = Ok (v, r) ->
      exists ts,
        s = render ts ++ r /\ spaced ts = true
        /\ forallb (is_token P) (tokens ts) = true
        /\ (acc <> [] -> first_token_stops ts = true)
        /\ object_rereads P acc ts v).
Proof.
  induction fuel as [|fuel (IHv & IHa & IHo)];
    [repeat split; intros; discriminate|].
  split; [|split].
  - (* read_value *)
    intros s v r H. rewrite read_value_S in H. cbv zeta in H.
    destruct (read_whitespace_split s) as (w0 & Es & Hw0).
    remember (read_whitespace s) as s1 eqn:Hs1. clear Hs1.
    match type of H with
    | bind ?x _ = _ => destruct x as [[value s2]| |] eqn:Ein; try discriminate H
    end.
    cbn [bind] in H. injection H as <- <-.
    destruct (read_whitespace_split s2) as (w & Es2 & Hw).
    destruct (Byte.eqb (current_char s1) "{") eqn:E1;
      [|destruct (Byte.eqb (current_char s1) "[") eqn:E2;
        [|destruct (Byte.eqb (current_char s1) x22) eqn:E3;
          [|destruct (Byte.eqb (current_char s1) "-"
                      || (0 <=? json_digit_to_int P (current_char s1))) eqn:E4;
            [|destruct (Byte.eqb (current_char s1) "t") eqn:E5;
              [|destruct (Byte.eqb (current_char s1) "f") eqn:E6;
                [|destruct (Byte.eqb (current_char s1) "n") eqn:E7;
                  [|destruct (Byte.eqb (current_char s1) x00);
                    discriminate Ein]]]]]]].
    + (* an object *)
      apply IHo in Ein as (to & Eo & Hsp & Htok & _ & Hre).
      exists ((w0, ["{"%byte]) :: to), w. repeat split.
      * rewrite render_cons, <- !app_assoc. rewrite Es at 1. f_equal.
        rewrite (head_cons s1 "{" E1) at 1 by discriminate.
        cbn [app]. f_equal. rewrite Eo. f_equal. exact Es2.
      * rewrite spaced_cons, Hw0, Hsp. reflexivity.
      * exact Hw.
      * cbn [tokens map snd forallb]. exact Htok.
      * intros ts' w' r' Ht Hs' Hw' Hr'.
        apply tokens_cons_inv in Ht as (w0' & to' & -> & Ht).
        rewrite spaced_cons in Hs'. apply andb_true_iff in Hs' as [Hw0' Hs'].
        destruct (Hre to' (w' ++ r') Ht Hs') as (f1 & Hrun).
        exists (S f1). relayout (w0' ++ "{"%byte :: render to' ++ w' ++ r').
        rewrite (read_value_object P f1 w0' _ _ _ Hw0' Hrun).
        rewrite read_whitespace_app by assumption.
        rewrite (proj2 (value_stops_head r' Hr')). reflexivity.
    + (* an array *)
      apply IHa in Ein as (ta & Ea & Hsp & Htok & _ & Hre).
      exists ((w0, ["["%byte]) :: ta), w. repeat split.
      * rewrite render_cons, <- !app_assoc. rewrite Es at 1. f_equal.
        rewrite (head_cons s1 "[" E2) at 1 by discriminate.
        cbn [app]. f_equal. rewrite Ea. f_equal. exact Es2.
      * rewrite spaced_cons, Hw0, Hsp. reflexivity.
      * exact Hw.
      * cbn [tokens map snd forallb]. exact Htok.
      * intros ts' w' r' Ht Hs' Hw' Hr'.
        apply tokens_cons_inv in Ht as (w0' & ta' & -> & Ht).
        rewrite spaced_cons in Hs'. apply andb_true_iff in Hs' as [Hw0' Hs'].
        destruct (Hre ta' (w' ++ r') Ht Hs') as (f1 & Hrun).
        exists (S f1). relayout (w0' ++ "["%byte :: render ta' ++ w' ++ r').
        rewrite (read_value_array P f1 w0' _ _ _ Hw0' Hrun).
        rewrite read_whitespace_app by assumption.
        rewrite (proj2 (value_stops_head r' Hr')). reflexivity.
    + (* a string *)
      destruct (read_json_string_inv P s1 value s2 E3 Ein) as (tk & Etk & Htk & Hall).
      exists [(w0, tk)], w. repeat split.
      * rewrite render_cons. cbn [render flat_map].
        rewrite app_nil_r, <- !app_assoc. rewrite Es at 1. f_equal. rewrite Etk at 1. f_equal. exact Es2.
      * rewrite spaced_cons, Hw0. reflexivity.
      * exact Hw.
      * cbn [tokens map snd forallb]. rewrite (is_token_string P tk Htk). reflexivity.
      * intros ts' w' r' Ht Hs' Hw' Hr'.
        apply tokens_cons_inv in Ht as (w0' & tl' & -> & Ht).
        apply tokens_nil_inv in Ht. subst tl'.
        rewrite spaced_cons in Hs'. apply andb_true_iff in Hs' as [Hw0' _].
        exists 1%nat. relayout (w0' ++ tk ++ w' ++ r').
        rewrite (read_value_string P 0 w0' _ value (w' ++ r') Hw0'
                   (proj1 (string_token_head P tk _ Htk)) (Hall _)).
        rewrite read_whitespace_app by assumption.
        rewrite (proj2 (value_stops_head r' Hr')). reflexivity.
    + (* a number *)
      apply digit_dispatch in E4.
      destruct (read_json_number_inv P s1 value s2 Ein E4) as (n & Hok & En & Hend & ->).
      exists [(w0, number_text n)], w. repeat split.
      * rewrite render_cons. cbn [render flat_map].
        rewrite app_nil_r, <- !app_assoc. rewrite Es at 1. f_equal. rewrite En at 1. f_equal. exact Es2.
      * rewrite spaced_cons, Hw0. reflexivity.
      * exact Hw.
      * cbn [tokens map snd forallb].
        rewrite (is_token_number P _ (number_text_chars n Hok)). reflexivity.
      * intros ts' w' r' Ht Hs' Hw' Hr'.
        apply tokens_cons_inv in Ht as (w0' & tl' & -> & Ht).
        apply tokens_nil_inv in Ht. subst tl'.
        rewrite spaced_cons in Hs'. apply andb_true_iff in Hs' as [Hw0' _].
        exists 1%nat. relayout (w0' ++ number_text n ++ w' ++ r').
        apply read_value_literal; assumption.
    + (* true *)
      unfold read_json_true in Ein.
      destruct (read_word s1 (bytes "true")) as [s'| |] eqn:Ew; try discriminate Ein.
      cbn [bind] in Ein. injection Ein as <- ->.
      apply read_word_inv in Ew; [|reflexivity].
      exists [(w0, bytes "true")], w. repeat split.
      * rewrite render_cons. cbn [render flat_map].
        rewrite app_nil_r, <- !app_assoc. rewrite Es at 1. f_equal. rewrite Ew at 1. f_equal. exact Es2.
      * rewrite spaced_cons, Hw0. reflexivity.
      * exact Hw.
      * intros ts' w' r' Ht Hs' Hw' Hr'.
        apply tokens_cons_inv in Ht as (w0' & tl' & -> & Ht).
        apply tokens_nil_inv in Ht. subst tl'.
        rewrite spaced_cons in Hs'. apply andb_true_iff in Hs' as [Hw0' _].
        exists 1%nat. relayout (w0' ++ bytes "true" ++ w' ++ r').
        rewrite (proj1 (read_value_word P 0 w0' (w' ++ r') Hw0')).
        rewrite read_whitespace_app by assumption.
        rewrite (proj2 (value_stops_head r' Hr')). reflexivity.
    + (* false *)
      unfold read_json_false in Ein.
      destruct (read_word s1 (bytes "false")) as [s'| |] eqn:Ew; try discriminate Ein.
      cbn [bind] in Ein. injection Ein as <- ->.
      apply read_word_inv in Ew; [|reflexivity].
      exists [(w0, bytes "false")], w. repeat split.
      * rewrite render_cons. cbn [render flat_map].
        rewrite app_nil_r, <- !app_assoc. rewrite Es at 1. f_equal. rewrite Ew at 1. f_equal. exact Es2.
      * rewrite spaced_cons, Hw0. reflexivity.
      * exact Hw.
      * intros ts' w' r' Ht Hs' Hw' Hr'.
        apply tokens_cons_inv in Ht as (w0' & tl' & -> & Ht).
        apply tokens_nil_inv in Ht. subst tl'.
        rewrite spaced_cons in Hs'. apply andb_true_iff in Hs' as [Hw0' _].
        exists 1%nat. relayout (w0' ++ bytes "false" ++ w' ++ r').
        rewrite (proj1 (proj2 (read_value_word P 0 w0' (w' ++ r') Hw0'))).
        rewrite read_whitespace_app by assumption.
        rewrite (proj2 (value_stops_head r' Hr')). reflexivity.
    + (* null *)
      unfold read_json_null in Ein.
      destruct (read_word s1 (bytes "null")) as [s'| |] eqn:Ew; try discriminate Ein.
      cbn [bind] in Ein. injection Ein as <- ->.
      apply read_word_inv in Ew; [|reflexivity].
      exists [(w0, bytes "null")], w. repeat split.
      * rewrite render_cons. cbn [render flat_map].
        rewrite app_nil_r, <- !app_assoc. rewrite Es at 1. f_equal. rewrite Ew at 1. f_equal. exact Es2.
      * rewrite spaced_cons, Hw0. reflexivity.
      * exact Hw.
      * intros ts' w' r' Ht Hs' Hw' Hr'.
        apply tokens_cons_inv in Ht as (w0' & tl' & -> & Ht).
        apply tokens_nil_inv in Ht. subst tl'.
        rewrite spaced_cons in Hs'. apply andb_true_iff in Hs' as [Hw0' _].
        exists 1%nat. relayout (w0' ++ bytes "null" ++ w' ++ r').
        rewrite (proj2 (proj2 (read_value_word P 0 w0' (w' ++ r') Hw0'))).
        rewrite read_whitespace_app by assumption.
        rewrite (proj2 (value_stops_head r' Hr')). reflexivity.
  - (* read_json_array *)
    intros acc s v r H.
    apply read_json_array_loop_inv in H
      as [(w & Hw & -> & ->)|(pre & s' & child & s3 & -> & Hsep & Hv & Ha)].
    + exists [(w, ["]"%byte])]. repeat split.
      * layout_eq.
      * rewrite spaced_cons, Hw. reflexivity.
      * intros ts' r' Ht Hs'.
        apply tokens_cons_inv in Ht as (w' & tl' & -> & Ht).
        apply tokens_nil_inv in Ht. subst tl'.
        rewrite spaced_cons in Hs'. apply andb_true_iff in Hs' as [Hw' _].
        exists 1%nat. relayout (w' ++ "]"%byte :: r').
        apply read_json_array_loop_end. exact Hw'.
    + apply IHv in Hv as (tv & wv & -> & Hspv & Hwv & Htokv & Hrev).
      rewrite <- (read_json_array_loop_skips P fuel _ wv s3 Hwv) in Ha.
      apply IHa in Ha as (ta & Ea & Hspa & Htoka & Hstop & Hrea).
      assert (Hne : fl_value_append acc child <> []).
      { unfold fl_value_append. destruct acc; discriminate. }
      specialize (Hstop Hne).
      destruct (first_token_stops_inv ta Hstop) as (wa & c & t & ta_tl & -> & Hdelim).
      assert (Hrun : forall tv' wa' ta_tl' r',
        tokens tv' = tokens tv -> tokens ta_tl' = tokens ta_tl ->
        spaced tv' = true -> all_whitespace wa' = true -> spaced ta_tl' = true ->
        exists f1 f2,
          read_value P f1 (render tv' ++ wa' ++ (c :: t) ++ render ta_tl' ++ r')
          = Ok (child, (c :: t) ++ render ta_tl' ++ r')
          /\ read_json_array_loop P f2 (fl_value_append acc child)
               ((c :: t) ++ render ta_tl' ++ r') = Ok (v, r')).
      { intros tv' wa' ta_tl' r' Htv Hta Hsv' Hwa' Hsa'.
        destruct (Hrev tv' wa' ((c :: t) ++ render ta_tl' ++ r') Htv Hsv' Hwa'
                    (Hdelim _)) as (f1 & Hrun1).
        destruct (Hrea (([], c :: t) :: ta_tl') r') as (f2 & Hrun2).
        { cbn [tokens map snd]. f_equal. exact Hta. }
        { rewrite spaced_cons. exact Hsa'. }
        exists f1, f2. split; [exact Hrun1|].
        rewrite <- Hrun2. f_equal. layout_eq. }
      destruct Hsep as [[-> ->]|(Hacc & w & Hw & ->)].
      * exists (tv ++ (wa, c :: t) :: ta_tl). repeat split.
        -- cbn [app]. rewrite render_app, <- app_assoc. f_equal. exact Ea.
        -- rewrite spaced_app, Hspv, Hspa. reflexivity.
        -- rewrite tokens_app, forallb_app, Htokv, Htoka. reflexivity.
        -- contradiction.
        -- intros ts' r' Ht Hs'.
           apply tokens_app_inv in Ht as (tv' & ta' & -> & Htv & Hta).
           apply tokens_cons_inv in Hta as (wa' & ta_tl' & -> & Hta).
           rewrite spaced_app, spaced_cons in Hs'.
           apply andb_true_iff in Hs' as [Hsv' Hs'].
           apply andb_true_iff in Hs' as [Hwa' Hsa'].
           destruct (Hrun tv' wa' ta_tl' r' Htv Hta Hsv' Hwa' Hsa')
             as (f1 & f2 & Hrun1 & Hrun2).
           relayout ([] ++ render tv' ++ wa' ++ (c :: t) ++ render ta_tl' ++ r').
           eapply (read_json_array_loop_element P f1 f2);
             [left; auto | exact Hrun1 | exact Hrun2].
      * exists ((w, [","%byte]) :: tv ++ (wa, c :: t) :: ta_tl). repeat split.
        -- rewrite render_cons, render_app, <- !app_assoc. do 3 f_equal. exact Ea.
        -- rewrite spaced_cons, spaced_app, Hw, Hspv, Hspa. reflexivity.
        -- cbn [tokens map snd forallb]. fold (tokens (tv ++ (wa, c :: t) :: ta_tl)).
           rewrite tokens_app, forallb_app, Htokv, Htoka. reflexivity.
        -- intros ts' r' Ht Hs'.
           apply tokens_cons_inv in Ht as (w' & rest' & -> & Ht).
           apply tokens_app_inv in Ht as (tv' & ta' & -> & Htv & Hta).
           apply tokens_cons_inv in Hta as (wa' & ta_tl' & -> & Hta).
           rewrite spaced_cons, spaced_app, spaced_cons in Hs'.
           apply andb_true_iff in Hs' as [Hw' Hs'].
           apply andb_true_iff in Hs' as [Hsv' Hs'].
           apply andb_true_iff in Hs' as [Hwa' Hsa'].
           destruct (Hrun tv' wa' ta_tl' r' Htv Hta Hsv' Hwa' Hsa')
             as (f1 & f2 & Hrun1 & Hrun2).
           relayout ((w' ++ [","%byte])
                       ++ render tv' ++ wa' ++ (c :: t) ++ render ta_tl' ++ r').
           eapply (read_json_array_loop_element P f1 f2);
             [right; split; [exact Hacc | exists w'; auto] | exact Hrun1 | exact Hrun2].
  - (* read_json_object *)
    intros acc s v r H.
    apply read_json_object_loop_inv in H
      as [(w & Hw & -> & ->)
         |(pre & w1 & tk & w2 & s5 & key & value & s6 & -> & Hsep & Hw1 & Hw2
           & Htk & Hkey & Hv & Ho)].
    + exists [(w, ["}"%byte])]. repeat split.
      * layout_eq.
      * rewrite spaced_cons, Hw. reflexivity.
      * intros ts' r' Ht Hs'.
        apply tokens_cons_inv in Ht as (w' & tl' & -> & Ht).
        apply tokens_nil_inv in Ht. subst tl'.
        rewrite spaced_cons in Hs'. apply andb_true_iff in Hs' as [Hw' _].
        exists 1%nat. relayout (w' ++ "}"%byte :: r').
        apply read_json_object_loop_end. exact Hw'.
    + apply IHv in Hv as (tv & wv & -> & Hspv & Hwv & Htokv & Hrev).
      rewrite <- (read_json_object_loop_skips P fuel _ wv s6 Hwv) in Ho.
      apply IHo in Ho as (ta & Ea & Hspa & Htoka & Hstop & Hrea).
      assert (Hne : fl_value_set acc key value <> []).
      { destruct acc as [|[k x] acc]; cbn [fl_value_set]; [discriminate|].
        destruct (fl_value_equal k key); discriminate. }
      specialize (Hstop Hne).
      destruct (first_token_stops_inv ta Hstop) as (wa & c & t & ta_tl & -> & Hdelim).
      assert (Hrun : forall tv' wa' ta_tl' r',
        tokens tv' = tokens tv -> tokens ta_tl' = tokens ta_tl ->
        spaced tv' = true -> all_whitespace wa' = true -> spaced ta_tl' = true ->
        exists f1 f2,
          read_value P f1 (render tv' ++ wa' ++ (c :: t) ++ render ta_tl' ++ r')
          = Ok (value, (c :: t) ++ render ta_tl' ++ r')
          /\ read_json_object_loop P f2 (fl_value_set acc key value)
               ((c :: t) ++ render ta_tl' ++ r') = Ok (v, r')).
      { intros tv' wa' ta_tl' r' Htv Hta Hsv' Hwa' Hsa'.
        destruct (Hrev tv' wa' ((c :: t) ++ render ta_tl' ++ r') Htv Hsv' Hwa'
                    (Hdelim _)) as (f1 & Hrun1).
        destruct (Hrea (([], c :: t) :: ta_tl') r') as (f2 & Hrun2).
        { cbn [tokens map snd]. f_equal. exact Hta. }
        { rewrite spaced_cons. exact Hsa'. }
        exists f1, f2. split; [exact Hrun1|].
        rewrite <- Hrun2. f_equal. layout_eq. }
      destruct Hsep as [[-> ->]|(Hacc & w & Hw & ->)].
      * exists ((w1, tk) :: (w2, [":"%byte]) :: tv ++ (wa, c :: t) :: ta_tl).
        repeat split.
        -- cbn [app]. rewrite !render_cons, render_app, <- !app_assoc.
           do 2 f_equal. cbn [app]. do 3 f_equal. exact Ea.
        -- rewrite !spaced_cons, spaced_app, Hw1, Hw2, Hspv, Hspa. reflexivity.
        -- cbn [tokens map snd forallb]. fold (tokens (tv ++ (wa, c :: t) :: ta_tl)).
           rewrite tokens_app, forallb_app, Htokv, Htoka, (is_token_string P tk Htk).
           reflexivity.
        -- contradiction.
        -- intros ts' r' Ht Hs'.
           apply tokens_cons_inv in Ht as (w1' & rest' & -> & Ht).
           apply tokens_cons_inv in Ht as (w2' & rest'' & -> & Ht).
           apply tokens_app_inv in Ht as (tv' & ta' & -> & Htv & Hta).
           apply tokens_cons_inv in Hta as (wa' & ta_tl' & -> & Hta).
           rewrite !spaced_cons, spaced_app, spaced_cons in Hs'.
           apply andb_true_iff in Hs' as [Hw1' Hs'].
           apply andb_true_iff in Hs' as [Hw2' Hs'].
           apply andb_true_iff in Hs' as [Hsv' Hs'].
           apply andb_true_iff in Hs' as [Hwa' Hsa'].
           destruct (Hrun tv' wa' ta_tl' r' Htv Hta Hsv' Hwa' Hsa')
             as (f1 & f2 & Hrun1 & Hrun2).
           relayout ([] ++ w1' ++ tk ++ w2' ++ ":"%byte
                       :: (render tv' ++ wa' ++ (c :: t) ++ render ta_tl' ++ r')).
           eapply (read_json_object_loop_entry P f1 f2);
             [left; auto | exact Hw1' | exact Hw2' | exact Htk | exact Hkey
             | exact Hrun1 | exact Hrun2].
      * exists ((w, [","%byte]) :: (w1, tk) :: (w2, [":"%byte])
                  :: tv ++ (wa, c :: t) :: ta_tl).
        repeat split.
        -- rewrite !render_cons, render_app, <- !app_assoc.
           do 4 f_equal. cbn [app]. do 3 f_equal. exact Ea.
        -- rewrite !spaced_cons, spaced_app, Hw, Hw1, Hw2, Hspv, Hspa. reflexivity.
        -- cbn [tokens map snd forallb]. fold (tokens (tv ++ (wa, c :: t) :: ta_tl)).
           rewrite tokens_app, forallb_app, Htokv, Htoka, (is_token_string P tk Htk).
           reflexivity.
        -- intros ts' r' Ht Hs'.
           apply tokens_cons_inv in Ht as (w' & rest & -> & Ht).
           apply tokens_cons_inv in Ht as (w1' & rest' & -> & Ht).
           apply tokens_cons_inv in Ht as (w2' & rest'' & -> & Ht).
           apply tokens_app_inv in Ht as (tv' & ta' & -> & Htv & Hta).
           apply tokens_cons_inv in Hta as (wa' & ta_tl' & -> & Hta).
           rewrite !spaced_cons, spaced_app, spaced_cons in Hs'.
           apply andb_true_iff in Hs' as [Hw' Hs'].
           apply andb_true_iff in Hs' as [Hw1' Hs'].
           apply andb_true_iff in Hs' as [Hw2' Hs'].
           apply andb_true_iff in Hs' as [Hsv' Hs'].
           apply andb_true_iff in Hs' as [Hwa' Hsa'].
           destruct (Hrun tv' wa' ta_tl' r' Htv Hta Hsv' Hwa' Hsa')
             as (f1 & f2 & Hrun1 & Hrun2).
           relayout ((w' ++ [","%byte]) ++ w1' ++ tk ++ w2' ++ ":"%byte
                       :: (render tv' ++ wa' ++ (c :: t) ++ render ta_tl' ++ r')).
           eapply (read_json_object_loop_entry P f1 f2);
             [right; split; [exact Hacc | exists w'; auto]
             | exact Hw1' | exact Hw2' | exact Htk | exact Hkey
             | exact Hrun1 | exact Hrun2].
Qed.

(** X1. Whitespace between tokens does not matter.  A message that decodes
    to a value is a sequence of tokens (brackets, braces, commas, colons, the
    words true, false and null, numeric literals and string literals), each
    preceded by whitespace, with whitespace after the last; and every message
    made of the same tokens with any other whitespace before, between and
    after them decodes to the same value. *)
Theorem decode_ignores_whitespace (P : Platform) (message : list byte) (v : FlValue) :
  fl_json_message_codec_decode_message P message = Ok v ->
  exists ts w,
    message = render ts ++ w
    /\ spaced ts = true /\ all_whitespace w = true
    /\ forallb (is_token P) (tokens ts) = true
    /\ forall ts' w',
         tokens ts' = tokens ts -> spaced ts' = true -> all_whitespace w' = true ->
         fl_json_message_codec_decode_message P (render ts' ++ w') = Ok v.
Proof.
  unfold fl_json_message_codec_decode_message. intros H.
  destruct (read_value P (decode_fuel message) message) as [[value rest]| |] eqn:E;
    try discriminate H.
  cbn [bind] in H. destruct rest as [|c rest]; [|discriminate H].
  cbn [length Nat.eqb negb] in H. injection H as <-.
  apply (proj1 (reads_layout P (decode_fuel message))) in E
    as (ts & w & Em & Hsp & Hw & Htok & Hre).
  exists ts, w. rewrite app_nil_r in Em. repeat split; try assumption.
  intros ts' w' Ht Hs' Hw'.
  destruct (Hre ts' w' [] Ht Hs' Hw' eq_refl) as (fuel & Hrun).
  rewrite app_nil_r in Hrun. apply read_value_at_decode_fuel in Hrun.
  rewrite Hrun. reflexivity.
Qed.

Lemma decode_ignores_whitespace_witness :
  exists ts w,
    (bytes "{ " ++ x22 :: bytes "k" ++ x22 :: bytes " : [1 , true] }") = render ts ++ w
    /\ spaced ts = true /\ all_whitespace w = true
    /\ forallb (is_token linux_x64) (tokens ts) = true
    /\ forall ts' w',
         tokens ts' = tokens ts -> spaced ts' = true -> all_whitespace w' = true ->
         fl_json_message_codec_decode_message linux_x64 (render ts' ++ w')
         = Ok (FlMap [(FlString (bytes "k"), FlList [FlInt 1; FlBool true])]).
Proof.
  apply (decode_ignores_whitespace linux_x64 ((bytes "{ " ++ x22 :: bytes "k" ++ x22 :: bytes " : [1 , true] }"))).
  vm_compute. reflexivity.
Defined.

(** ** Further properties of the codec *)

(** X2. Called on a minus sign or a digit, as [read_value] calls it, the
    number reader returns a value exactly when the buffer starts with a
    numeric literal: an optional minus sign, an integer part without leading
    zero, and then a fraction or an exponent but not both; it stops where the
    literal ends and returns the value of the literal. *)
Theorem read_json_number_reads_literals (P : Platform) (s : cursor) (v : FlValue)
  (r : cursor) :
  Byte.eqb (current_char s) "-" = true \/ is_digit (current_char s) = true ->
  (read_json_number P s = Ok (v, r)
   <-> exists n,
         number_literal_ok n = true /\ s = number_text n ++ r
         /\ number_ends n r = true /\ v = number_value P n).
Proof.
  intros Hhead. split.
  - intros H. exact (read_json_number_inv P s v r H Hhead).
  - intros (n & Hok & -> & Hend & ->). apply read_json_number_literal; assumption.
Qed.

Lemma read_json_number_reads_literals_witness :
  read_json_number linux_x64 (bytes "-12,") = Ok (FlInt (-12), bytes ",")
  <-> exists n,
        number_literal_ok n = true /\ bytes "-12," = number_text n ++ bytes ","
        /\ number_ends n (bytes ",") = true /\ FlInt (-12) = number_value linux_x64 n.
Proof.
  apply (read_json_number_reads_literals linux_x64 (bytes "-12,")).
  left. reflexivity.
Defined.

(** X3. An integer of the 64-bit range is written after what the buffer
    holds as a minus sign, if it is negative, and the decimal digits of its
    magnitude, most significant first and without a leading zero. *)
Theorem write_int_is_decimal (buffer : list byte) (value : Z) :
  in_int64_range value = true ->
  exists digits,
    write_int buffer value
    = buffer ++ (if value <? 0 then ["-"%byte] else []) ++ digits
    /\ is_integer_part digits = true
    /\ decimal_value digits = Z.abs value.
Proof.
  intros Hr. rewrite write_int_app, (write_int_text value Hr).
  exists (decimal_digits (decimal_width (Z.abs value)) (Z.abs value)).
  split; [reflexivity|].
  unfold in_int64_range in Hr. apply andb_true_iff in Hr as [Hlo Hhi].
  apply Z.leb_le in Hlo, Hhi.
  destruct (Z.eqb_spec value G_MININT64) as [->|Hmin];
    [split; vm_compute; reflexivity|].
  assert (Ha : 0 <= Z.abs value <= G_MAXINT64)
    by (unfold G_MININT64, G_MAXINT64 in *; lia).
  split; [apply decimal_digits_integer_part; exact Ha|].
  rewrite decimal_value_digits by lia.
  apply Z.mod_small. split; [lia|].
  apply (decimal_length_upper 19).
  unfold G_MAXINT64 in Ha. change (10 ^ Z.of_nat 19) with 10000000000000000000. lia.
Qed.

Lemma write_int_is_decimal_witness :
  exists digits,
    write_int (bytes "[") (-907)
    = bytes "[" ++ (if -907 <? 0 then ["-"%byte] else []) ++ digits
    /\ is_integer_part digits = true
    /\ decimal_value digits = Z.abs (-907).
Proof. apply (write_int_is_decimal (bytes "[") (-907)). reflexivity. Defined.

(** X4. The encoder only appends: writing a value to a buffer gives the
    buffer followed by what is written to an empty one, and it fails for a
    buffer exactly when it fails for the empty one, with the same error. *)
Theorem write_value_appends (P : Platform) (buffer : list byte) (value : FlValue) :
  write_value P buffer value
  = (do text <- write_value P [] value; Ok (buffer ++ text)).
Proof. apply write_value_app. Qed.

Lemma write_float_list_as_list (P : Platform) (l : list double) :
  forall buffer i,
    write_list_elements P buffer i (map FlFloat l) = write_double_elements P buffer i l.
Proof.
  induction l as [|v l IH]; intros buffer i; [reflexivity|].
  cbn [map write_list_elements write_double_elements write_value].
  destruct (write_double P (write_separator buffer i) v) as [b| |]; cbn [bind];
    [apply IH | reflexivity | reflexivity].
Qed.

(** X5. The four typed lists are written as the list of their elements as
    values is: a list of bytes, of 32-bit or of 64-bit integers as the list
    of those integers, a list of floats as the list of those floats.  Nothing
    in the encoding tells a typed list from a plain one. *)
Theorem typed_lists_are_written_as_lists (P : Platform) (buffer : list byte) :
  (forall l, write_value P buffer (FlUint8List l)
             = write_value P buffer (FlList (map (fun b => FlInt (byte_val b)) l)))
  /\ (forall l, write_value P buffer (FlInt32List l)
                = write_value P buffer (FlList (map FlInt l)))
  /\ (forall l, write_value P buffer (FlInt64List l)
                = write_value P buffer (FlList (map FlInt l)))
  /\ (forall l, write_value P buffer (FlFloatList l)
                = write_value P buffer (FlList (map FlFloat l))).
Proof.
  repeat split; intros l; rewrite write_value_list.
  - rewrite <- (map_map byte_val FlInt), write_int64_list_as_list. reflexivity.
  - rewrite write_int64_list_as_list. reflexivity.
  - rewrite write_int64_list_as_list. reflexivity.
  - rewrite write_float_list_as_list. reflexivity.
Qed.

(** ** String literals *)

Lemma plain_string_byte_tests (P : Platform) (c : byte) :
  plain_string_byte P c = true ->
  Byte.eqb c x22 = false /\ Byte.eqb c x5c = false /\ Byte.eqb c x00 = false
  /\ (char_to_int P c <? 32) = false.
Proof.
  unfold plain_string_byte. intros H.
  apply andb_true_iff in H as [H H3]. apply andb_true_iff in H as [H1 H2].
  apply negb_true_iff in H1, H2. apply Z.leb_le in H3.
  repeat split; try assumption.
  - destruct (Byte.eqb c x00) eqn:E; [|reflexivity].
    apply byte_eqb_eq in E. subst c.
    destruct P as [[|] ? ?]; vm_compute in H3; contradiction.
  - apply Z.ltb_ge. exact H3.
Qed.

Lemma read_json_string_loop_plain (P : Platform) (body : list byte) :
  forall fuel text rest,
    forallb (plain_string_byte P) body = true ->
    read_json_string_loop P (length body + fuel) text (body ++ rest)
    = read_json_string_loop P fuel (text ++ body) rest.
Proof.
  induction body as [|c body IH]; intros fuel text rest H.
  - rewrite app_nil_r. reflexivity.
  - cbn [forallb] in H. apply andb_true_iff in H as [Hc H].
    destruct (plain_string_byte_tests P c Hc) as (E1 & E2 & E3 & E4).
    cbn [length Nat.add app read_json_string_loop current_char next_char tl].
    rewrite E1, E2, E3, E4. rewrite IH by assumption.
    rewrite <- app_assoc. reflexivity.
Qed.

Lemma plain_bytes_c_str (P : Platform) (body : list byte) :
  forallb (plain_string_byte P) body = true -> c_str body = body.
Proof.
  induction body as [|c body IH]; [reflexivity|].
  cbn [forallb c_str]. intros H. apply andb_true_iff in H as [Hc H].
  destruct (plain_string_byte_tests P c Hc) as (_ & _ & E3 & _).
  rewrite E3, IH by assumption. reflexivity.
Qed.

Lemma read_json_string_body (P : Platform) (body rest : list byte) :
  forallb (plain_string_byte P) body = true ->
  read_json_string P (x22 :: body ++ rest)
  = read_json_string_loop P (S (S (length rest))) body rest.
Proof.
  intros H. unfold read_json_string. cbn [next_char tl length].
  rewrite length_app.
  replace (S (S (length body + length rest)))
    with (length body + S (S (length rest)))%nat by lia.
  rewrite read_json_string_loop_plain by assumption. reflexivity.
Qed.

(** X6. A string literal of plain bytes, that is bytes other than the quote
    and the backslash that are characters from 0x20 on, is read up to its
    closing quote as the string of those bytes. *)
Theorem read_json_string_plain (P : Platform) (body rest : list byte) :
  forallb (plain_string_byte P) body = true ->
  read_json_string P (x22 :: body ++ x22 :: rest) = Ok (FlString body, rest).
Proof.
  intros H. rewrite read_json_string_body by assumption.
  cbn [read_json_string_loop current_char next_char tl].
  change (Byte.eqb x22 x22) with true. cbv iota.
  unfold fl_value_new_string. rewrite (plain_bytes_c_str P body H). reflexivity.
Qed.

Lemma read_json_string_plain_witness :
  read_json_string linux_x64 (x22 :: bytes "a b/c" ++ x22 :: bytes ",1]")
  = Ok (FlString (bytes "a b/c"), bytes ",1]").
Proof. apply (read_json_string_plain linux_x64 (bytes "a b/c")). reflexivity. Defined.

(** X7. Inside a string literal, the end of the message is an out-of-data
    error, and a byte that is a character below 0x20 is an
    invalid-string-character error. *)
Theorem read_json_string_refuses (P : Platform) (body : list byte) :
  forallb (plain_string_byte P) body = true ->
  read_json_string P (x22 :: body) = Err FL_MESSAGE_CODEC_ERROR_OUT_OF_DATA
  /\ forall c rest,
       c <> x00 -> char_to_int P c < 32 ->
       read_json_string P (x22 :: body ++ c :: rest)
       = Err FL_JSON_MESSAGE_CODEC_ERROR_INVALID_STRING_CHARACTER.
Proof.
  intros H. split.
  - rewrite <- (app_nil_r body) at 1. rewrite read_json_string_body by assumption.
    reflexivity.
  - intros c rest Hc Hlt. rewrite read_json_string_body by assumption.
    cbn [read_json_string_loop current_char next_char tl length].
    assert (E1 : Byte.eqb c x22 = false).
    { apply byte_eqb_neq. intros ->. destruct P as [[|] ? ?]; vm_compute in Hlt;
        discriminate Hlt. }
    assert (E2 : Byte.eqb c x5c = false).
    { apply byte_eqb_neq. intros ->. destruct P as [[|] ? ?]; vm_compute in Hlt;
        discriminate Hlt. }
    apply byte_eqb_neq in Hc. apply Z.ltb_lt in Hlt.
    rewrite E1, E2, Hc, Hlt. reflexivity.
Qed.

Lemma read_json_string_refuses_witness :
  read_json_string linux_x64 (x22 :: bytes "abc")
  = Err FL_MESSAGE_CODEC_ERROR_OUT_OF_DATA
  /\ forall c rest,
       c <> x00 -> char_to_int linux_x64 c < 32 ->
       read_json_string linux_x64 (x22 :: bytes "abc" ++ c :: rest)
       = Err FL_JSON_MESSAGE_CODEC_ERROR_INVALID_STRING_CHARACTER.
Proof. apply (read_json_string_refuses linux_x64 (bytes "abc")). reflexivity. Defined.

(** X8. A byte from 0x80 on inside a string literal: where [char] is signed
    it is a negative character, so below 0x20, and the literal is refused
    with an invalid-string-character error; where [char] is unsigned it is
    copied like any other byte. *)
Theorem read_json_string_high_byte (P : Platform) (body : list byte) (c : byte)
  (rest : list byte) :
  forallb (plain_string_byte P) body = true -> 128 <= byte_val c ->
  read_json_string P (x22 :: body ++ c :: x22 :: rest)
  = if char_is_signed P
    then Err FL_JSON_MESSAGE_CODEC_ERROR_INVALID_STRING_CHARACTER
    else Ok (FlString (body ++ [c]), rest).
Proof.
  intros H Hc. pose proof (byte_val_range c) as Hrange.
  destruct (char_is_signed P) eqn:Es.
  - assert (E1 : Byte.eqb c x22 = false)
      by (apply byte_eqb_neq; intros ->; vm_compute in Hc; apply Hc; reflexivity).
    assert (E2 : Byte.eqb c x5c = false)
      by (apply byte_eqb_neq; intros ->; vm_compute in Hc; apply Hc; reflexivity).
    assert (E3 : Byte.eqb c x00 = false)
      by (apply byte_eqb_neq; intros ->; vm_compute in Hc; apply Hc; reflexivity).
    assert (E4 : (char_to_int P c <? 32) = true).
    { apply Z.ltb_lt. unfold char_to_int. rewrite Es. cbn [andb].
      destruct (Z.leb_spec 128 (byte_val c)); lia. }
    rewrite read_json_string_body by assumption.
    cbn [read_json_string_loop current_char next_char tl length].
    rewrite E1, E2, E3, E4. reflexivity.
  - assert (Hp : forallb (plain_string_byte P) (body ++ [c]) = true).
    { rewrite forallb_app, H. cbn [forallb andb]. rewrite andb_true_r.
      unfold plain_string_byte, char_to_int. rewrite Es.
      assert (E1 : Byte.eqb c x22 = false)
        by (apply byte_eqb_neq; intros ->; vm_compute in Hc; apply Hc; reflexivity).
      assert (E2 : Byte.eqb c x5c = false)
        by (apply byte_eqb_neq; intros ->; vm_compute in Hc; apply Hc; reflexivity).
      rewrite E1, E2. cbn [negb andb]. apply Z.leb_le. lia. }
    replace (body ++ c :: x22 :: rest) with ((body ++ [c]) ++ x22 :: rest)
      by (rewrite <- app_assoc; reflexivity).
    rewrite read_json_string_body by assumption.
    cbn [read_json_string_loop current_char next_char tl].
    change (Byte.eqb x22 x22) with true. cbv iota.
    unfold fl_value_new_string. rewrite (plain_bytes_c_str P _ Hp). reflexivity.
Qed.

Lemma read_json_string_high_byte_witness :
  read_json_string linux_x64 (x22 :: bytes "caf" ++ xc3 :: x22 :: [])
  = (if char_is_signed linux_x64
     then Err FL_JSON_MESSAGE_CODEC_ERROR_INVALID_STRING_CHARACTER
     else Ok (FlString (bytes "caf" ++ [xc3]), []))
  /\ read_json_string linux_arm64 (x22 :: bytes "caf" ++ xc3 :: x22 :: [])
     = (if char_is_signed linux_arm64
        then Err FL_JSON_MESSAGE_CODEC_ERROR_INVALID_STRING_CHARACTER
        else Ok (FlString (bytes "caf" ++ [xc3]), [])).
Proof.
  split.
  - apply (read_json_string_high_byte linux_x64 (bytes "caf") xc3 []);
      [reflexivity | vm_compute; discriminate].
  - apply (read_json_string_high_byte linux_arm64 (bytes "caf") xc3 []);
      [reflexivity | vm_compute; discriminate].
Defined.

(** ** Unicode escapes *)

Lemma json_xdigit_to_int_spec (P : Platform) (c : byte) :
  json_xdigit_to_int P c = if is_xdigit c then xdigit_value c else -1.
Proof.
  unfold json_xdigit_to_int, is_xdigit, xdigit_value, is_digit, char_to_int.
  pose proof (byte_val_range c).
  destruct (char_is_signed P); cbn [andb];
    destruct (Z.leb_spec 128 (byte_val c));
    repeat match goal with
           | |- context [?a <=? ?b] => destruct (Z.leb_spec a b)
           end; cbn [andb orb]; try reflexivity; lia.
Qed.

Lemma xdigit_value_range (c : byte) : is_xdigit c = true -> 0 <= xdigit_value c < 16.
Proof.
  unfold is_xdigit, xdigit_value, is_digit.
  repeat match goal with
         | |- context [?a <=? ?b] => destruct (Z.leb_spec a b)
         end; cbn [andb orb]; intros Hx; try discriminate Hx; lia.
Qed.

Lemma read_json_unichar_code_step (P : Platform) (n : nat) (wc : Z) (c : byte)
  (s : cursor) :
  read_json_unichar_code_loop P (S n) wc (c :: s)
  = if is_xdigit c
    then read_json_unichar_code_loop P n (wrap32u (Z.shiftl wc 4 + xdigit_value c)) s
    else Err FL_JSON_MESSAGE_CODEC_ERROR_INVALID_STRING_UNICODE_ESCAPE.
Proof.
  cbn [read_json_unichar_code_loop current_char next_char tl].
  rewrite json_xdigit_to_int_spec.
  destruct (is_xdigit c) eqn:E; [|reflexivity].
  pose proof (xdigit_value_range c E).
  destruct (Z.ltb_spec (xdigit_value c) 0); [lia | reflexivity].
Qed.

(** X9. After a backslash and a u, four hexadecimal digits in either case
    are read as the code unit they denote in base 16; the reader returns a
    code unit in no other case, and a byte that is no hexadecimal digit, or
    the end of the message, among the four is an invalid-unicode-escape
    error. *)
Theorem read_json_unichar_code_reads_four_digits (P : Platform) (s : cursor) :
  (forall wc r,
      read_json_unichar_code P s = Ok (wc, r)
      <-> exists a b c d,
            s = a :: b :: c :: d :: r
            /\ is_xdigit a && is_xdigit b && is_xdigit c && is_xdigit d = true
            /\ wc = 4096 * xdigit_value a + 256 * xdigit_value b
                    + 16 * xdigit_value c + xdigit_value d)
  /\ (forall e,
        read_json_unichar_code P s = Err e ->
        e = FL_JSON_MESSAGE_CODEC_ERROR_INVALID_STRING_UNICODE_ESCAPE).
Proof.
  assert (Hnil : forall n wc,
    read_json_unichar_code_loop P (S n) wc []
    = Err FL_JSON_MESSAGE_CODEC_ERROR_INVALID_STRING_UNICODE_ESCAPE).
  { intros n wc. cbn [read_json_unichar_code_loop current_char].
    rewrite json_xdigit_to_int_nul. reflexivity. }
  assert (Hval : forall a b c d,
    is_xdigit a = true -> is_xdigit b = true -> is_xdigit c = true ->
    is_xdigit d = true ->
    wrap32u (Z.shiftl (wrap32u (Z.shiftl (wrap32u (Z.shiftl
       (wrap32u (Z.shiftl 0 4 + xdigit_value a)) 4 + xdigit_value b)) 4
       + xdigit_value c)) 4 + xdigit_value d)
    = 4096 * xdigit_value a + 256 * xdigit_value b + 16 * xdigit_value c
      + xdigit_value d).
  { intros a b c d Ha Hb Hc Hd.
    apply xdigit_value_range in Ha, Hb, Hc, Hd.
    unfold wrap32u. rewrite !Z.shiftl_mul_pow2 by lia.
    change (2 ^ 4) with 16. change (2 ^ 32) with 4294967296.
    rewrite (Z.mod_small (0 * 16 + xdigit_value a)) by lia.
    rewrite (Z.mod_small ((0 * 16 + xdigit_value a) * 16 + xdigit_value b)) by lia.
    rewrite (Z.mod_small (((0 * 16 + xdigit_value a) * 16 + xdigit_value b) * 16
                          + xdigit_value c)) by lia.
    rewrite Z.mod_small by lia. lia. }
  unfold read_json_unichar_code.
  destruct s as [|a [|b [|c [|d r0]]]];
    rewrite ?read_json_unichar_code_step;
    repeat match goal with
           | |- context [is_xdigit ?x] =>
               match goal with
               | H : is_xdigit x = _ |- _ => fail 1
               | _ => destruct (is_xdigit x) eqn:?
               end
           end;
    rewrite ?Hnil; cbn [read_json_unichar_code_loop];
    (split;
     [ intros wc r; split;
       [ intros H; try discriminate H
       | intros (a' & b' & c' & d' & E & Hx & Hwc); try discriminate E;
         injection E as <- <- <- <- <-;
         repeat match goal with
                | H : is_xdigit _ = _ |- _ => rewrite H in Hx
                end; try discriminate Hx ]
     | intros e H; try discriminate H; injection H as <-; reflexivity ]).
  - injection H as <- <-. exists a, b, c, d.
    split; [reflexivity|]. split; [|apply Hval; assumption].
    repeat match goal with
           | Hx : is_xdigit _ = true |- _ => rewrite Hx; clear Hx
           end.
    reflexivity.
  - rewrite Hval by assumption. subst wc. reflexivity.
Qed.

(** ** Messages that hold no value *)

Lemma decode_fuel_S (message : list byte) : exists n, decode_fuel message = S (S n).
Proof. exists (2 * length message)%nat. unfold decode_fuel. lia. Qed.

Lemma all_whitespace_read (w : list byte) :
  all_whitespace w = true -> read_whitespace w = [].
Proof.
  intros H. rewrite <- (app_nil_r w). rewrite read_whitespace_app by assumption.
  reflexivity.
Qed.

(** X10. A message that is empty or holds only whitespace is refused with an
    out-of-data error. *)
Theorem decode_whitespace_is_out_of_data (P : Platform) (w : list byte) :
  all_whitespace w = true ->
  fl_json_message_codec_decode_message P w = Err FL_MESSAGE_CODEC_ERROR_OUT_OF_DATA.
Proof.
  intros Hw. unfold fl_json_message_codec_decode_message.
  destruct (decode_fuel_S w) as (n & ->).
  rewrite read_value_S. cbv zeta. rewrite (all_whitespace_read w Hw).
  cbn [current_char]. rewrite json_digit_to_int_spec. reflexivity.
Qed.

Lemma decode_whitespace_is_out_of_data_witness :
  fl_json_message_codec_decode_message linux_x64 [" "%byte; x0a; x09; x0d]
  = Err FL_MESSAGE_CODEC_ERROR_OUT_OF_DATA.
Proof. apply (decode_whitespace_is_out_of_data linux_x64). reflexivity. Defined.

(** X11. A message whose first byte after the whitespace cannot start a
    value (it is not a bracket, a brace, a quote, a minus sign, a digit or
    one of the letters t, f and n) is refused with the error FAILED. *)
Theorem decode_unknown_byte_fails (P : Platform) (w : list byte) (c : byte)
  (rest : list byte) :
  all_whitespace w = true -> is_json_whitespace c = false ->
  value_starts [c] = false -> c <> x00 ->
  fl_json_message_codec_decode_message P (w ++ c :: rest)
  = Err FL_MESSAGE_CODEC_ERROR_FAILED.
Proof.
  intros Hw Hc Hs H0. unfold fl_json_message_codec_decode_message.
  destruct (decode_fuel_S (w ++ c :: rest)) as (n & ->).
  rewrite read_value_skips by assumption.
  rewrite read_value_S. cbv zeta.
  rewrite (read_whitespace_stop (c :: rest)) by exact Hc.
  cbn [current_char]. rewrite json_digit_to_int_spec.
  cbn [value_starts] in Hs.
  repeat (apply orb_false_iff in Hs; destruct Hs as [Hs ?]).
  apply byte_eqb_neq in H0.
  repeat match goal with
         | H : Byte.eqb c _ = false |- _ => rewrite H; clear H
         end.
  rewrite Hs. reflexivity.
Qed.

Lemma decode_unknown_byte_fails_witness :
  fl_json_message_codec_decode_message linux_x64 (bytes " " ++ "T"%byte :: bytes "rue")
  = Err FL_MESSAGE_CODEC_ERROR_FAILED.
Proof.
  apply (decode_unknown_byte_fails linux_x64 (bytes " ") "T" (bytes "rue"));
    try reflexivity.
  discriminate.
Defined.

(** X12. A word is read exactly when all of its bytes are there, and then
    the cursor is behind them; otherwise the error is FAILED. *)
Theorem read_word_reads_the_word (word : list byte) (s : cursor) :
  forallb (fun c => negb (Byte.eqb c x00)) word = true ->
  (forall r, read_word s word = Ok r <-> s = word ++ r)
  /\ (forall e, read_word s word = Err e -> e = FL_MESSAGE_CODEC_ERROR_FAILED)
  /\ read_word s word <> OutOfFuel.
Proof.
  intros Hw. repeat split.
  - intros H. apply read_word_inv; assumption.
  - intros ->. apply read_word_app.
  - clear Hw. revert s. induction word as [|c word IH]; intros s e H; [discriminate H|].
    cbn [read_word] in H. destruct (Byte.eqb (current_char s) c).
    + apply (IH _ _ H).
    + injection H as <-. reflexivity.
  - clear Hw. revert s. induction word as [|c word IH]; intros s; [discriminate|].
    cbn [read_word]. destruct (Byte.eqb (current_char s) c); [apply IH | discriminate].
Qed.

Lemma read_word_reads_the_word_witness :
  (forall r, read_word (bytes "nul") (bytes "null") = Ok r
             <-> bytes "nul" = bytes "null" ++ r)
  /\ (forall e, read_word (bytes "nul") (bytes "null") = Err e
                -> e = FL_MESSAGE_CODEC_ERROR_FAILED)
  /\ read_word (bytes "nul") (bytes "null") <> OutOfFuel.
Proof. apply (read_word_reads_the_word (bytes "null") (bytes "nul")). reflexivity. Defined.

(** ** Lists and maps that are not well formed *)

Lemma read_value_done_at_decode_fuel (P : Platform) (fuel : nat) (s : cursor)
  (x : result (FlValue * cursor)) :
  read_value P fuel s = x -> x <> OutOfFuel -> read_value P (decode_fuel s) s = x.
Proof.
  intros H Hx.
  pose proof (proj1 (read_enough_fuel P (decode_fuel s)) s) as Hne.
  assert (Hd : read_value P (decode_fuel s) s <> OutOfFuel)
    by (apply Hne; unfold decode_fuel; lia).
  pose proof (read_value_mono P fuel (Nat.max fuel (decode_fuel s)) s
                ltac:(lia)) as M1.
  pose proof (read_value_mono P (decode_fuel s) (Nat.max fuel (decode_fuel s)) s
                ltac:(lia)) as M2.
  apply refines_done in M1; [|congruence].
  apply refines_done in M2; [|assumption]. congruence.
Qed.

Lemma read_value_rest (P : Platform) (fuel : nat) (s : cursor) v r :
  read_value P fuel s = Ok (v, r) -> read_whitespace r = r.
Proof.
  destruct fuel as [|fuel]; [discriminate|].
  rewrite read_value_S. cbv zeta. intros H.
  match type of H with
  | bind ?x _ = _ => destruct x as [[value s2]| |]; try discriminate H
  end.
  cbn [bind] in H. injection H as _ <-. apply read_whitespace_idem.
Qed.

(** X13. After an element of a list, anything but a comma or a closing
    bracket is an error: the message [ followed by a value and then by
    another byte is refused with a missing-comma error, and with an
    out-of-data error if the message ends there. *)
Theorem decode_list_needs_separator (P : Platform) (fuel : nat) (s : cursor)
  (v : FlValue) (r : cursor) :
  read_value P fuel s = Ok (v, r) ->
  Byte.eqb (current_char r) "," = false -> Byte.eqb (current_char r) "]" = false ->
  fl_json_message_codec_decode_message P ("["%byte :: s)
  = Err (if Byte.eqb (current_char r) x00
         then FL_MESSAGE_CODEC_ERROR_OUT_OF_DATA
         else FL_JSON_MESSAGE_CODEC_ERROR_MISSING_COMMA).
Proof.
  intros Hv Hcomma Hclose.
  assert (Hrun : read_value P (S (S (S fuel))) ("["%byte :: s)
                 = Err (if Byte.eqb (current_char r) x00
                        then FL_MESSAGE_CODEC_ERROR_OUT_OF_DATA
                        else FL_JSON_MESSAGE_CODEC_ERROR_MISSING_COMMA)).
  { rewrite read_value_S. cbv zeta.
    change (read_whitespace ("["%byte :: s)) with ("["%byte :: s).
    cbn [current_char next_char tl]. change (Byte.eqb "[" "{") with false.
    change (Byte.eqb "[" "[") with true. cbv iota.
    rewrite read_json_array_loop_S. cbv zeta.
    destruct (read_value_ok_head _ _ _ _ Hv) as (E0 & E1 & _).
    rewrite E0, E1. cbn [length Nat.eqb negb bind].
    rewrite read_value_after_whitespace.
    rewrite (read_ok_mono P fuel (S fuel) s _ Hv) by lia. cbn [bind].
    rewrite read_json_array_loop_S. cbv zeta.
    rewrite (read_value_rest P fuel s v r Hv).
    destruct (Byte.eqb (current_char r) x00); [reflexivity|].
    rewrite Hclose. unfold fl_value_append, read_comma.
    cbn [app length Nat.eqb negb]. rewrite Hcomma. reflexivity. }
  unfold fl_json_message_codec_decode_message.
  rewrite (read_value_done_at_decode_fuel P _ _ _ Hrun) by discriminate.
  reflexivity.
Qed.

Lemma decode_list_needs_separator_witness :
  fl_json_message_codec_decode_message linux_x64 ("["%byte :: bytes "1 2]")
  = Err (if Byte.eqb (current_char (bytes "2]")) x00
         then FL_MESSAGE_CODEC_ERROR_OUT_OF_DATA
         else FL_JSON_MESSAGE_CODEC_ERROR_MISSING_COMMA).
Proof.
  apply (decode_list_needs_separator linux_x64 1 (bytes "1 2]") (FlInt 1) (bytes "2]"));
    reflexivity.
Defined.

(** X14. The key of a map entry has to be a string: the message { followed
    by whitespace and by a byte other than a quote, a closing brace and the
    end of the message is refused with an invalid-object-key-type error. *)
Theorem decode_map_key_must_be_string (P : Platform) (w : list byte) (c : byte)
  (rest : list byte) :
  all_whitespace w = true -> is_json_whitespace c = false ->
  c <> x22 -> c <> "}"%byte -> c <> x00 ->
  fl_json_message_codec_decode_message P ("{"%byte :: w ++ c :: rest)
  = Err FL_JSON_MESSAGE_CODEC_ERROR_INVALID_OBJECT_KEY_TYPE.
Proof.
  intros Hw Hc Hq Hb H0. unfold fl_json_message_codec_decode_message.
  destruct (decode_fuel_S ("{"%byte :: w ++ c :: rest)) as (n & ->).
  rewrite read_value_S. cbv zeta.
  change (read_whitespace ("{"%byte :: w ++ c :: rest)) with ("{"%byte :: w ++ c :: rest).
  cbn [current_char next_char tl]. change (Byte.eqb "{" "{") with true. cbv iota.
  rewrite read_json_object_loop_S. cbv zeta.
  rewrite read_whitespace_app by assumption.
  rewrite (read_whitespace_stop (c :: rest)) by exact Hc.
  cbn [current_char]. apply byte_eqb_neq in Hq, Hb, H0.
  rewrite H0, Hb. cbn [length Nat.eqb negb bind current_char]. rewrite Hq. reflexivity.
Qed.

Lemma decode_map_key_must_be_string_witness :
  fl_json_message_codec_decode_message linux_x64 ("{"%byte :: bytes " " ++ "1"%byte :: bytes ":2}")
  = Err FL_JSON_MESSAGE_CODEC_ERROR_INVALID_OBJECT_KEY_TYPE.
Proof.
  apply (decode_map_key_must_be_string linux_x64 (bytes " ") "1" (bytes ":2}"));
    try reflexivity; discriminate.
Defined.

(** ** The text interface *)

Lemma not_control_c_str (out : list byte) :
  forallb not_control out = true -> c_str (out ++ [x00]) = out.
Proof.
  induction out as [|c out IH]; [reflexivity|].
  cbn [forallb app c_str]. intros H. apply andb_true_iff in H as [Hc H].
  assert (E : Byte.eqb c x00 = false).
  { apply byte_eqb_neq. intros ->. discriminate Hc. }
  rewrite E, IH by assumption. reflexivity.
Qed.

(** X15. The text interface agrees with the bytes interface:
    [fl_json_message_codec_encode] returns the bytes of
    [encode_message] followed by a NUL, and, as the encoding holds no NUL,
    [fl_json_message_codec_decode] reads from that text what
    [decode_message] reads from those bytes. *)
Theorem text_interface_agrees (P : Platform) (message : option FlValue)
  (text : list byte) :
  dtostr_is_text P -> message_integers_fit message = true ->
  fl_json_message_codec_encode P message = Ok text ->
  exists out,
    fl_json_message_codec_encode_message P message = Ok out
    /\ text = out ++ [x00]
    /\ fl_json_message_codec_decode P text = fl_json_message_codec_decode_message P out.
Proof.
  intros Ht Hfit H. unfold fl_json_message_codec_encode in H.
  unfold fl_json_message_codec_encode_message.
  destruct (write_value_nullable P [] message) as [out| |] eqn:E; try discriminate H.
  cbn [bind] in H. injection H as <-.
  exists out. repeat split.
  unfold fl_json_message_codec_decode. f_equal. apply not_control_c_str.
  destruct message as [v|].
  - eapply write_value_not_control; eassumption.
  - injection E as <-. reflexivity.
Qed.

Lemma text_interface_agrees_witness :
  exists out,
    fl_json_message_codec_encode_message linux_x64
      (Some (FlList [FlInt 1; FlString (bytes "a")])) = Ok out
    /\ bytes "[1," ++ x22 :: bytes "a" ++ x22 :: bytes "]" ++ [x00] = out ++ [x00]
    /\ fl_json_message_codec_decode linux_x64
         (bytes "[1," ++ x22 :: bytes "a" ++ x22 :: bytes "]" ++ [x00])
       = fl_json_message_codec_decode_message linux_x64 out.
Proof.
  apply (text_interface_agrees linux_x64 (Some (FlList [FlInt 1; FlString (bytes "a")]))).
  - apply dtostr_17g_is_text.
  - reflexivity.
  - vm_compute. reflexivity.
Defined.

(** ** The values that the decoder builds *)

Lemma read_json_string_loop_is_string (P : Platform) (fuel : nat) :
  forall text s v r,
    read_json_string_loop P fuel text s = Ok (v, r) -> is_string v = true.
Proof.
  induction fuel as [|fuel IH]; intros text s v r H; [discriminate H|].
  cbn [read_json_string_loop] in H.
  destruct (Byte.eqb (current_char s) x22).
  - injection H as <- _. reflexivity.
  - destruct (Byte.eqb (current_char s) x5c).
    + destruct (read_json_string_escape P (next_char s)) as [[wc s']| |];
        try discriminate H.
      cbn [bind] in H. exact (IH _ _ _ _ H).
    + destruct (Byte.eqb (current_char s) x00); [discriminate H|].
      destruct (char_to_int P (current_char s) <? 32); [discriminate H|].
      exact (IH _ _ _ _ H).
Qed.

Lemma number_value_shaped (P : Platform) (n : number_literal) :
  json_shaped (number_value P n) = true.
Proof.
  unfold number_value, read_json_number_result.
  destruct (literal_tail n); reflexivity.
Qed.

Lemma fl_value_set_shaped (acc : list (FlValue * FlValue)) (key value : FlValue) :
  forallb (fun kv => let '(k, x) := kv in is_string k && json_shaped x) acc = true ->
  is_string key = true -> json_shaped value = true ->
  forallb (fun kv => let '(k, x) := kv in is_string k && json_shaped x)
    (fl_value_set acc key value) = true.
Proof.
  intros Hacc Hk Hv. induction acc as [|[k x] acc IH].
  - cbn [fl_value_set forallb]. rewrite Hk, Hv. reflexivity.
  - cbn [fl_value_set]. cbn [forallb] in Hacc.
    apply andb_true_iff in Hacc as [Hkx Hacc].
    destruct (fl_value_equal k key); cbn [forallb].
    + rewrite Hk, Hv, Hacc. reflexivity.
    + rewrite Hkx, (IH Hacc). reflexivity.
Qed.

Lemma reads_json_shaped (P : Platform) (fuel : nat) :
  (forall s v r, read_value P fuel s = Ok (v, r) -> json_shaped v = true)
  /\ (forall acc s v r,
        forallb json_shaped acc = true ->
        read_json_array_loop P fuel acc s = Ok (v, r) -> json_shaped v = true)
  /\ (forall acc s v r,
        forallb (fun kv => let '(k, x) := kv in is_string k && json_shaped x) acc = true ->
        read_json_object_loop P fuel acc s = Ok (v, r) -> json_shaped v = true).
Proof.
  induction fuel as [|fuel (IHv & IHa & IHo)];
    [repeat split; intros; discriminate|].
  split; [|split].
  - intros s v r H. rewrite read_value_S in H. cbv zeta in H.
    remember (read_whitespace s) as s1 eqn:Hs1. clear Hs1.
    match type of H with
    | bind ?x _ = _ => destruct x as [[value s2]| |] eqn:Ein; try discriminate H
    end.
    cbn [bind] in H. injection H as <- _.
    destruct (Byte.eqb (current_char s1) "{");
      [exact (IHo [] _ _ _ eq_refl Ein)|].
    destruct (Byte.eqb (current_char s1) "[");
      [exact (IHa [] _ _ _ eq_refl Ein)|].
    destruct (Byte.eqb (current_char s1) x22).
    { apply read_json_string_loop_is_string in Ein.
      destruct value; try discriminate Ein. reflexivity. }
    destruct (Byte.eqb (current_char s1) "-"
              || (0 <=? json_digit_to_int P (current_char s1))) eqn:E4.
    { apply digit_dispatch in E4.
      destruct (read_json_number_inv P s1 value s2 Ein E4) as (n & _ & _ & _ & ->).
      apply number_value_shaped. }
    unfold read_json_true, read_json_false, read_json_null in Ein.
    repeat match type of Ein with
           | (if ?b then _ else _) = _ => destruct b
           | bind ?x _ = _ => destruct x; try discriminate Ein; cbn [bind] in Ein
           end;
      try discriminate Ein; injection Ein as <- _; reflexivity.
  - intros acc s v r Hacc H.
    apply read_json_array_loop_inv in H
      as [(w & _ & _ & ->)|(pre & s' & child & s3 & _ & _ & Hv & Ha)].
    + exact Hacc.
    + apply IHv in Hv. apply (IHa _ _ _ _) in Ha; [exact Ha|].
      unfold fl_value_append. rewrite forallb_app, Hacc. cbn [forallb].
      rewrite Hv. reflexivity.
  - intros acc s v r Hacc H.
    apply read_json_object_loop_inv in H
      as [(w & _ & _ & ->)
         |(pre & w1 & tk & w2 & s5 & key & value & s6 & _ & _ & _ & _ & _ & Hkey
           & Hv & Ho)].
    + exact Hacc.
    + apply IHv in Hv. apply (IHo _ _ _ _) in Ho; [exact Ho|].
      apply fl_value_set_shaped; try assumption.
      specialize (Hkey []). unfold read_json_string in Hkey.
      apply read_json_string_loop_is_string in Hkey. exact Hkey.
Qed.

(** X16. Whatever the message, a decoded value holds no typed list, and the
    keys of its maps are strings: the decoder builds null, booleans,
    integers, floats, strings, lists and maps under string keys only. *)
Theorem decoded_value_is_json_shaped (P : Platform) (message : list byte) (v : FlValue) :
  fl_json_message_codec_decode_message P message = Ok v -> json_shaped v = true.
Proof.
  unfold fl_json_message_codec_decode_message. intros H.
  destruct (read_value P (decode_fuel message) message) as [[value rest]| |] eqn:E;
    try discriminate H.
  cbn [bind] in H. destruct (negb (length rest =? 0)%nat); [discriminate H|].
  injection H as <-.
  exact (proj1 (reads_json_shaped P (decode_fuel message)) _ _ _ E).
Qed.

Lemma decoded_value_is_json_shaped_witness :
  json_shaped (FlList [FlInt 1; FlMap [(FlString (bytes "a"), FlNull)]]) = true.
Proof.
  apply (decoded_value_is_json_shaped linux_x64
           (bytes "[1,{" ++ x22 :: bytes "a" ++ x22 :: bytes ":null}]")).
  vm_compute. reflexivity.
Defined.

(** ** The view: pointer events *)







(** X20. The timestamp of a pointer event is the time of the GDK event in
    microseconds reduced modulo 2^32: it is that time in microseconds only
    for the first 4294967 milliseconds, and it comes back to the same value
    every 2^29 milliseconds. *)
Theorem pointer_timestamp_wraps (self : FlView) (event : GdkEventMotion)
  (self' : FlView) (e : PointerEvent) (ret : bool) :
  fl_view_motion_notify_event self event = (self', Some e, ret) ->
  0 <= motion_time event < 2 ^ 32 ->
  0 <= timestamp e < 2 ^ 32
  /\ (timestamp e = motion_time event * 1000 <-> motion_time event <= 4294967)
  /\ timestamp e = event_timestamp (motion_time event + 2 ^ 29).
Proof.
  unfold fl_view_motion_notify_event. intros H Ht.
  destruct (engine self); [|discriminate H]. cbn [negb] in H.
  injection H as _ <- _. cbn [timestamp].
  unfold event_timestamp, wrap32u, kMicrosecondsPerMillisecond.
  change (2 ^ 32) with 4294967296 in *. change (2 ^ 29) with 536870912.
  pose proof (Z.mod_pos_bound (motion_time event * 1000) 4294967296 ltac:(lia)) as Hm.
  split; [lia|]. split; [split|].
  - intros E. destruct (Z.le_gt_cases (motion_time event) 4294967) as [Hle|Hgt];
      [exact Hle|]. lia.
  - intros Hle. apply Z.mod_small. lia.
  - replace ((motion_time event + 536870912) * 1000)
      with (motion_time event * 1000 + 125 * 4294967296) by lia.
    rewrite Z.mod_add by lia. reflexivity.
Qed.

Lemma pointer_timestamp_wraps_witness :
  0 <= 704 < 2 ^ 32
  /\ (704 = 4294968 * 1000 <-> 4294968 <= 4294967)
  /\ 704 = event_timestamp (4294968 + 2 ^ 29).
Proof.
  apply (pointer_timestamp_wraps
           {| engine := true; button_state := 0 |}
           {| motion_time := 4294968; motion_x := S754_zero false;
              motion_y := S754_zero false |}
           {| engine := true; button_state := 0 |}
           {| phase := Some kHover; timestamp := 704; x := S754_zero false;
              y := S754_zero false; buttons := 0 |}
           true).
  - reflexivity.
  - cbn [motion_time]. lia.
Defined.

(** ** Strings with bytes from 0x80 on *)

Lemma read_string_prefix (P : Platform) (s : list byte) :
  forall fuel text rest,
    forallb (string_byte_round_trips P) s = true ->
    read_json_string_loop P (length s + fuel) text (write_string_chars P [] s ++ rest)
    = read_json_string_loop P fuel (text ++ s) rest.
Proof.
  induction s as [|c s IH]; intros fuel text rest H.
  - rewrite app_nil_r. reflexivity.
  - cbn [forallb] in H. apply andb_true_iff in H as [Hc Hs].
    cbn [write_string_chars].
    rewrite (string_byte_round_trips_nonzero P c Hc).
    rewrite write_string_chars_app, <- app_assoc.
    cbn [length Nat.add].
    rewrite read_string_char by assumption.
    rewrite IH by assumption. rewrite <- app_assoc. reflexivity.
Qed.

Lemma read_high_byte_escape (P : Platform) (c : byte) (fuel : nat)
  (text rest : list byte) :
  char_is_signed P = true -> 128 <= byte_val c ->
  read_json_string_loop P (S fuel) text (write_string_char P [] c ++ rest)
  = Err FL_JSON_MESSAGE_CODEC_ERROR_INVALID_STRING_UNICODE_ESCAPE.
Proof.
  destruct P as [[|] dtostr libm_pow]; intros Hs Hc; [|discriminate Hs].
  destruct c; try (exfalso; vm_compute in Hc; apply Hc; reflexivity); reflexivity.
Qed.

Lemma write_string_chars_length (P : Platform) (s : list byte) :
  forallb (string_byte_round_trips P) s = true ->
  (length s <= length (write_string_chars P [] s))%nat.
Proof.
  induction s as [|c s IH]; intros H; [cbn; lia|].
  cbn [forallb] in H. apply andb_true_iff in H as [Hc Hs].
  cbn [write_string_chars]. rewrite (string_byte_round_trips_nonzero P c Hc).
  rewrite write_string_chars_app, length_app. specialize (IH Hs).
  assert (1 <= length (write_string_char P [] c))%nat.
  { clear -Hc. destruct P as [[|] ? ?]; destruct c; try discriminate Hc;
      cbn; lia. }
  cbn [length]. lia.
Qed.

(** X19. Where [char] is signed, a string that holds a byte from 0x80 on,
    as every text outside ASCII does in UTF-8, is encoded without an error,
    but decoding the encoding fails with an invalid-unicode-escape error:
    the byte is a negative character, so it is written as a unicode escape,
    and the characters of that escape are not all hexadecimal digits. *)
Theorem high_byte_string_is_not_decodable (P : Platform) (before : list byte)
  (c : byte) (after : list byte) :
  char_is_signed P = true -> 128 <= byte_val c ->
  forallb (string_byte_round_trips P) before = true ->
  exists out,
    fl_json_message_codec_encode_message P (Some (FlString (before ++ c :: after)))
    = Ok out
    /\ fl_json_message_codec_decode_message P out
       = Err FL_JSON_MESSAGE_CODEC_ERROR_INVALID_STRING_UNICODE_ESCAPE.
Proof.
  intros Hs Hc Hb.
  assert (Hc0 : Byte.eqb c x00 = false).
  { apply byte_eqb_neq. intros ->. vm_compute in Hc. apply Hc. reflexivity. }
  set (tail := write_string_chars P [] after ++ [x22]).
  exists (x22 :: write_string_chars P [] before ++ write_string_char P [] c ++ tail).
  split.
  - unfold fl_json_message_codec_encode_message, write_value_nullable.
    cbn [write_value]. unfold write_char. cbn [app].
    rewrite write_string_chars_app. cbn [app].
    assert (E : write_string_chars P [] (before ++ c :: after)
                = write_string_chars P [] before ++ write_string_char P [] c
                  ++ write_string_chars P [] after).
    { clear -Hb Hc0. induction before as [|b before IH].
      - cbn [app write_string_chars]. rewrite Hc0.
        rewrite write_string_chars_app. reflexivity.
      - cbn [forallb] in Hb. apply andb_true_iff in Hb as [Hb1 Hb].
        cbn [app write_string_chars].
        rewrite (string_byte_round_trips_nonzero P b Hb1).
        rewrite write_string_chars_app, (IH Hb).
        rewrite (write_string_chars_app P before (write_string_char P [] b)).
        rewrite <- !app_assoc. reflexivity. }
    rewrite E. unfold tail. rewrite <- !app_assoc. reflexivity.
  - set (out := x22 :: write_string_chars P [] before ++ write_string_char P [] c ++ tail).
    assert (Hrun : read_value P 1 out
                   = Err FL_JSON_MESSAGE_CODEC_ERROR_INVALID_STRING_UNICODE_ESCAPE).
    { rewrite read_value_S. cbv zeta.
      change (read_whitespace out) with out.
      change (current_char out) with x22.
      change (Byte.eqb x22 "{") with false. change (Byte.eqb x22 "[") with false.
      change (Byte.eqb x22 x22) with true. cbv iota.
      unfold read_json_string. unfold out at 2. cbn [next_char tl].
      pose proof (write_string_chars_length P before Hb) as Hlen.
      assert (Hfuel : exists k, S (length out)
                                = (length before + S k)%nat).
      { exists (length out - length before)%nat. unfold out. cbn [length].
        rewrite !length_app. lia. }
      destruct Hfuel as (k & ->).
      rewrite read_string_prefix by assumption.
      rewrite read_high_byte_escape by assumption. reflexivity. }
    unfold fl_json_message_codec_decode_message.
    rewrite (read_value_done_at_decode_fuel P _ _ _ Hrun) by discriminate.
    reflexivity.
Qed.

Lemma high_byte_string_is_not_decodable_witness :
  exists out,
    fl_json_message_codec_encode_message linux_x64
      (Some (FlString (bytes "caf" ++ xc3 :: [xa9]))) = Ok out
    /\ fl_json_message_codec_decode_message linux_x64 out
       = Err FL_JSON_MESSAGE_CODEC_ERROR_INVALID_STRING_UNICODE_ESCAPE.
Proof.
  apply (high_byte_string_is_not_decodable linux_x64 (bytes "caf") xc3 [xa9]).
  - reflexivity.
  - vm_compute. discriminate.
  - reflexivity.
Defined.

(** ** The text of lists and maps *)

Lemma write_list_elements_texts (P : Platform) (l : list FlValue)
  (texts : list (list byte)) :
  Forall2 (fun v t => write_value P [] v = Ok t) l texts ->
  forall buffer i,
    write_list_elements P buffer (S i) l
    = Ok (buffer ++ flat_map (fun t => [","%byte] ++ t) texts).
Proof.
  induction 1 as [|v t l texts Hv _ IH]; intros buffer i.
  - cbn [write_list_elements flat_map]. rewrite app_nil_r. reflexivity.
  - cbn [write_list_elements flat_map]. rewrite write_value_app, Hv.
    unfold prepend. cbn [bind]. rewrite IH.
    unfold write_separator, write_char. cbn [Nat.eqb negb].
    rewrite <- !app_assoc. reflexivity.
Qed.

Lemma write_map_entries_texts (P : Platform) (m : list (FlValue * FlValue))
  (texts : list (list byte * list byte)) :
  Forall2 (fun kv t => write_value P [] (fst kv) = Ok (fst t)
                       /\ write_value P [] (snd kv) = Ok (snd t)) m texts ->
  forall buffer i,
    write_map_entries P buffer (S i) m
    = Ok (buffer
          ++ flat_map (fun t => [","%byte] ++ fst t ++ [":"%byte] ++ snd t) texts).
Proof.
  induction 1 as [|[k v] [kt vt] m texts [Hk Hv] _ IH]; intros buffer i.
  - cbn [write_map_entries flat_map]. rewrite app_nil_r. reflexivity.
  - cbn [fst snd] in Hk, Hv. cbn [write_map_entries flat_map fst snd].
    rewrite write_value_app, Hk. unfold prepend. cbn [bind].
    rewrite write_value_app, Hv. unfold prepend. cbn [bind]. rewrite IH.
    unfold write_separator, write_char. cbn [Nat.eqb negb].
    rewrite <- !app_assoc. reflexivity.
Qed.

(** X21. The text of a list is an opening bracket, the texts of its elements
    with one comma between them, and a closing bracket; the text of a map is
    an opening brace, for each entry the text of the key, a colon and the text
    of the value, with one comma between the entries, and a closing brace.
    No other byte is written. *)
Theorem lists_and_maps_are_written_compactly (P : Platform) :
  (forall l texts,
      Forall2 (fun v t => write_value P [] v = Ok t) l texts ->
      write_value P [] (FlList l)
      = Ok (["["%byte] ++ joined [","%byte] texts ++ ["]"%byte]))
  /\ (forall m texts,
        Forall2 (fun kv t => write_value P [] (fst kv) = Ok (fst t)
                             /\ write_value P [] (snd kv) = Ok (snd t)) m texts ->
        write_value P [] (FlMap m)
        = Ok (["{"%byte]
              ++ joined [","%byte] (map (fun t => fst t ++ [":"%byte] ++ snd t) texts)
              ++ ["}"%byte])).
Proof.
  split.
  - intros l texts H. rewrite write_value_list.
    destruct H as [|v t l texts Hv H].
    + reflexivity.
    + cbn [write_list_elements joined]. rewrite write_value_app, Hv.
      unfold prepend. cbn [bind].
      rewrite (write_list_elements_texts P l texts H). cbn [bind].
      unfold write_separator, write_char. cbn [Nat.eqb negb app].
      rewrite <- !app_assoc. reflexivity.
  - intros m texts H. rewrite write_value_map.
    destruct H as [|[k v] [kt vt] m texts [Hk Hv] H].
    + reflexivity.
    + cbn [fst snd] in Hk, Hv. cbn [write_map_entries joined map fst snd].
      rewrite write_value_app, Hk. unfold prepend. cbn [bind].
      rewrite write_value_app, Hv. unfold prepend. cbn [bind].
      rewrite (write_map_entries_texts P m texts H). cbn [bind].
      assert (E : forall ts : list (list byte * list byte),
                 flat_map (fun q => [","%byte] ++ q)
                   (map (fun t => fst t ++ [":"%byte] ++ snd t) ts)
                 = flat_map (fun t => [","%byte] ++ fst t ++ [":"%byte] ++ snd t) ts).
      { induction ts as [|t ts IHts]; [reflexivity|].
        cbn [map flat_map]. rewrite IHts. reflexivity. }
      rewrite E.
      unfold write_separator, write_char. cbn [Nat.eqb negb app].
      rewrite <- !app_assoc. reflexivity.
Qed.

Lemma lists_and_maps_are_written_compactly_witness :
  write_value linux_x64 [] (FlList [FlInt 1; FlNull])
  = Ok (["["%byte] ++ joined [","%byte] [bytes "1"; bytes "null"] ++ ["]"%byte])
  /\ write_value linux_x64 [] (FlMap [(FlString (bytes "a"), FlBool true)])
     = Ok (["{"%byte]
           ++ joined [","%byte]
                (map (fun t => fst t ++ [":"%byte] ++ snd t)
                   [(x22 :: bytes "a" ++ [x22], bytes "true")])
           ++ ["}"%byte]).
Proof.
  split.
  - apply (proj1 (lists_and_maps_are_written_compactly linux_x64)).
    repeat constructor.
  - apply (proj2 (lists_and_maps_are_written_compactly linux_x64)
             [(FlString (bytes "a"), FlBool true)]
             [(x22 :: bytes "a" ++ [x22], bytes "true")]).
    repeat constructor.
Defined.

(** ** Nesting *)



(** ** The numeric literals that are refused *)

Lemma read_sign_stem (P : Platform) (negative : bool) (digits rest : list byte) :
  is_integer_part digits = true ->
  read_json_number_sign P (number_stem negative digits ++ rest)
  = Ok ((if negative then -1 else 1), current_char (digits ++ rest), digits ++ rest).
Proof.
  intros Hd. destruct (is_integer_part_head digits rest Hd) as (_ & Hc & _).
  unfold number_stem, read_json_number_sign. destruct negative.
  - cbn [app current_char next_char tl]. change (Byte.eqb "-" "-") with true.
    cbv iota. rewrite digit_test, Hc. reflexivity.
  - cbn [app]. destruct (is_digit_cases _ Hc) as (_ & _ & _ & _ & Hm & _).
    rewrite Hm. reflexivity.
Qed.

Lemma read_integer_stem (P : Platform) (digits rest : list byte) :
  is_integer_part digits = true -> is_digit (current_char rest) = false ->
  read_json_number_integer P (current_char (digits ++ rest)) (digits ++ rest)
  = (digits_accumulated digits, rest).
Proof.
  intros Hd Hr. destruct (is_integer_part_head digits rest Hd) as (Hall & Hc & Hz).
  unfold read_json_number_integer.
  destruct (Byte.eqb (current_char (digits ++ rest)) "0") eqn:E0.
  - rewrite (Hz eq_refl). reflexivity.
  - rewrite (read_json_digits_run P digits rest Hall Hr). reflexivity.
Qed.

Lemma marker_is_no_point (marker : byte) :
  Byte.eqb marker "E" || Byte.eqb marker "e" = true ->
  Byte.eqb marker "." = false /\ is_digit marker = false /\ marker <> x00.
Proof.
  intros H. apply orb_true_iff in H as [H|H]; apply byte_eqb_eq in H; subst marker;
    repeat split; discriminate.
Qed.

(** X23. The number reader has one error, invalid-number, and it returns it,
    when called on a minus sign or a digit, exactly when a minus sign, a
    decimal point or an exponent marker with its optional sign is not
    followed by a digit. *)
Theorem read_json_number_refuses (P : Platform) (s : cursor) :
  Byte.eqb (current_char s) "-" = true \/ is_digit (current_char s) = true ->
  (forall e, read_json_number P s = Err e ->
             e = FL_JSON_MESSAGE_CODEC_ERROR_INVALID_NUMBER)
  /\ ((exists e, read_json_number P s = Err e) <-> broken_number s).
Proof.
  intros Hhead.
  assert (Hinv : forall e, read_json_number P s = Err e ->
                   e = FL_JSON_MESSAGE_CODEC_ERROR_INVALID_NUMBER /\ broken_number s).
  { intros e H. unfold read_json_number in H.
    destruct (read_json_number_sign P s) as [[[sign c] s1]|e1|] eqn:Esign.
    - cbn [bind] in H.
      apply read_json_number_sign_inv in Esign as (negative & Es & _ & Ec & Hc);
        [|exact Hhead].
      destruct (read_json_number_integer P c s1) as [value s2] eqn:Eint.
      apply read_json_number_integer_inv in Eint as (digits & Es1 & Hd & _ & _);
        try assumption.
      assert (Estem : s = number_stem negative digits ++ s2).
      { unfold number_stem. rewrite Es, Es1, <- app_assoc. reflexivity. }
      unfold read_json_number_fraction, read_json_number_exponent in H.
      destruct (Byte.eqb (current_char s2) ".") eqn:Edot.
      + rewrite digit_test in H.
        destruct (is_digit (current_char (next_char s2))) eqn:Hf.
        * exfalso. cbn [negb] in H.
          destruct (read_json_digits P (next_char s2)) as [[f d] s3].
          cbn [bind] in H. apply byte_eqb_eq in Edot. rewrite Edot in H.
          change (Byte.eqb "." "E" || Byte.eqb "." "e") with false in H.
          discriminate H.
        * cbn [negb bind] in H. injection H as <-. split; [reflexivity|].
          rewrite Estem. rewrite (head_cons s2 "." Edot) at 1 by discriminate.
          apply broken_fraction; assumption.
      + cbn [bind] in H.
        destruct (Byte.eqb (current_char s2) "E" || Byte.eqb (current_char s2) "e")
          eqn:Em; [|discriminate H].
        destruct (marker_is_no_point _ Em) as (_ & _ & Hm0).
        set (s3 := next_char s2) in *.
        assert (Es2 : s2 = current_char s2 :: s3) by (apply current_char_cons; exact Hm0).
        destruct (Byte.eqb (current_char s3) "-") eqn:Eminus.
        * rewrite digit_test in H.
          destruct (is_digit (current_char (next_char s3))) eqn:He.
          -- exfalso. cbn [negb] in H.
             destruct (read_json_digits P (next_char s3)) as [[ev d] s4].
             discriminate H.
          -- cbn [negb] in H. injection H as <-. split; [reflexivity|].
             rewrite Estem, Es2. rewrite (head_cons s3 "-" Eminus) by discriminate.
             apply (broken_exponent negative digits (current_char s2) ["-"%byte]);
               auto.
        * destruct (Byte.eqb (current_char s3) "+") eqn:Eplus.
          -- rewrite digit_test in H.
             destruct (is_digit (current_char (next_char s3))) eqn:He.
             ++ exfalso. cbn [negb] in H.
                destruct (read_json_digits P (next_char s3)) as [[ev d] s4].
                discriminate H.
             ++ cbn [negb] in H. injection H as <-. split; [reflexivity|].
                rewrite Estem, Es2. rewrite (head_cons s3 "+" Eplus) by discriminate.
                apply (broken_exponent negative digits (current_char s2) ["+"%byte]);
                  auto.
          -- rewrite digit_test in H.
             destruct (is_digit (current_char s3)) eqn:He.
             ++ exfalso. cbn [negb] in H.
                destruct (read_json_digits P s3) as [[ev d] s4].
                discriminate H.
             ++ cbn [negb] in H. injection H as <-. split; [reflexivity|].
                rewrite Estem, Es2.
                apply (broken_exponent negative digits (current_char s2) [] s3);
                  auto.
                cbn [exponent_sign_ok]. rewrite Eminus, Eplus. reflexivity.
    - cbn [bind] in H. injection H as <-.
      unfold read_json_number_sign in Esign.
      destruct (Byte.eqb (current_char s) "-") eqn:Hm; [|discriminate Esign].
      rewrite digit_test in Esign.
      destruct (is_digit (current_char (next_char s))) eqn:Hc; [discriminate Esign|].
      cbn [negb] in Esign. injection Esign as <-. split; [reflexivity|].
      rewrite (head_cons s "-" Hm) by discriminate. apply broken_sign. exact Hc.
    - discriminate H. }
  split; [intros e H; apply (Hinv e H)|].
  split; [intros (e & H); apply (Hinv e H)|].
  intros Hb. exists FL_JSON_MESSAGE_CODEC_ERROR_INVALID_NUMBER.
  destruct Hb as [r Hr|negative digits r Hd Hr|negative digits marker sign r Hd Hm Hs Hr].
  - unfold read_json_number, read_json_number_sign.
    cbn [current_char next_char tl]. change (Byte.eqb "-" "-") with true. cbv iota.
    rewrite digit_test, Hr. reflexivity.
  - unfold read_json_number. rewrite (read_sign_stem P negative digits _ Hd).
    cbn [bind]. rewrite (read_integer_stem P digits _ Hd) by reflexivity.
    unfold read_json_number_fraction. cbn [current_char next_char tl].
    change (Byte.eqb "." ".") with true. cbv iota.
    rewrite digit_test, Hr. reflexivity.
  - destruct (marker_is_no_point _ Hm) as (Hp & Hmd & _).
    unfold read_json_number. rewrite (read_sign_stem P negative digits _ Hd).
    cbn [bind]. rewrite (read_integer_stem P digits _ Hd) by exact Hmd.
    unfold read_json_number_fraction, read_json_number_exponent.
    cbn [current_char next_char tl]. rewrite Hp. cbn [bind]. rewrite Hm.
    destruct sign as [|c [|c' sign]]; cbn [exponent_sign_ok] in Hs;
      [|apply orb_true_iff in Hs as [Hs|Hs]; apply byte_eqb_eq in Hs; subst c
       |discriminate Hs].
    + apply negb_true_iff, orb_false_iff in Hs as [H1 H2].
      cbv iota. cbn [app current_char next_char tl].
      rewrite H1, H2, digit_test, Hr. reflexivity.
    + cbv iota. cbn [app current_char next_char tl].
      change (Byte.eqb "-" "-") with true.
      cbv iota. rewrite digit_test, Hr. reflexivity.
    + cbv iota. cbn [app current_char next_char tl].
      change (Byte.eqb "+" "-") with false.
      change (Byte.eqb "+" "+") with true. cbv iota.
      rewrite digit_test, Hr. reflexivity.
Qed.

Lemma read_json_number_refuses_witness :
  (forall e, read_json_number linux_x64 (bytes "1.e5") = Err e ->
             e = FL_JSON_MESSAGE_CODEC_ERROR_INVALID_NUMBER)
  /\ ((exists e, read_json_number linux_x64 (bytes "1.e5") = Err e)
      <-> broken_number (bytes "1.e5")).
Proof.
  apply (read_json_number_refuses linux_x64 (bytes "1.e5")). right. reflexivity.
Defined.
